(** * Drawpile: the select() readiness multiplexer and the message envelope

    A shallow embedding of [src/server/ev/select.cpp] (class [EventSelect],
    the non-WIN32 build, which is the one that carries the [nfds_*]
    bookkeeping) and of the message header ([protocol::Message] and its
    reference counting pointer [protocol::MessagePtr]), followed by the
    properties of the specification that concern them. *)

From Stdlib Require Import ZArith Lia Bool.
From stdpp Require Import gmap list sorting.

Local Open Scope Z_scope.

(** ** Outcomes of a call

    A C++ call either returns, or trips an [assert]/[Q_ASSERT], or leaves
    the behaviour the language defines (signed overflow, a dangling or
    singular iterator, an [fd_set] macro used out of range). *)

Inductive fault := assertion_failed | undefined_behaviour.

Inductive result (A : Type) : Type :=
| Ok (a : A)
| Fail (f : fault).
Arguments Ok {A} a.
Arguments Fail {A} f.

Definition bind {A B} (m : result A) (k : A -> result B) : result B :=
  match m with
  | Ok a => k a
  | Fail f => Fail f
  end.

Definition assert (b : bool) : result unit :=
  if b then Ok tt else Fail assertion_failed.

Definition defined {A} (o : option A) : result A :=
  match o with
  | Some a => Ok a
  | None => Fail undefined_behaviour
  end.

Declare Scope result_scope.
Delimit Scope result_scope with result.
Notation "'let*' x ':=' m 'in' k" := (bind m (fun x => k))
  (at level 10, x pattern, m at level 100, k at level 200, only parsing)
  : result_scope.

(** ** Ordered containers

    [std::set<fd_t>] and [std::map<fd_t,uint>] keep their elements in
    ascending key order; iteration, [begin()] and [--end()] depend on it.
    They are lists kept strictly ascending.  The members are declared in
    [select.h]: [remove] names the iterator type of [fd_list],
    [std::map<fd_t,uint>::iterator], and [read_set], [write_set] and
    [error_set] are used as [std::set<fd_t>] ([insert] with a hint,
    [erase] by key, [size], [--end()]). *)

Module StdSet.
Fixpoint insert (x : Z) (l : list Z) : list Z :=
  match l with
  | [] => [x]
  | y :: l' =>
      if x <? y then x :: l
      else if x =? y then l
      else y :: insert x l'
  end.

Definition erase (x : Z) (l : list Z) : list Z :=
  filter (fun y => y <> x) l.

Definition size (l : list Z) : Z := Z.of_nat (length l).

(** [*(--s.end())], defined on a non-empty set only. *)
Definition back (l : list Z) : option Z := last l.
End StdSet.

Module StdMap.
(** An iterator designates a node by its key, or is the past-the-end
    iterator, or is singular (default constructed, never assigned).
    Insertion leaves iterators valid; erasing a node invalidates the
    iterators that designate it. *)
Inductive iterator := singular | at_key (k : Z) | past_end.

#[global] Instance iterator_eq_dec : EqDecision iterator.
Proof. solve_decision. Defined.

(** [m[k] = v] *)
Fixpoint assign (k v : Z) (m : list (Z * Z)) : list (Z * Z) :=
  match m with
  | [] => [(k, v)]
  | (k', v') :: m' =>
      if k <? k' then (k, v) :: m
      else if k =? k' then (k, v) :: m'
      else (k', v') :: assign k v m'
  end.

Definition keys (m : list (Z * Z)) : list Z := m.*1.

Definition find (k : Z) (m : list (Z * Z)) : iterator :=
  if bool_decide (k ∈ keys m) then at_key k else past_end.

Definition erase (k : Z) (m : list (Z * Z)) : list (Z * Z) :=
  filter (fun p => p.1 <> k) m.

Definition begin (m : list (Z * Z)) : iterator :=
  match m with
  | [] => past_end
  | (k, _) :: _ => at_key k
  end.

(** The nodes from the one with key [k] onwards. *)
Fixpoint seek (k : Z) (m : list (Z * Z)) : list (Z * Z) :=
  match m with
  | [] => []
  | (k', v) :: m' => if k' =? k then m else seek k m'
  end.

(** What remains to be visited from an iterator; nothing is defined
    for a singular iterator or for one whose node is gone. *)
Definition from (it : iterator) (m : list (Z * Z)) : option (list (Z * Z)) :=
  match it with
  | singular => None
  | past_end => Some []
  | at_key k => if bool_decide (k ∈ keys m) then Some (seek k m) else None
  end.
End StdMap.

(** ** Platform constants

    [select.h], the event traits and [<cerrno>] are not part of the
    sources at hand; the constants they declare are the fields of a class.
    The sentinel [event_invalid_fd<EventSelect>::value] lies below every
    descriptor, as [add] relies on when it compares a descriptor with an
    unset [nfds_r]. *)

Class Platform := {
  event_invalid_fd : Z;
  FD_SETSIZE : Z;
  EINTR : Z;
  EBADF : Z;
  ENOTSOCK : Z;
  EINVAL : Z;
  EFAULT : Z;
  event_invalid_fd_negative : event_invalid_fd < 0
}.

(** The values of a Linux build. *)
Definition linux : Platform := {|
  event_invalid_fd := -1;
  FD_SETSIZE := 1024;
  EINTR := 4;
  EBADF := 9;
  ENOTSOCK := 88;
  EINVAL := 22;
  EFAULT := 14;
  event_invalid_fd_negative := eq_refl
|}.

(** ** Event masks *)

Definition event_read : Z := 1.
Definition event_write : Z := 2.
Definition event_error : Z := 4.

(** Modelled from the spec: the flag helpers [fIsSet] and [fSet] are
    declared outside the sources at hand; an event mask is a small bit
    set, [fIsSet(u, x)] tests that the bits of [x] are all set in [u] and
    [fSet(u, x)] sets them. *)
Definition fIsSet (u x : Z) : bool := Z.land u x =? x.
Definition fSet (u x : Z) : Z := Z.lor u x.

(** ** [fd_set]: a bitmap of [FD_SETSIZE] bits *)

Section FdSet.
Context `{Platform}.

Definition fd_set := Z.

Definition FD_ZERO : fd_set := 0.

Definition fd_in_range (fd : Z) : bool := (0 <=? fd) && (fd <? FD_SETSIZE).

(** [FD_SET] and [FD_CLR] are undefined outside [0, FD_SETSIZE). *)
Definition FD_SET (fd : Z) (s : fd_set) : result fd_set :=
  if fd_in_range fd then Ok (Z.setbit s fd) else Fail undefined_behaviour.

Definition FD_CLR (fd : Z) (s : fd_set) : result fd_set :=
  if fd_in_range fd then Ok (Z.clearbit s fd) else Fail undefined_behaviour.

(** [FD_ISSET] is only ever applied to keys of the registry, which
    [FD_SET] has range-checked. *)
Definition FD_ISSET (fd : Z) (s : fd_set) : bool := Z.testbit s fd.

(** Every descriptor an [fd_set] can hold, in ascending order. *)
Definition fd_range : list Z := Z.of_nat <$> seq 0 (Z.to_nat FD_SETSIZE).

(** The descriptors of [keys] that are in the set [s]. *)
Definition members_of (s : fd_set) (keys : list Z) : list Z :=
  filter (fun fd => FD_ISSET fd s = true) keys.

(** The number of descriptors in the set. *)
Definition fd_count (s : fd_set) : Z :=
  Z.of_nat (length (members_of s fd_range)).
End FdSet.

(** ** The state of an [EventSelect] object *)

Record timeval := { tv_sec : Z; tv_usec : Z }.

Module EventSelect.

Record t := {
  fds_r : fd_set;
  fds_w : fd_set;
  fds_e : fd_set;
  t_fds_r : fd_set;
  t_fds_w : fd_set;
  t_fds_e : fd_set;
  read_set : list Z;
  write_set : list Z;
  error_set : list Z;
  nfds_r : Z;
  nfds_w : Z;
  nfds_e : Z;
  nfds : Z;
  error : Z;
  fd_list : list (Z * Z);
  fd_iter : StdMap.iterator;
  _timeout : timeval
}.

(** Assignment to one member. *)
Definition set_fds_r (v : fd_set) (st : t) : t :=
  {| fds_r := v; fds_w := fds_w st; fds_e := fds_e st;
     t_fds_r := t_fds_r st; t_fds_w := t_fds_w st; t_fds_e := t_fds_e st;
     read_set := read_set st; write_set := write_set st;
     error_set := error_set st; nfds_r := nfds_r st; nfds_w := nfds_w st;
     nfds_e := nfds_e st; nfds := nfds st; error := error st;
     fd_list := fd_list st; fd_iter := fd_iter st;
     _timeout := _timeout st |}.

Definition set_fds_w (v : fd_set) (st : t) : t :=
  {| fds_r := fds_r st; fds_w := v; fds_e := fds_e st;
     t_fds_r := t_fds_r st; t_fds_w := t_fds_w st; t_fds_e := t_fds_e st;
     read_set := read_set st; write_set := write_set st;
     error_set := error_set st; nfds_r := nfds_r st; nfds_w := nfds_w st;
     nfds_e := nfds_e st; nfds := nfds st; error := error st;
     fd_list := fd_list st; fd_iter := fd_iter st;
     _timeout := _timeout st |}.

Definition set_fds_e (v : fd_set) (st : t) : t :=
  {| fds_r := fds_r st; fds_w := fds_w st; fds_e := v;
     t_fds_r := t_fds_r st; t_fds_w := t_fds_w st; t_fds_e := t_fds_e st;
     read_set := read_set st; write_set := write_set st;
     error_set := error_set st; nfds_r := nfds_r st; nfds_w := nfds_w st;
     nfds_e := nfds_e st; nfds := nfds st; error := error st;
     fd_list := fd_list st; fd_iter := fd_iter st;
     _timeout := _timeout st |}.

Definition set_t_fds_r (v : fd_set) (st : t) : t :=
  {| fds_r := fds_r st; fds_w := fds_w st; fds_e := fds_e st;
     t_fds_r := v; t_fds_w := t_fds_w st; t_fds_e := t_fds_e st;
     read_set := read_set st; write_set := write_set st;
     error_set := error_set st; nfds_r := nfds_r st; nfds_w := nfds_w st;
     nfds_e := nfds_e st; nfds := nfds st; error := error st;
     fd_list := fd_list st; fd_iter := fd_iter st;
     _timeout := _timeout st |}.

Definition set_t_fds_w (v : fd_set) (st : t) : t :=
  {| fds_r := fds_r st; fds_w := fds_w st; fds_e := fds_e st;
     t_fds_r := t_fds_r st; t_fds_w := v; t_fds_e := t_fds_e st;
     read_set := read_set st; write_set := write_set st;
     error_set := error_set st; nfds_r := nfds_r st; nfds_w := nfds_w st;
     nfds_e := nfds_e st; nfds := nfds st; error := error st;
     fd_list := fd_list st; fd_iter := fd_iter st;
     _timeout := _timeout st |}.

Definition set_t_fds_e (v : fd_set) (st : t) : t :=
  {| fds_r := fds_r st; fds_w := fds_w st; fds_e := fds_e st;
     t_fds_r := t_fds_r st; t_fds_w := t_fds_w st; t_fds_e := v;
     read_set := read_set st; write_set := write_set st;
     error_set := error_set st; nfds_r := nfds_r st; nfds_w := nfds_w st;
     nfds_e := nfds_e st; nfds := nfds st; error := error st;
     fd_list := fd_list st; fd_iter := fd_iter st;
     _timeout := _timeout st |}.

Definition set_read_set (v : list Z) (st : t) : t :=
  {| fds_r := fds_r st; fds_w := fds_w st; fds_e := fds_e st;
     t_fds_r := t_fds_r st; t_fds_w := t_fds_w st; t_fds_e := t_fds_e st;
     read_set := v; write_set := write_set st; error_set := error_set st;
     nfds_r := nfds_r st; nfds_w := nfds_w st; nfds_e := nfds_e st;
     nfds := nfds st; error := error st; fd_list := fd_list st;
     fd_iter := fd_iter st; _timeout := _timeout st |}.

Definition set_write_set (v : list Z) (st : t) : t :=
  {| fds_r := fds_r st; fds_w := fds_w st; fds_e := fds_e st;
     t_fds_r := t_fds_r st; t_fds_w := t_fds_w st; t_fds_e := t_fds_e st;
     read_set := read_set st; write_set := v; error_set := error_set st;
     nfds_r := nfds_r st; nfds_w := nfds_w st; nfds_e := nfds_e st;
     nfds := nfds st; error := error st; fd_list := fd_list st;
     fd_iter := fd_iter st; _timeout := _timeout st |}.

Definition set_error_set (v : list Z) (st : t) : t :=
  {| fds_r := fds_r st; fds_w := fds_w st; fds_e := fds_e st;
     t_fds_r := t_fds_r st; t_fds_w := t_fds_w st; t_fds_e := t_fds_e st;
     read_set := read_set st; write_set := write_set st; error_set := v;
     nfds_r := nfds_r st; nfds_w := nfds_w st; nfds_e := nfds_e st;
     nfds := nfds st; error := error st; fd_list := fd_list st;
     fd_iter := fd_iter st; _timeout := _timeout st |}.

Definition set_nfds_r (v : Z) (st : t) : t :=
  {| fds_r := fds_r st; fds_w := fds_w st; fds_e := fds_e st;
     t_fds_r := t_fds_r st; t_fds_w := t_fds_w st; t_fds_e := t_fds_e st;
     read_set := read_set st; write_set := write_set st;
     error_set := error_set st; nfds_r := v; nfds_w := nfds_w st;
     nfds_e := nfds_e st; nfds := nfds st; error := error st;
     fd_list := fd_list st; fd_iter := fd_iter st;
     _timeout := _timeout st |}.

Definition set_nfds_w (v : Z) (st : t) : t :=
  {| fds_r := fds_r st; fds_w := fds_w st; fds_e := fds_e st;
     t_fds_r := t_fds_r st; t_fds_w := t_fds_w st; t_fds_e := t_fds_e st;
     read_set := read_set st; write_set := write_set st;
     error_set := error_set st; nfds_r := nfds_r st; nfds_w := v;
     nfds_e := nfds_e st; nfds := nfds st; error := error st;
     fd_list := fd_list st; fd_iter := fd_iter st;
     _timeout := _timeout st |}.

Definition set_nfds_e (v : Z) (st : t) : t :=
  {| fds_r := fds_r st; fds_w := fds_w st; fds_e := fds_e st;
     t_fds_r := t_fds_r st; t_fds_w := t_fds_w st; t_fds_e := t_fds_e st;
     read_set := read_set st; write_set := write_set st;
     error_set := error_set st; nfds_r := nfds_r st; nfds_w := nfds_w st;
     nfds_e := v; nfds := nfds st; error := error st;
     fd_list := fd_list st; fd_iter := fd_iter st;
     _timeout := _timeout st |}.

Definition set_nfds (v : Z) (st : t) : t :=
  {| fds_r := fds_r st; fds_w := fds_w st; fds_e := fds_e st;
     t_fds_r := t_fds_r st; t_fds_w := t_fds_w st; t_fds_e := t_fds_e st;
     read_set := read_set st; write_set := write_set st;
     error_set := error_set st; nfds_r := nfds_r st; nfds_w := nfds_w st;
     nfds_e := nfds_e st; nfds := v; error := error st;
     fd_list := fd_list st; fd_iter := fd_iter st;
     _timeout := _timeout st |}.

Definition set_error (v : Z) (st : t) : t :=
  {| fds_r := fds_r st; fds_w := fds_w st; fds_e := fds_e st;
     t_fds_r := t_fds_r st; t_fds_w := t_fds_w st; t_fds_e := t_fds_e st;
     read_set := read_set st; write_set := write_set st;
     error_set := error_set st; nfds_r := nfds_r st; nfds_w := nfds_w st;
     nfds_e := nfds_e st; nfds := nfds st; error := v;
     fd_list := fd_list st; fd_iter := fd_iter st;
     _timeout := _timeout st |}.

Definition set_fd_list (v : list (Z * Z)) (st : t) : t :=
  {| fds_r := fds_r st; fds_w := fds_w st; fds_e := fds_e st;
     t_fds_r := t_fds_r st; t_fds_w := t_fds_w st; t_fds_e := t_fds_e st;
     read_set := read_set st; write_set := write_set st;
     error_set := error_set st; nfds_r := nfds_r st; nfds_w := nfds_w st;
     nfds_e := nfds_e st; nfds := nfds st; error := error st;
     fd_list := v; fd_iter := fd_iter st; _timeout := _timeout st |}.

Definition set_fd_iter (v : StdMap.iterator) (st : t) : t :=
  {| fds_r := fds_r st; fds_w := fds_w st; fds_e := fds_e st;
     t_fds_r := t_fds_r st; t_fds_w := t_fds_w st; t_fds_e := t_fds_e st;
     read_set := read_set st; write_set := write_set st;
     error_set := error_set st; nfds_r := nfds_r st; nfds_w := nfds_w st;
     nfds_e := nfds_e st; nfds := nfds st; error := error st;
     fd_list := fd_list st; fd_iter := v; _timeout := _timeout st |}.

Definition set_timeout (v : timeval) (st : t) : t :=
  {| fds_r := fds_r st; fds_w := fds_w st; fds_e := fds_e st;
     t_fds_r := t_fds_r st; t_fds_w := t_fds_w st; t_fds_e := t_fds_e st;
     read_set := read_set st; write_set := write_set st;
     error_set := error_set st; nfds_r := nfds_r st; nfds_w := nfds_w st;
     nfds_e := nfds_e st; nfds := nfds st; error := error st;
     fd_list := fd_list st; fd_iter := fd_iter st; _timeout := v |}.

(** The three directions: [add], [modify] and [remove] repeat one block
    of code per direction, on the members [fds_x], [x_set] and [nfds_x]. *)
Inductive direction := dir_r | dir_w | dir_e.

Definition event_flag (d : direction) : Z :=
  match d with
  | dir_r => event_read
  | dir_w => event_write
  | dir_e => event_error
  end.

Definition fds (d : direction) (st : t) : fd_set :=
  match d with
  | dir_r => fds_r st
  | dir_w => fds_w st
  | dir_e => fds_e st
  end.

Definition t_fds (d : direction) (st : t) : fd_set :=
  match d with
  | dir_r => t_fds_r st
  | dir_w => t_fds_w st
  | dir_e => t_fds_e st
  end.

Definition x_set (d : direction) (st : t) : list Z :=
  match d with
  | dir_r => read_set st
  | dir_w => write_set st
  | dir_e => error_set st
  end.

Definition nfds_x (d : direction) (st : t) : Z :=
  match d with
  | dir_r => nfds_r st
  | dir_w => nfds_w st
  | dir_e => nfds_e st
  end.

Definition set_fds (d : direction) (v : fd_set) (st : t) : t :=
  match d with
  | dir_r => set_fds_r v st
  | dir_w => set_fds_w v st
  | dir_e => set_fds_e v st
  end.

Definition set_x_set (d : direction) (v : list Z) (st : t) : t :=
  match d with
  | dir_r => set_read_set v st
  | dir_w => set_write_set v st
  | dir_e => set_error_set v st
  end.

Definition set_nfds_x (d : direction) (v : Z) (st : t) : t :=
  match d with
  | dir_r => set_nfds_r v st
  | dir_w => set_nfds_w v st
  | dir_e => set_nfds_e v st
  end.

(** What the operating system hands back from one [select] call: the
    return value, the three sets as overwritten in place, the timeout as
    left behind, and [errno]. *)
Record select_result := {
  sel_ret : Z;
  sel_r : fd_set;
  sel_w : fd_set;
  sel_e : fd_set;
  sel_timeout : timeval;
  sel_errno : Z
}.

(** [select(nfds, &r, &w, &e, &timeout)] *)
Definition select_t : Type :=
  Z -> fd_set -> fd_set -> fd_set -> timeval -> select_result.

Section Operations.
Context `{Platform}.
Local Open Scope result_scope.

(** The constructor sets the three [nfds_x] and zeroes the three interest
    sets; the other members keep whatever the storage [raw] held, and
    [fd_iter] is default constructed. *)
Definition new (raw : t) : t :=
  {| fds_r := FD_ZERO; fds_w := FD_ZERO; fds_e := FD_ZERO;
     t_fds_r := t_fds_r raw; t_fds_w := t_fds_w raw; t_fds_e := t_fds_e raw;
     read_set := []; write_set := []; error_set := [];
     nfds_r := event_invalid_fd;
     nfds_w := event_invalid_fd;
     nfds_e := event_invalid_fd;
     nfds := nfds raw; error := error raw;
     fd_list := []; fd_iter := StdMap.singular;
     _timeout := _timeout raw |}.

(** The argument [select] receives as its first: one past the highest
    descriptor of the three directions. *)
Definition select_nfds (st : t) : Z :=
  let ubnfds := Z.max (Z.max (nfds_w st) (nfds_r st)) (nfds_e st) in
  if ubnfds =? event_invalid_fd then event_invalid_fd else ubnfds + 1.

(** The call [wait] makes, on the copies of the interest sets. *)
Definition select_call (select : select_t) (st : t) : select_result :=
  select (select_nfds st) (fds_r st) (fds_w st) (fds_e st) (_timeout st).

Definition wait (select : select_t) (st : t) : result (Z * t) :=
  let st := set_t_fds_r (fds_r st) st in
  let st := set_t_fds_w (fds_w st) st in
  let st := set_t_fds_e (fds_e st) st in
  let res :=
    select (select_nfds st) (t_fds_r st) (t_fds_w st) (t_fds_e st)
      (_timeout st) in
  let st := set_t_fds_r (sel_r res) st in
  let st := set_t_fds_w (sel_w res) st in
  let st := set_t_fds_e (sel_e res) st in
  let st := set_timeout (sel_timeout res) st in
  let st := set_nfds (sel_ret res) st in
  if nfds st =? -1 then
    let st := set_error (sel_errno res) st in
    if error st =? EINTR then
      let st := set_nfds 0 st in
      Ok (nfds st, st)
    else
      let* _ := assert (negb (error st =? EBADF)) in
      let* _ := assert (negb (error st =? ENOTSOCK)) in
      let* _ := assert (negb (error st =? EINVAL)) in
      let* _ := assert (negb (error st =? EFAULT)) in
      Ok (nfds st, st)
  else if nfds st =? 0 then
    Ok (nfds st, st)
  else
    let st := set_fd_iter (StdMap.begin (fd_list st)) st in
    Ok (nfds st, st).

(** The errors [wait] asserts cannot happen. *)
Definition asserted_errors : list Z := [EBADF; ENOTSOCK; EINVAL; EFAULT].

(** The block of [add] for one direction, entered when the flag of the
    direction is set in [events]. *)
Definition watch (d : direction) (fd : Z) (st : t) : result t :=
  let* s := FD_SET fd (fds d st) in
  let st := set_fds d s st in
  let st := set_x_set d (StdSet.insert fd (x_set d st)) st in
  let st := if nfds_x d st <? fd then set_nfds_x d fd st else st in
  Ok st.

Definition add_direction (d : direction) (fd events : Z) (rc_st : bool * t)
  : result (bool * t) :=
  let '(rc, st) := rc_st in
  if fIsSet events (event_flag d) then
    let* st := watch d fd st in
    Ok (true, st)
  else Ok (rc, st).

(** [uint] arithmetic wraps modulo 2^32, and so does the conversion of
    an [int] to [uint]. *)
Definition uint (x : Z) : Z := x mod 2 ^ 32.

(** The mapped type of [fd_list] is [uint]: [fd_list[fd] = events]
    stores the mask converted to it. *)
Definition add (st : t) (fd events : Z) : result (Z * t) :=
  let* _ := assert (negb (fd =? event_invalid_fd)) in
  let rc := false in
  let* p := add_direction dir_r fd events (rc, st) in
  let* p := add_direction dir_w fd events p in
  let* (rc, st) := add_direction dir_e fd events p in
  let* _ := assert rc in
  let st := set_fd_list (StdMap.assign fd (uint events) (fd_list st)) st in
  Ok (Z.b2z rc, st).

(** The block of [modify] and [remove] for one direction. *)
Definition unwatch (d : direction) (fd : Z) (st : t) : result t :=
  let* s := FD_CLR fd (fds d st) in
  let st := set_fds d s st in
  let st := set_x_set d (StdSet.erase fd (x_set d st)) st in
  if fd =? nfds_x d st then
    if 0 <? StdSet.size (x_set d st) then
      let* top := defined (StdSet.back (x_set d st)) in
      Ok (set_nfds_x d top st)
    else Ok (set_nfds_x d event_invalid_fd st)
  else Ok st.

Definition modify_direction (d : direction) (fd events : Z) (st : t)
  : result t :=
  if negb (fIsSet events (event_flag d)) then unwatch d fd st else Ok st.

Definition modify (st : t) (fd events : Z) : result (Z * t) :=
  let* _ := assert (negb (fd =? event_invalid_fd)) in
  let* st :=
    if negb (events =? 0)
    then let* (_, st') := add st fd events in Ok st'
    else Ok st in
  let* st := modify_direction dir_r fd events st in
  let* st := modify_direction dir_w fd events st in
  let* st := modify_direction dir_e fd events st in
  Ok (0, st).

Definition remove (st : t) (fd : Z) : result (Z * t) :=
  let* _ := assert (negb (fd =? event_invalid_fd)) in
  let iter := StdMap.find fd (fd_list st) in
  let* _ := assert (negb (bool_decide (iter = StdMap.past_end))) in
  let* st := unwatch dir_r fd st in
  let* st := unwatch dir_w fd st in
  let* st := unwatch dir_e fd st in
  let st := set_fd_list (StdMap.erase fd (fd_list st)) st in
  let st := set_fd_iter (StdMap.begin (fd_list st)) st in
  Ok (1, st).

(** The satisfied events of one descriptor, read off the sets [select]
    wrote back. *)
Definition satisfied (st : t) (fd : Z) : Z :=
  let events := 0 in
  let events :=
    if FD_ISSET fd (t_fds_r st) then fSet events event_read else events in
  let events :=
    if FD_ISSET fd (t_fds_w st) then fSet events event_write else events in
  let events :=
    if FD_ISSET fd (t_fds_e st) then fSet events event_error else events in
  events.

(** The loop of [getEvent] over the nodes from [fd_iter] onwards; [fd]
    and [events] are the caller's variables, assigned at each node. *)
Fixpoint getEvent_loop (st : t) (rest : list (Z * Z)) (fd events : Z)
  : bool * Z * Z * StdMap.iterator :=
  match rest with
  | [] => (false, fd, events, StdMap.past_end)
  | (k, _) :: rest' =>
      let fd := k in
      let events := satisfied st fd in
      if negb (events =? 0) then (true, fd, events, StdMap.begin rest')
      else getEvent_loop st rest' fd events
  end.

Definition getEvent (st : t) (fd events : Z) : result (bool * Z * Z * t) :=
  let* _ := assert (0 <? Z.of_nat (length (fd_list st))) in
  let* rest := defined (StdMap.from (fd_iter st) (fd_list st)) in
  let '(found, fd, events, iter) := getEvent_loop st rest fd events in
  Ok (found, fd, events, set_fd_iter iter st).

Definition timeout (st : t) (msecs : Z) : t :=
  if 1000 <? msecs then
    let st :=
      set_timeout {| tv_sec := msecs / 1000;
                     tv_usec := tv_usec (_timeout st) |} st in
    let msecs := uint (msecs - tv_sec (_timeout st) * 1000) in
    set_timeout {| tv_sec := tv_sec (_timeout st);
                   tv_usec := uint (msecs * 1000) |} st
  else
    let st :=
      set_timeout {| tv_sec := 0; tv_usec := tv_usec (_timeout st) |} st in
    set_timeout {| tv_sec := tv_sec (_timeout st);
                   tv_usec := uint (msecs * 1000) |} st.

(** *** Sequences of calls *)

Inductive call :=
| call_add (fd events : Z)
| call_modify (fd events : Z)
| call_remove (fd : Z)
| call_wait (select : select_t)
| call_getEvent (fd events : Z)
| call_timeout (msecs : Z).

Definition step (st : t) (c : call) : result t :=
  match c with
  | call_add fd events => let* (_, st') := add st fd events in Ok st'
  | call_modify fd events => let* (_, st') := modify st fd events in Ok st'
  | call_remove fd => let* (_, st') := remove st fd in Ok st'
  | call_wait select => let* (_, st') := wait select st in Ok st'
  | call_getEvent fd events =>
      let* (_, st') := getEvent st fd events in Ok st'
  | call_timeout msecs => Ok (timeout st msecs)
  end.

Fixpoint run (cs : list call) (st : t) : result t :=
  match cs with
  | [] => Ok st
  | c :: cs' => let* st' := step st c in run cs' st'
  end.

(** The caller's loop after a [wait]: [getEvent] is called until it
    returns false, and each pair it hands out is collected.  [fuel]
    bounds the number of calls. *)
Fixpoint drain (fuel : nat) (st : t) (fd events : Z)
  : result (list (Z * Z) * t) :=
  match fuel with
  | O => Fail undefined_behaviour
  | S fuel' =>
      let* (found, fd', events', st') := getEvent st fd events in
      if found : bool then
        let* (ys, st'') := drain fuel' st' fd' events' in
        Ok ((fd', events') :: ys, st'')
      else Ok ([], st')
  end.

(** *** The contract of [select] and the vocabulary of the specification *)

Definition fd_subset (a b : fd_set) : bool := Z.land a b =? a.

(** A successful [select]: each set comes back as a subset of what went
    in, and the return value is the total number of bits left set in the
    three of them. *)
Definition select_succeeds (r w e : fd_set) (res : select_result) : bool :=
  fd_subset (sel_r res) r && fd_subset (sel_w res) w
  && fd_subset (sel_e res) e
  && (sel_ret res
      =? fd_count (sel_r res) + fd_count (sel_w res) + fd_count (sel_e res)).

(** The number of events in a mask [getEvent] hands out. *)
Definition events_in (events : Z) : Z :=
  Z.b2z (fIsSet events event_read) + Z.b2z (fIsSet events event_write)
  + Z.b2z (fIsSet events event_error).

(** The descriptors among the nodes [rest] with a satisfied event, in
    the order of the nodes, each with its satisfied events. *)
Definition ready_in (st : t) (rest : list (Z * Z)) : list (Z * Z) :=
  filter (fun p => p.2 <> 0)
    ((fun fd => (fd, satisfied st fd)) <$> StdMap.keys rest).

(** The descriptors of the registry with a satisfied event. *)
Definition ready (st : t) : list (Z * Z) := ready_in st (fd_list st).

(** The object once the loop of [getEvent] has run off the registry. *)
Definition exhausted (st : t) : t := set_fd_iter StdMap.past_end st.

(** The events handed out over a whole loop of [getEvent]. *)
Definition total_events (ys : list (Z * Z)) : Z :=
  foldr Z.add 0 ((fun p => events_in p.2) <$> ys).

(** Following the words of the specification: the descriptors of the
    registry in the order in which the calls inserted them. *)
Fixpoint registration_order (cs : list call) (acc : list Z) : list Z :=
  match cs with
  | [] => acc
  | call_add fd _ :: cs' =>
      registration_order cs'
        (if bool_decide (fd ∈ acc) then acc else acc ++ [fd])
  | call_modify fd events :: cs' =>
      registration_order cs'
        (if bool_decide (fd ∈ acc) || (events =? 0) then acc
         else acc ++ [fd])
  | call_remove fd :: cs' =>
      registration_order cs' (filter (fun x => x <> fd) acc)
  | _ :: cs' => registration_order cs' acc
  end.

(** [m] is the highest descriptor of the set [s], or the sentinel when
    the set is empty. *)
Definition highest_of (s : fd_set) (m : Z) : Prop :=
  (forall fd, FD_ISSET fd s = true -> fd <= m)
  /\ (if bool_decide (m = event_invalid_fd)
      then forall fd, FD_ISSET fd s = false
      else FD_ISSET m s = true).

End Operations.
End EventSelect.

(** ** The message header *)

Module Message.

Inductive MessageType :=
| MSG_LOGIN
| MSG_USER_JOIN
| MSG_USER_ATTR
| MSG_USER_LEAVE
| MSG_CHAT
| MSG_LAYER_ACL
| MSG_SNAPSHOT
| MSG_SESSION_TITLE
| MSG_SESSION_CONFIG
| MSG_STREAMPOS
| MSG_CANVAS_RESIZE
| MSG_LAYER_CREATE
| MSG_LAYER_ATTR
| MSG_LAYER_RETITLE
| MSG_LAYER_ORDER
| MSG_LAYER_DELETE
| MSG_PUTIMAGE
| MSG_TOOLCHANGE
| MSG_PEN_MOVE
| MSG_PEN_UP
| MSG_ANNOTATION_CREATE
| MSG_ANNOTATION_RESHAPE
| MSG_ANNOTATION_EDIT
| MSG_ANNOTATION_DELETE
| MSG_UNDOPOINT
| MSG_UNDO.

(** The value of each enumerator. *)
Definition value (ty : MessageType) : Z :=
  match ty with
  | MSG_LOGIN => 0
  | MSG_USER_JOIN => 1
  | MSG_USER_ATTR => 2
  | MSG_USER_LEAVE => 3
  | MSG_CHAT => 4
  | MSG_LAYER_ACL => 5
  | MSG_SNAPSHOT => 6
  | MSG_SESSION_TITLE => 7
  | MSG_SESSION_CONFIG => 8
  | MSG_STREAMPOS => 9
  | MSG_CANVAS_RESIZE => 128
  | MSG_LAYER_CREATE => 129
  | MSG_LAYER_ATTR => 130
  | MSG_LAYER_RETITLE => 131
  | MSG_LAYER_ORDER => 132
  | MSG_LAYER_DELETE => 133
  | MSG_PUTIMAGE => 134
  | MSG_TOOLCHANGE => 135
  | MSG_PEN_MOVE => 136
  | MSG_PEN_UP => 137
  | MSG_ANNOTATION_CREATE => 138
  | MSG_ANNOTATION_RESHAPE => 139
  | MSG_ANNOTATION_EDIT => 140
  | MSG_ANNOTATION_DELETE => 141
  | MSG_UNDOPOINT => 142
  | MSG_UNDO => 143
  end.

(** The virtual members a concrete message class supplies.  The base
    class answers false to [isOpCommand] and [isUndoable]; a message type
    that can be undone overrides the latter. *)
Record vtable := {
  v_isOpCommand : bool;
  v_payloadLength : Z;
  v_isUndoable : bool
}.

Record t := {
  vptr : vtable;
  _type : MessageType;
  _contextid : Z;
  _undone : bool;
  _refcount : Z
}.

(** [uint8_t] *)
Definition uint8 (x : Z) : Z := x mod 256.

(** [Message(MessageType type, uint8_t ctx)], run for an object of the
    concrete class [cls]. *)
Definition new (cls : vtable) (type : MessageType) (ctx : Z) : t :=
  {| vptr := cls; _type := type; _contextid := uint8 ctx;
     _undone := false; _refcount := 0 |}.

Definition type (m : t) : MessageType := _type m.

Definition isCommand (m : t) : bool :=
  value MSG_CANVAS_RESIZE <=? value (_type m).

Definition payloadLength (m : t) : Z := v_payloadLength (vptr m).

Definition length (m : t) : Z := 3 + payloadLength m.

Definition contextId (m : t) : Z := _contextid m.

Definition setContextId (userid : Z) (m : t) : t :=
  {| vptr := vptr m; _type := _type m; _contextid := uint8 userid;
     _undone := _undone m; _refcount := _refcount m |}.

Definition isOpCommand (m : t) : bool := v_isOpCommand (vptr m).

Definition isUndone (m : t) : bool := _undone m.

Definition isUndoable (m : t) : bool := v_isUndoable (vptr m).

Definition setUndone (undone : bool) (m : t) : t :=
  if isUndoable m then
    {| vptr := vptr m; _type := _type m; _contextid := _contextid m;
       _undone := undone; _refcount := _refcount m |}
  else m.

(** The public members that are not [const]. *)
Inductive call :=
| call_setContextId (userid : Z)
| call_setUndone (undone : bool).

Definition step (m : t) (c : call) : t :=
  match c with
  | call_setContextId userid => setContextId userid m
  | call_setUndone undone => setUndone undone m
  end.

Definition run (cs : list call) (m : t) : t := foldl step m cs.

End Message.

(** ** The reference counting pointer *)

Module MessagePtr.

Local Open Scope result_scope.

(** The free store: the live [Message] objects by address, and the
    addresses [delete] has been applied to, latest first.  Address 0 is
    the null pointer. *)
Record store := {
  heap : gmap N Message.t;
  deleted : list N
}.

Record t := { _ptr : N }.

Definition INT_MAX : Z := 2 ^ 31 - 1.

(** [*p], undefined when [p] is null or dangling. *)
Definition deref (p : N) (s : store) : result Message.t :=
  defined (heap s !! p).

Definition set_refcount (n : Z) (m : Message.t) : Message.t :=
  {| Message.vptr := Message.vptr m;
     Message._type := Message._type m;
     Message._contextid := Message._contextid m;
     Message._undone := Message._undone m;
     Message._refcount := n |}.

Definition write (p : N) (m : Message.t) (s : store) : store :=
  {| heap := <[p := m]> (heap s); deleted := deleted s |}.

(** [++_ptr->_refcount]; overflow of an [int] is undefined. *)
Definition increment (p : N) (s : store) : result store :=
  let* m := deref p s in
  if Message._refcount m <? INT_MAX
  then Ok (write p (set_refcount (Message._refcount m + 1) m) s)
  else Fail undefined_behaviour.

(** [delete p] *)
Definition delete_ (p : N) (s : store) : store :=
  {| heap := delete p (heap s); deleted := p :: deleted s |}.

(** [Q_ASSERT(_ptr->_refcount>0); if(--_ptr->_refcount == 0) delete _ptr;] *)
Definition release (p : N) (s : store) : result store :=
  let* m := deref p s in
  let* _ := assert (0 <? Message._refcount m) in
  let m := set_refcount (Message._refcount m - 1) m in
  let s := write p m s in
  if Message._refcount m =? 0 then Ok (delete_ p s) else Ok s.

(** [explicit MessagePtr(Message *msg)] *)
Definition new (msg : N) (s : store) : result (t * store) :=
  let this := {| _ptr := msg |} in
  let* _ := assert (negb (_ptr this =? 0)%N) in
  let* m := deref (_ptr this) s in
  let* _ := assert (Message._refcount m =? 0) in
  let* s := increment (_ptr this) s in
  Ok (this, s).

(** [MessagePtr(const MessagePtr &ptr)] *)
Definition copy (ptr : t) (s : store) : result (t * store) :=
  let this := {| _ptr := _ptr ptr |} in
  let* s := increment (_ptr this) s in
  Ok (this, s).

(** [~MessagePtr()] *)
Definition destroy (this : t) (s : store) : result store :=
  release (_ptr this) s.

(** [operator=(const MessagePtr &msg)] *)
Definition assign (this msg : t) (s : store) : result (t * store) :=
  if negb (_ptr msg =? _ptr this)%N then
    let* s := release (_ptr this) s in
    let this := {| _ptr := _ptr msg |} in
    let* s := increment (_ptr this) s in
    Ok (this, s)
  else Ok (this, s).

(** How a further handle on the envelope comes about: it is copy
    constructed from the handle of index [i], or the handle of index [i]
    is assigned to [target], a handle that was on another envelope. *)
Inductive source :=
| by_copy (i : nat)
| by_assign (i : nat) (target : t).

Fixpoint further (srcs : list source) (hs : list t) (s : store)
  : result (list t * store) :=
  match srcs with
  | [] => Ok (hs, s)
  | by_copy i :: srcs' =>
      let* h := defined (hs !! i) in
      let* (h', s') := copy h s in
      further srcs' (hs ++ [h']) s'
  | by_assign i target :: srcs' =>
      let* h := defined (hs !! i) in
      let* (h', s') := assign target h s in
      if (_ptr target =? _ptr h)%N
      then further srcs' hs s'
      else further srcs' (hs ++ [h']) s'
  end.

(** The handles on the envelope at [msg]: the first adopts the raw
    pointer, the further ones come about as [srcs] tells. *)
Definition handles (msg : N) (srcs : list source) (s : store)
  : result (list t * store) :=
  let* (h, s') := new msg s in
  further srcs [h] s'.

(** The handles of [hs] destroyed one after the other. *)
Fixpoint destroy_all (hs : list t) (s : store) : result store :=
  match hs with
  | [] => Ok s
  | h :: hs' => let* s' := destroy h s in destroy_all hs' s'
  end.

(** How many times [delete] was applied to [p]. *)
Definition deletions (p : N) (s : store) : nat :=
  length (filter (fun q => q = p) (deleted s)).

(** The envelope [m0] at address [p] is live in [s] with reference count
    [n], and has not been deleted since [s0]. *)
Definition shared (p : N) (m0 : Message.t) (n : Z) (s0 s : store) : Prop :=
  heap s !! p = Some (set_refcount n m0)
  /\ deletions p s = deletions p s0.

(** Every handle of the list points to [p]. *)
Definition all_on (p : N) (hs : list t) : Prop :=
  Forall (fun h => _ptr h = p) hs.

(** Since [s0] the envelope at [p] was deleted, once. *)
Definition freed (p : N) (s0 s : store) : Prop :=
  heap s !! p = None
  /\ deletions p s = S (deletions p s0).

End MessagePtr.

(** ** Concrete inputs *)

Module Inputs.
Import EventSelect.

(** The storage an [EventSelect] object is constructed in, with whatever
    it held before. *)
Definition raw : EventSelect.t :=
  {| fds_r := 77; fds_w := 0; fds_e := 0;
     t_fds_r := 5; t_fds_w := 6; t_fds_e := 7;
     read_set := [1]; write_set := []; error_set := [];
     nfds_r := 3; nfds_w := 3; nfds_e := 3;
     nfds := 9; error := 9;
     fd_list := [(1, 1)]; fd_iter := StdMap.at_key 1;
     _timeout := {| tv_sec := 1; tv_usec := 2 |} |}.

(** A [select] that fails with the given [errno]. *)
Definition select_fails (errno : Z) : select_t :=
  fun _ r w e tv =>
    {| sel_ret := -1; sel_r := r; sel_w := w; sel_e := e;
       sel_timeout := tv; sel_errno := errno |}.

(** A [select] that finds every descriptor ready for every event it is
    watched for. *)
Definition select_all_ready : select_t :=
  fun _ r w e tv =>
    {| sel_ret := @fd_count linux r + @fd_count linux w + @fd_count linux e;
       sel_r := r; sel_w := w; sel_e := e;
       sel_timeout := tv; sel_errno := 0 |}.

(** A [select] that finds every descriptor watched for reading ready for
    reading, and nothing else. *)
Definition select_read_ready : select_t :=
  fun _ r w e tv =>
    {| sel_ret := @fd_count linux r;
       sel_r := r; sel_w := 0; sel_e := 0;
       sel_timeout := tv; sel_errno := 0 |}.

(** A message class that can be undone and one that cannot. *)
Definition undoable_class : Message.vtable :=
  {| Message.v_isOpCommand := false;
     Message.v_payloadLength := 4;
     Message.v_isUndoable := true |}.

Definition plain_class : Message.vtable :=
  {| Message.v_isOpCommand := false;
     Message.v_payloadLength := 2;
     Message.v_isUndoable := false |}.

(** A free store with one fresh envelope at address 1 and an envelope
    somebody else holds at address 2. *)
Definition two_envelopes : MessagePtr.store :=
  {| MessagePtr.heap :=
       <[1%N := Message.new plain_class Message.MSG_CHAT 1]>
         (<[2%N := MessagePtr.set_refcount 1
                     (Message.new undoable_class Message.MSG_PEN_MOVE 2)]> ∅);
     MessagePtr.deleted := [] |}.

End Inputs.

(** ** Further vocabulary *)

Module SelectCalls.
Import EventSelect.

(** The calls that set a multiplexer up: they register and time, and
    leave the iteration alone. *)
Definition is_setup (c : call) : bool :=
  match c with
  | call_add _ _ | call_modify _ _ | call_timeout _ => true
  | _ => false
  end.

End SelectCalls.

Module MessageCalls.
Import Message.

(** The arguments of the calls of each setter in a sequence of calls, in
    the order of the calls. *)
Definition undone_requests (cs : list call) : list bool :=
  omap (fun c => match c with
                 | call_setUndone undone => Some undone
                 | _ => None
                 end) cs.

Definition context_requests (cs : list call) : list Z :=
  omap (fun c => match c with
                 | call_setContextId userid => Some userid
                 | _ => None
                 end) cs.

End MessageCalls.

Module HandleProgram.
Import MessagePtr.
Local Open Scope result_scope.

(** What a program does with the handles it holds on one envelope: it
    copy constructs a further handle from the one of index [i], or lets
    the one of index [i] go out of scope. *)
Inductive op :=
| op_copy (i : nat)
| op_destroy (i : nat).

Definition step (live : list t * store) (o : op) : result (list t * store) :=
  let '(hs, s) := live in
  match o with
  | op_copy i =>
      let* h := defined (hs !! i) in
      let* (h', s') := copy h s in
      Ok (hs ++ [h'], s')
  | op_destroy i =>
      let* h := defined (hs !! i) in
      let* s' := destroy h s in
      Ok (delete i hs, s')
  end.

Fixpoint run (os : list op) (live : list t * store)
  : result (list t * store) :=
  match os with
  | [] => Ok live
  | o :: os' => let* live' := step live o in run os' live'
  end.

End HandleProgram.

(** ** What holds of every [EventSelect] object *)

Module SelectInvariant.
Import EventSelect.

Section Invariant.
Context `{Platform}.

(** The highest element of a [std::set], or the sentinel. *)
Definition top (l : list Z) : Z := default event_invalid_fd (StdSet.back l).

(** The bookkeeping of one direction: [x_set] is ascending and holds the
    descriptors whose bit is set in [fds_x], all of them within the range
    of an [fd_set], and [nfds_x] is its highest element. *)
Record direction_ok (d : direction) (st : t) : Prop := {
  set_ascending : StronglySorted Z.lt (x_set d st);
  set_bits : forall fd, fd ∈ x_set d st <-> FD_ISSET fd (fds d st) = true;
  set_range : forall fd, fd ∈ x_set d st -> 0 <= fd < FD_SETSIZE;
  set_top : nfds_x d st = top (x_set d st)
}.

Definition iterator_ok (it : StdMap.iterator) (m : list (Z * Z)) : Prop :=
  match it with
  | StdMap.at_key k => k ∈ StdMap.keys m
  | _ => True
  end.

Record ok (st : t) : Prop := {
  ok_direction : forall d, direction_ok d st;
  ok_registered :
    forall d fd, fd ∈ x_set d st -> fd ∈ StdMap.keys (fd_list st);
  ok_ascending : StronglySorted Z.lt (StdMap.keys (fd_list st));
  ok_range : forall fd, fd ∈ StdMap.keys (fd_list st) -> 0 <= fd < FD_SETSIZE;
  ok_events : forall fd events, (fd, events) ∈ fd_list st -> events <> 0;
  ok_iterator : iterator_ok (fd_iter st) (fd_list st)
}.

(** The members a block of code for direction [d] leaves alone. *)
Record frame (d : direction) (st st' : t) : Prop := {
  frame_fds : forall d', d' <> d -> fds d' st' = fds d' st;
  frame_x_set : forall d', d' <> d -> x_set d' st' = x_set d' st;
  frame_nfds_x : forall d', d' <> d -> nfds_x d' st' = nfds_x d' st;
  frame_t_fds : forall d', t_fds d' st' = t_fds d' st;
  frame_fd_list : fd_list st' = fd_list st;
  frame_fd_iter : fd_iter st' = fd_iter st
}.

End Invariant.
End SelectInvariant.

(** * Properties *)

(** ** [timeout] *)

Section Timeout.
Context `{Platform}.
Import EventSelect.

Lemma uint_small x : 0 <= x < 4294967296 -> uint x = x.
Proof. intros Hx. unfold uint. apply Z.mod_small. exact Hx. Qed.

(** X2: Away from exactly one second the two fields are the quotient and the
    remainder of the division by 1000, the latter in microseconds. *)
Lemma timeout_decomposes st m :
  0 <= m < 2 ^ 32 -> m <> 1000 ->
  tv_sec (_timeout (timeout st m)) = m / 1000
  /\ tv_usec (_timeout (timeout st m)) = (m mod 1000) * 1000
  /\ 0 <= tv_usec (_timeout (timeout st m)) < 1000000.
Proof.
  intros Hm Hne. unfold timeout. change (2 ^ 32) with 4294967296 in Hm.
  pose proof (Z.mod_pos_bound m 1000 ltac:(lia)) as Hr.
  pose proof (Z.div_mod m 1000 ltac:(lia)) as Hd.
  destruct (Z.ltb_spec 1000 m) as [Hgt|Hle]; cbn.
  - assert (Hrem : m - m / 1000 * 1000 = m mod 1000) by lia.
    rewrite Hrem, (uint_small (m mod 1000)), uint_small by lia. lia.
  - assert (m / 1000 = 0) as Hq by (apply Z.div_small; lia).
    assert (m mod 1000 = m) as Hmod by (apply Z.mod_small; lia).
    rewrite Hq, Hmod, uint_small by lia. lia.
Qed.

(** X1: Whatever the argument, the two fields add up to it. *)
Lemma timeout_total st m :
  0 <= m < 2 ^ 32 ->
  tv_sec (_timeout (timeout st m)) * 1000000
  + tv_usec (_timeout (timeout st m)) = m * 1000.
Proof.
  intros Hm. unfold timeout. change (2 ^ 32) with 4294967296 in Hm.
  pose proof (Z.mod_pos_bound m 1000 ltac:(lia)) as Hr.
  pose proof (Z.div_mod m 1000 ltac:(lia)) as Hd.
  destruct (Z.ltb_spec 1000 m) as [Hgt|Hle]; cbn.
  - assert (Hrem : m - m / 1000 * 1000 = m mod 1000) by lia.
    rewrite Hrem, (uint_small (m mod 1000)), uint_small by lia. lia.
  - rewrite uint_small by lia. lia.
Qed.

(** [timeout] touches no member but [_timeout]. *)
Lemma timeout_frame st m :
  set_timeout (_timeout st) (timeout st m) = st.
Proof. unfold timeout. destruct st; destruct (1000 <? m); reflexivity. Qed.

(** C9, at the argument the code gets wrong: [timeout(1000)] stores zero
    seconds and a microseconds field of a full 1000000, where 1000 ms
    hold one whole second and no sub-second remainder. *)
Theorem timeout_one_second st :
  _timeout (timeout st 1000) = {| tv_sec := 0; tv_usec := 1000000 |}
  /\ tv_sec (_timeout (timeout st 1000)) <> 1000 / 1000
  /\ ~ tv_usec (_timeout (timeout st 1000)) < 1000000.
Proof.
  split; [reflexivity|]. split; vm_compute; [discriminate|].
  intros Hlt; discriminate Hlt.
Qed.

End Timeout.

(** ** [wait] when [select] fails *)

Section WaitFailure.
Context `{Platform}.
Import EventSelect.

Lemma wait_calls_select select st :
  exists st0,
    wait select st =
      (let res := select_call select st in
       let st := st0 in
       if sel_ret res =? -1 then
         let st := set_error (sel_errno res) st in
         if sel_errno res =? EINTR then Ok (0, set_nfds 0 st)
         else
           (let* _ := assert (negb (sel_errno res =? EBADF)) in
            let* _ := assert (negb (sel_errno res =? ENOTSOCK)) in
            let* _ := assert (negb (sel_errno res =? EINVAL)) in
            let* _ := assert (negb (sel_errno res =? EFAULT)) in
            Ok (sel_ret res, st))%result
       else if sel_ret res =? 0 then Ok (sel_ret res, st)
       else Ok (sel_ret res, set_fd_iter (StdMap.begin (fd_list st)) st))
    /\ nfds st0 = sel_ret (select_call select st)
    /\ fd_list st0 = fd_list st.
Proof. eexists. split; [reflexivity|]. split; reflexivity. Qed.

(** C5: when [select] returns -1, [wait] returns 0 if [errno] is [EINTR];
    for any other [errno] it never returns 0: it returns -1, with the
    error code recorded in [error], unless the code is one of the four
    that [wait] asserts cannot happen, in which case the assertion
    fails. *)
Theorem wait_select_failure select st :
  sel_ret (select_call select st) = -1 ->
  let errno := sel_errno (select_call select st) in
  (errno = EINTR ->
   exists st', wait select st = Ok (0, st')
               /\ nfds st' = 0 /\ error st' = EINTR)
  /\ (errno <> EINTR -> errno ∉ asserted_errors ->
      exists st', wait select st = Ok (-1, st')
                  /\ nfds st' = -1 /\ error st' = errno)
  /\ (errno <> EINTR -> errno ∈ asserted_errors ->
      wait select st = Fail assertion_failed).
Proof.
  intros Hret errno.
  destruct (wait_calls_select select st) as (st0 & -> & Hn & _).
  cbn zeta. rewrite Hret. cbn [Z.eqb Pos.eqb]. fold errno.
  unfold asserted_errors. rewrite !not_elem_of_cons, !elem_of_cons.
  repeat split.
  - intros ->. rewrite Z.eqb_refl. eauto.
  - intros Hne (Hb & Hs & Hi & Hf & _).
    apply Z.eqb_neq in Hne, Hb, Hs, Hi, Hf.
    rewrite Hne, Hb, Hs, Hi, Hf. cbn.
    eexists. split; [reflexivity|]. split; [cbn; congruence|reflexivity].
  - intros Hne Hin. apply Z.eqb_neq in Hne. rewrite Hne.
    destruct (Z.eqb_spec errno EBADF) as [|?]; [reflexivity|].
    destruct (Z.eqb_spec errno ENOTSOCK) as [|?]; [reflexivity|].
    destruct (Z.eqb_spec errno EINVAL) as [|?]; [reflexivity|].
    destruct (Z.eqb_spec errno EFAULT) as [|?]; [reflexivity|].
    exfalso. rewrite elem_of_nil in Hin. intuition congruence.
Qed.

End WaitFailure.

(** On a fresh multiplexer: [select] is interrupted ([EINTR] is 4), runs
    out of memory ([ENOMEM] is 12), is handed a bad descriptor ([EBADF]
    is 9). *)
Lemma wait_select_failure_witness :
  (exists st',
     @EventSelect.wait linux (Inputs.select_fails 4)
       (@EventSelect.new linux Inputs.raw) = Ok (0, st')
     /\ EventSelect.nfds st' = 0 /\ EventSelect.error st' = 4)
  /\ (exists st',
        @EventSelect.wait linux (Inputs.select_fails 12)
          (@EventSelect.new linux Inputs.raw) = Ok (-1, st')
        /\ EventSelect.nfds st' = -1 /\ EventSelect.error st' = 12)
  /\ @EventSelect.wait linux (Inputs.select_fails 9)
       (@EventSelect.new linux Inputs.raw) = Fail assertion_failed.
Proof.
  split; [|split].
  - apply (proj1 (@wait_select_failure linux (Inputs.select_fails 4)
                    (@EventSelect.new linux Inputs.raw) eq_refl)).
    reflexivity.
  - apply (proj1 (proj2 (@wait_select_failure linux (Inputs.select_fails 12)
                           (@EventSelect.new linux Inputs.raw) eq_refl))).
    + discriminate.
    + intros Hin. apply (bool_decide_pack _) in Hin. vm_compute in Hin.
      exact Hin.
  - apply (proj2 (proj2 (@wait_select_failure linux (Inputs.select_fails 9)
                           (@EventSelect.new linux Inputs.raw) eq_refl))).
    + discriminate.
    + refine (bool_decide_unpack _ _). vm_compute. exact I.
Defined.

(** ** The message header *)

Section MessageHeader.
Import Message.

Lemma step_frame m c :
  vptr (step m c) = vptr m
  /\ _type (step m c) = _type m
  /\ _refcount (step m c) = _refcount m.
Proof.
  destruct c as [userid|undone]; cbn; [auto|].
  unfold setUndone. destruct (isUndoable m); auto.
Qed.

Lemma run_cons c cs m : run (c :: cs) m = run cs (step m c).
Proof. reflexivity. Qed.

Lemma run_frame cs m :
  vptr (run cs m) = vptr m
  /\ _type (run cs m) = _type m
  /\ _refcount (run cs m) = _refcount m.
Proof.
  revert m. induction cs as [|c cs IH]; intros m; [auto|].
  rewrite run_cons. destruct (IH (step m c)) as (-> & -> & ->).
  apply step_frame.
Qed.

(** A message of a class that cannot be undone is never marked undone. *)
Lemma run_not_undoable cls ty ctx cs :
  v_isUndoable cls = false ->
  isUndone (run cs (new cls ty ctx)) = false.
Proof.
  intros Hcls.
  assert (Hgen : forall m, vptr m = cls -> isUndone m = false ->
                           isUndone (run cs m) = false).
  { induction cs as [|c cs IH]; intros m Hv Hu; [exact Hu|].
    rewrite run_cons. apply IH.
    - rewrite <- Hv. apply step_frame.
    - destruct c as [userid|undone]; cbn; [exact Hu|].
      unfold setUndone, isUndoable. rewrite Hv, Hcls. exact Hu. }
  apply Hgen; reflexivity.
Qed.

(** C7: on a message whose class is not undoable, [setUndone(true)]
    leaves [isUndone()] false; on a message whose class is undoable,
    [setUndone] with the negation of [isUndone()] flips the flag, and
    doing so twice gives back the message as it was. *)
Theorem setUndone_toggle cls ty ctx cs :
  let m := run cs (new cls ty ctx) in
  (v_isUndoable cls = false -> isUndone (setUndone true m) = false)
  /\ (v_isUndoable cls = true ->
      let m1 := setUndone (negb (isUndone m)) m in
      let m2 := setUndone (negb (isUndone m1)) m1 in
      isUndone m1 = negb (isUndone m)
      /\ isUndone m2 = isUndone m
      /\ m2 = m).
Proof.
  intros m.
  assert (Hv : vptr m = cls) by apply (run_frame cs (new cls ty ctx)).
  split; intros Hcls.
  - unfold setUndone, isUndoable. rewrite Hv, Hcls.
    apply run_not_undoable, Hcls.
  - cbn zeta. unfold setUndone, isUndoable. rewrite Hv, Hcls. cbn.
    rewrite Hcls. cbn. rewrite negb_involutive.
    repeat split. rewrite <- Hv. clearbody m. destruct m; reflexivity.
Qed.

(** C8, as amended: no public member changes the type tag, the class or
    the reference count; the context id is whatever the last
    [setContextId] stored, [setUndone] leaves it alone, and
    [setContextId] leaves the undone flag alone. *)
Theorem header_frame :
  (forall cs m, type (run cs m) = type m
                /\ vptr (run cs m) = vptr m
                /\ _refcount (run cs m) = _refcount m)
  /\ (forall undone m, contextId (setUndone undone m) = contextId m)
  /\ (forall userid m,
        contextId (setContextId userid m) = uint8 userid
        /\ isUndone (setContextId userid m) = isUndone m).
Proof.
  split; [|split].
  - intros cs m. destruct (run_frame cs m) as (Hv & Ht & Hr). auto.
  - intros undone m. unfold setUndone. destruct (isUndoable m); reflexivity.
  - intros userid m. split; reflexivity.
Qed.

End MessageHeader.

(** A chat message, which cannot be undone, and a pen move, which can,
    each after some calls. *)
Lemma setUndone_toggle_witness :
  Message.isUndone
    (Message.setUndone true
       (Message.run [Message.call_setUndone true; Message.call_setContextId 3]
          (Message.new Inputs.plain_class Message.MSG_CHAT 1))) = false
  /\ (let m :=
        Message.run [Message.call_setUndone true]
          (Message.new Inputs.undoable_class Message.MSG_PEN_MOVE 2) in
      let m1 := Message.setUndone (negb (Message.isUndone m)) m in
      let m2 := Message.setUndone (negb (Message.isUndone m1)) m1 in
      Message.isUndone m = true
      /\ Message.isUndone m1 = negb (Message.isUndone m)
      /\ Message.isUndone m2 = Message.isUndone m
      /\ m2 = m).
Proof.
  split.
  - apply (proj1 (setUndone_toggle Inputs.plain_class Message.MSG_CHAT 1
                    [Message.call_setUndone true;
                     Message.call_setContextId 3])).
    reflexivity.
  - split; [reflexivity|].
    apply (proj2 (setUndone_toggle Inputs.undoable_class
                    Message.MSG_PEN_MOVE 2 [Message.call_setUndone true])).
    reflexivity.
Defined.

(** C8 as stated fails: the public [setContextId] changes the context id
    of a constructed message. *)
Lemma setContextId_changes_context :
  let m := Message.new Inputs.plain_class Message.MSG_CHAT 1 in
  Message.contextId (Message.run [Message.call_setContextId 2] m)
  <> Message.contextId m.
Proof. vm_compute. discriminate. Qed.

(** ** The reference counting pointer *)

Section ReferenceCount.
Import MessagePtr.

Lemma set_refcount_same m : set_refcount (Message._refcount m) m = m.
Proof. destruct m; reflexivity. Qed.

Lemma shared_refl p m0 s :
  heap s !! p = Some m0 -> shared p m0 (Message._refcount m0) s s.
Proof.
  intros Hp. unfold shared. rewrite set_refcount_same. auto.
Qed.

Lemma deletions_delete p q s :
  deletions p (delete_ q s)
  = if decide (q = p) then S (deletions p s) else deletions p s.
Proof.
  unfold deletions, delete_. cbn [deleted]. rewrite filter_cons.
  destruct (decide (q = p)); reflexivity.
Qed.

Lemma increment_shared p m0 n s0 s s' :
  shared p m0 n s0 s -> increment p s = Ok s' ->
  n < INT_MAX /\ shared p m0 (n + 1) s0 s'.
Proof.
  intros (Hp & Hd). unfold increment, deref. rewrite Hp. cbn.
  destruct (Z.ltb_spec n INT_MAX) as [Hlt|Hge]; [|discriminate].
  intros [= <-]. split; [exact Hlt|]. unfold shared, write. cbn.
  rewrite lookup_insert_eq. split; [reflexivity|exact Hd].
Qed.

Lemma release_shared p m0 n s0 s :
  shared p m0 n s0 s -> 1 < n ->
  exists s', release p s = Ok s' /\ shared p m0 (n - 1) s0 s'.
Proof.
  intros (Hp & Hd) Hn. unfold release, deref. rewrite Hp. cbn.
  destruct (Z.ltb_spec 0 n) as [_|]; [cbn|lia].
  destruct (Z.eqb_spec (n - 1) 0) as [|_]; [lia|].
  eexists. split; [reflexivity|]. unfold shared, write. cbn.
  rewrite lookup_insert_eq. split; [reflexivity|exact Hd].
Qed.

Lemma release_last p m0 s0 s :
  shared p m0 1 s0 s ->
  exists s', release p s = Ok s' /\ freed p s0 s'.
Proof.
  intros (Hp & Hd). unfold release, deref. rewrite Hp. cbn.
  eexists. split; [reflexivity|]. unfold freed.
  rewrite deletions_delete, decide_True by reflexivity. cbn.
  rewrite lookup_delete_eq. split; [reflexivity|]. f_equal. exact Hd.
Qed.

(** Releasing another envelope does not touch this one. *)
Lemma release_other p q m0 n s0 s s' :
  q <> p -> release q s = Ok s' -> shared p m0 n s0 s ->
  shared p m0 n s0 s'.
Proof.
  intros Hne Hrel (Hp & Hd). unfold release, deref in Hrel.
  destruct (heap s !! q) as [m|]; [cbn in Hrel|discriminate].
  destruct (0 <? Message._refcount m); [cbn in Hrel|discriminate].
  destruct (Message._refcount m - 1 =? 0); injection Hrel as <-.
  - unfold shared. rewrite deletions_delete, decide_False by exact Hne.
    cbn. rewrite lookup_delete_ne, lookup_insert_ne by exact Hne. auto.
  - unfold shared, write. cbn. rewrite lookup_insert_ne by exact Hne. auto.
Qed.

Lemma all_on_snoc p hs h : all_on p hs -> _ptr h = p -> all_on p (hs ++ [h]).
Proof.
  intros Hall Hh. unfold all_on. apply Forall_app. split; [exact Hall|].
  constructor; [exact Hh|constructor].
Qed.

Lemma shared_snoc p m0 s0 s (hs : list t) (h : t) :
  shared p m0 (Z.of_nat (length hs) + 1) s0 s ->
  shared p m0 (Z.of_nat (length (hs ++ [h]))) s0 s.
Proof.
  rewrite length_app. cbn.
  replace (Z.of_nat (length hs + 1)) with (Z.of_nat (length hs) + 1) by lia.
  auto.
Qed.

(** However the further handles come about, they are all on the
    envelope and the count is their number. *)
Lemma further_shared p m0 s0 srcs :
  forall hs s hs' s',
    further srcs hs s = Ok (hs', s') ->
    all_on p hs -> shared p m0 (Z.of_nat (length hs)) s0 s ->
    Z.of_nat (length hs) <= INT_MAX ->
    all_on p hs'
    /\ (length hs <= length hs')%nat
    /\ shared p m0 (Z.of_nat (length hs')) s0 s'
    /\ Z.of_nat (length hs') <= INT_MAX.
Proof.
  induction srcs as [|src srcs IH]; intros hs s hs' s' Hrun Hall Hsh Hmax.
  - cbn in Hrun. injection Hrun as <- <-. auto.
  - assert (Hat : forall i h, hs !! i = Some h -> _ptr h = p).
    { intros i h Hi. unfold all_on in Hall. rewrite Forall_forall in Hall.
      apply Hall. eapply list_elem_of_lookup_2, Hi. }
    destruct src as [i|i target]; cbn in Hrun;
      (destruct (hs !! i) as [h|] eqn:Hi; [cbn in Hrun|discriminate]);
      pose proof (Hat _ _ Hi) as Hh.
    + unfold copy in Hrun. cbn in Hrun. rewrite Hh in Hrun.
      destruct (increment p s) as [s1|f] eqn:Hinc;
        [cbn in Hrun|discriminate].
      destruct (increment_shared _ _ _ _ _ _ Hsh Hinc) as (Hlt & Hsh1).
      apply IH in Hrun.
      * destruct Hrun as (Hall' & Hlen & Hsh' & Hmax').
        rewrite length_app in Hlen. cbn in Hlen.
        split; [exact Hall'|]. split; [lia|]. split; assumption.
      * apply all_on_snoc; auto.
      * apply shared_snoc, Hsh1.
      * rewrite length_app. cbn. lia.
    + unfold assign in Hrun. rewrite Hh in Hrun.
      rewrite (N.eqb_sym (_ptr target) p) in Hrun.
      destruct (N.eqb_spec p (_ptr target)) as [Heq|Hne];
        cbn [negb bind] in Hrun.
      * apply (IH _ _ _ _ Hrun Hall Hsh Hmax).
      * destruct (release (_ptr target) s) as [s1|f] eqn:Hrel;
          [cbn in Hrun|discriminate].
        pose proof (release_other p (_ptr target) _ _ _ _ _
                      (not_eq_sym Hne) Hrel Hsh) as Hsh1.
        destruct (increment p s1) as [s2|f] eqn:Hinc;
          [cbn in Hrun|discriminate].
        destruct (increment_shared _ _ _ _ _ _ Hsh1 Hinc) as (Hlt & Hsh2).
        apply IH in Hrun.
        -- destruct Hrun as (Hall' & Hlen & Hsh' & Hmax').
           rewrite length_app in Hlen. cbn in Hlen.
           split; [exact Hall'|]. split; [lia|]. split; assumption.
        -- apply all_on_snoc; auto.
        -- apply shared_snoc, Hsh2.
        -- rewrite length_app. cbn. lia.
Qed.

Lemma handles_shared msg srcs s hs s1 :
  handles msg srcs s = Ok (hs, s1) ->
  exists m0,
    heap s !! msg = Some m0 /\ Message._refcount m0 = 0 /\ msg <> 0%N
    /\ all_on msg hs
    /\ (1 <= length hs)%nat
    /\ shared msg m0 (Z.of_nat (length hs)) s s1
    /\ Z.of_nat (length hs) <= INT_MAX.
Proof.
  unfold handles, new. cbn.
  destruct (N.eqb_spec msg 0) as [|Hnull]; [discriminate|]. cbn.
  unfold deref. destruct (heap s !! msg) as [m0|] eqn:Hm0; [cbn|discriminate].
  destruct (Z.eqb_spec (Message._refcount m0) 0) as [Hzero|];
    [cbn|discriminate].
  destruct (increment msg s) as [s'|f] eqn:Hinc; [cbn|discriminate].
  intros Hrun. exists m0.
  pose proof (shared_refl _ _ _ Hm0) as Hsh. rewrite Hzero in Hsh.
  destruct (increment_shared _ _ _ _ _ _ Hsh Hinc) as (_ & Hsh1).
  apply (further_shared msg m0 s) in Hrun.
  - destruct Hrun as (Hall & Hlen & Hsh' & Hmax). cbn in Hlen. auto 10.
  - constructor; [reflexivity|constructor].
  - exact Hsh1.
  - cbn. unfold INT_MAX. lia.
Qed.

(** Destroying fewer handles than the count leaves the envelope live. *)
Lemma destroy_some p m0 s0 hs :
  forall n s,
    all_on p hs -> shared p m0 n s0 s -> Z.of_nat (length hs) < n ->
    exists s', destroy_all hs s = Ok s'
               /\ shared p m0 (n - Z.of_nat (length hs)) s0 s'.
Proof.
  induction hs as [|h hs IH]; intros n s Hall Hsh Hlt.
  - exists s. split; [reflexivity|]. cbn. rewrite Z.sub_0_r. exact Hsh.
  - apply Forall_cons in Hall as (Hh & Hall). cbn in Hlt.
    destruct (release_shared _ _ _ _ _ Hsh ltac:(lia)) as (s1 & Hrel & Hsh1).
    destruct (IH (n - 1) s1 Hall Hsh1 ltac:(lia)) as (s' & Hrun & Hsh').
    exists s'. cbn. unfold destroy. rewrite Hh, Hrel. cbn.
    split; [exact Hrun|].
    replace (n - Z.of_nat (S (length hs)))
      with (n - 1 - Z.of_nat (length hs)) by lia.
    exact Hsh'.
Qed.

(** Destroying as many handles as the count deletes the envelope, at the
    last destruction. *)
Lemma destroy_every p m0 s0 hs s :
  all_on p hs -> hs <> [] ->
  shared p m0 (Z.of_nat (length hs)) s0 s ->
  exists s', destroy_all hs s = Ok s' /\ freed p s0 s'.
Proof.
  intros Hall Hne Hsh.
  destruct (exists_last Hne) as (front & [h Hlast]). subst hs.
  apply Forall_app in Hall as (Hfront & Hh).
  apply Forall_cons in Hh as (Hh & _).
  rewrite length_app in Hsh. cbn in Hsh.
  destruct (destroy_some p m0 s0 front _ s Hfront Hsh ltac:(lia))
    as (s1 & Hrun & Hsh1).
  replace (Z.of_nat (length front + 1) - Z.of_nat (length front)) with 1
    in Hsh1 by lia.
  destruct (release_last _ _ _ _ Hsh1) as (s' & Hrel & Hfreed).
  exists s'. split; [|exact Hfreed].
  clear -Hrun Hrel Hh. revert s Hrun.
  induction front as [|g front IH]; intros s Hrun; cbn in *.
  - injection Hrun as ->. unfold destroy. rewrite Hh, Hrel. reflexivity.
  - destruct (destroy g s) as [s2|f]; [cbn in *|discriminate]. auto.
Qed.

(** C1: when [N] handles have been constructed on the envelope at [msg]
    (the first by adoption, which needs the count to be zero, the others
    by copy or assignment), the count is [N]; destroying any [k] of them,
    in any order, succeeds; while [k < N] the envelope is live with count
    [N - k] and has not been deleted; at [k = N] the envelope is gone and
    [delete] has been applied to it exactly once. *)
Theorem handles_destroyed_once msg srcs s hs s1 :
  handles msg srcs s = Ok (hs, s1) ->
  exists m0,
    heap s !! msg = Some m0 /\ Message._refcount m0 = 0
    /\ (1 <= length hs)%nat
    /\ forall hs' k,
        hs' ≡ₚ hs -> (k <= length hs)%nat ->
        exists s2,
          destroy_all (take k hs') s1 = Ok s2
          /\ if decide (k < length hs)%nat
             then heap s2 !! msg
                  = Some (set_refcount (Z.of_nat (length hs) - Z.of_nat k) m0)
                  /\ deletions msg s2 = deletions msg s
             else heap s2 !! msg = None
                  /\ deletions msg s2 = S (deletions msg s).
Proof.
  intros Hrun.
  destruct (handles_shared _ _ _ _ _ Hrun)
    as (m0 & Hm0 & Hzero & Hnull & Hall & Hlen & Hsh & Hmax).
  exists m0. split; [exact Hm0|]. split; [exact Hzero|].
  split; [exact Hlen|]. intros hs' k Hperm Hk.
  assert (Hall' : all_on msg (take k hs')).
  { unfold all_on in *. apply Forall_take. rewrite Hperm. exact Hall. }
  assert (Hlen' : length (take k hs') = k).
  { rewrite length_take, (Permutation_length Hperm). lia. }
  destruct (decide (k < length hs)%nat) as [Hlt|Hge].
  - destruct (destroy_some msg m0 s (take k hs') _ s1 Hall' Hsh
                ltac:(lia)) as (s2 & Hd & Hsh2).
    exists s2. split; [exact Hd|]. rewrite Hlen' in Hsh2. exact Hsh2.
  - apply (destroy_every msg m0 s (take k hs') s1 Hall').
    + intros Hnil. rewrite Hnil in Hlen'. cbn in Hlen'. lia.
    + rewrite Hlen'. replace k with (length hs) by lia. exact Hsh.
Qed.

(** Adoption of an envelope that is already referenced trips the
    assertion of the constructor. *)
Lemma new_needs_zero_count msg s m :
  msg <> 0%N -> heap s !! msg = Some m -> Message._refcount m <> 0 ->
  new msg s = Fail assertion_failed.
Proof.
  intros Hnull Hm Hrc. unfold new, deref. cbn.
  destruct (N.eqb_spec msg 0) as [|_]; [contradiction|]. cbn.
  rewrite Hm. cbn.
  destruct (Z.eqb_spec (Message._refcount m) 0) as [|_]; [contradiction|].
  reflexivity.
Qed.

End ReferenceCount.

(** Three handles on the envelope at address 1: one adopts it, one is a
    copy, one was the only handle on the envelope at address 2 and is
    assigned to. *)
Lemma handles_destroyed_once_witness :
  exists hs s1,
    MessagePtr.handles 1
      [MessagePtr.by_copy 0;
       MessagePtr.by_assign 1 {| MessagePtr._ptr := 2 |}]
      Inputs.two_envelopes = Ok (hs, s1)
    /\ length hs = 3%nat
    /\ MessagePtr.deleted s1 = [2%N]
    /\ exists m0,
        MessagePtr.heap Inputs.two_envelopes !! 1%N = Some m0
        /\ Message._refcount m0 = 0
        /\ (1 <= length hs)%nat
        /\ forall hs' k,
            hs' ≡ₚ hs -> (k <= length hs)%nat ->
            exists s2,
              MessagePtr.destroy_all (take k hs') s1 = Ok s2
              /\ if decide (k < length hs)%nat
                 then MessagePtr.heap s2 !! 1%N
                      = Some (MessagePtr.set_refcount
                                (Z.of_nat (length hs) - Z.of_nat k) m0)
                      /\ MessagePtr.deletions 1 s2
                         = MessagePtr.deletions 1 Inputs.two_envelopes
                 else MessagePtr.heap s2 !! 1%N = None
                      /\ MessagePtr.deletions 1 s2
                         = S (MessagePtr.deletions 1 Inputs.two_envelopes).
Proof.
  eexists _, _. split; [vm_compute; reflexivity|].
  split; [reflexivity|]. split; [reflexivity|].
  apply (handles_destroyed_once 1
           [MessagePtr.by_copy 0;
            MessagePtr.by_assign 1 {| MessagePtr._ptr := 2 |}]
           Inputs.two_envelopes).
  vm_compute. reflexivity.
Defined.

(** ** The ordered containers *)

Section Containers.

Lemma set_insert_elem x y l : y ∈ StdSet.insert x l <-> y = x \/ y ∈ l.
Proof.
  induction l as [|z l IH]; cbn.
  - rewrite list_elem_of_singleton, elem_of_nil. tauto.
  - destruct (Z.ltb_spec x z) as [Hlt|Hge].
    + rewrite !elem_of_cons. tauto.
    + destruct (Z.eqb_spec x z) as [->|Hne].
      * rewrite !elem_of_cons. tauto.
      * rewrite !elem_of_cons, IH. tauto.
Qed.

Lemma set_insert_ascending x l :
  StronglySorted Z.lt l -> StronglySorted Z.lt (StdSet.insert x l).
Proof.
  induction l as [|z l IH]; cbn; intros Hs.
  - repeat constructor.
  - apply StronglySorted_inv in Hs as (Hl & Hz).
    destruct (Z.ltb_spec x z) as [Hlt|Hge].
    + constructor; [constructor; assumption|].
      constructor; [exact Hlt|].
      eapply Forall_impl; [exact Hz|]. intros; cbn in *; lia.
    + destruct (Z.eqb_spec x z) as [->|Hne].
      * constructor; assumption.
      * constructor; [auto|]. rewrite Forall_forall. intros y Hy.
        apply set_insert_elem in Hy as [->|Hy]; [lia|].
        rewrite Forall_forall in Hz. auto.
Qed.

Lemma filter_ascending (P : Z -> Prop) `{forall x, Decision (P x)} l :
  StronglySorted Z.lt l -> StronglySorted Z.lt (filter P l).
Proof.
  induction 1 as [|z l Hl IH Hz]; [constructor|].
  rewrite filter_cons. destruct (decide (P z)); [|exact IH].
  constructor; [exact IH|]. rewrite Forall_forall in *.
  intros y Hy. apply list_elem_of_filter in Hy as (_ & Hy). auto.
Qed.

Lemma set_erase_elem x y l : y ∈ StdSet.erase x l <-> y ∈ l /\ y <> x.
Proof. unfold StdSet.erase. rewrite list_elem_of_filter. tauto. Qed.

Lemma set_erase_ascending x l :
  StronglySorted Z.lt l -> StronglySorted Z.lt (StdSet.erase x l).
Proof. apply filter_ascending. Qed.

Lemma set_erase_absent x l : x ∉ l -> StdSet.erase x l = l.
Proof.
  intros Hx. unfold StdSet.erase. induction l as [|z l IH]; [reflexivity|].
  rewrite not_elem_of_cons in Hx. destruct Hx as (Hne & Hx).
  rewrite filter_cons_True by congruence. f_equal. auto.
Qed.

(** The last element of an ascending list is its greatest. *)
Lemma back_greatest l m :
  StronglySorted Z.lt l ->
  StdSet.back l = Some m <-> m ∈ l /\ forall y, y ∈ l -> y <= m.
Proof.
  intros Hs. unfold StdSet.back. split.
  - intros Hlast. split; [apply last_Some_elem_of, Hlast|].
    apply last_Some in Hlast as (front & ->). intros y Hy.
    apply elem_of_app in Hy as [Hy|Hy].
    + apply Z.lt_le_incl.
      eapply (StronglySorted_app_1_elem_of _ _ _ _ _ Hs Hy).
      apply list_elem_of_singleton. reflexivity.
    + apply list_elem_of_singleton in Hy. lia.
  - intros (Hm & Hmax). destruct (last l) as [m'|] eqn:Hlast.
    + f_equal. pose proof (last_Some_elem_of _ _ Hlast) as Hm'.
      apply last_Some in Hlast as (front & ->).
      apply elem_of_app in Hm as [Hm|Hm].
      * pose proof (StronglySorted_app_1_elem_of _ _ _ _ _ Hs Hm
                      ltac:(apply list_elem_of_singleton; reflexivity)).
        specialize (Hmax m' Hm'). lia.
      * apply list_elem_of_singleton in Hm. congruence.
    + apply last_None in Hlast. subst l. apply elem_of_nil in Hm as [].
Qed.

Lemma back_empty (l : list Z) : StdSet.back l = None <-> l = [].
Proof. apply last_None. Qed.

Lemma keys_assign k v k' m :
  k' ∈ StdMap.keys (StdMap.assign k v m) <-> k' = k \/ k' ∈ StdMap.keys m.
Proof.
  unfold StdMap.keys. induction m as [|[k0 v0] m IH]; cbn.
  - rewrite list_elem_of_singleton, elem_of_nil. tauto.
  - destruct (Z.ltb_spec k k0) as [Hlt|Hge]; cbn.
    + rewrite !elem_of_cons. cbn. tauto.
    + destruct (Z.eqb_spec k k0) as [->|Hne]; cbn.
      * rewrite !elem_of_cons. tauto.
      * rewrite !elem_of_cons, IH. tauto.
Qed.

Lemma assign_ascending k v m :
  StronglySorted Z.lt (StdMap.keys m) ->
  StronglySorted Z.lt (StdMap.keys (StdMap.assign k v m)).
Proof.
  induction m as [|[k0 v0] m IH]; cbn; intros Hs.
  - repeat constructor.
  - apply StronglySorted_inv in Hs as (Hm & Hk0).
    destruct (Z.ltb_spec k k0) as [Hlt|Hge]; cbn.
    + constructor; [constructor; assumption|].
      constructor; [exact Hlt|].
      eapply Forall_impl; [exact Hk0|]. intros; cbn in *; lia.
    + destruct (Z.eqb_spec k k0) as [->|Hne]; cbn.
      * constructor; assumption.
      * constructor; [auto|]. rewrite Forall_forall. intros y Hy.
        apply keys_assign in Hy as [->|Hy]; [lia|].
        rewrite Forall_forall in Hk0. auto.
Qed.

Lemma elem_assign k v p m :
  p ∈ StdMap.assign k v m -> p = (k, v) \/ p ∈ m.
Proof.
  induction m as [|[k0 v0] m IH]; cbn.
  - rewrite list_elem_of_singleton. tauto.
  - destruct (Z.ltb_spec k k0) as [Hlt|Hge].
    + rewrite !elem_of_cons. tauto.
    + destruct (Z.eqb_spec k k0) as [->|Hne].
      * rewrite !elem_of_cons. tauto.
      * rewrite !elem_of_cons. intros [->|Hp]; [tauto|].
        apply IH in Hp. tauto.
Qed.

Lemma keys_erase k k' m :
  k' ∈ StdMap.keys (StdMap.erase k m) <-> k' ∈ StdMap.keys m /\ k' <> k.
Proof.
  unfold StdMap.keys, StdMap.erase. rewrite !list_elem_of_fmap. split.
  - intros (p & -> & Hp). apply list_elem_of_filter in Hp as (Hne & Hp).
    split; [exists p; auto|exact Hne].
  - intros ((p & -> & Hp) & Hne). exists p. split; [reflexivity|].
    apply list_elem_of_filter. auto.
Qed.

Lemma erase_ascending k m :
  StronglySorted Z.lt (StdMap.keys m) ->
  StronglySorted Z.lt (StdMap.keys (StdMap.erase k m)).
Proof.
  unfold StdMap.keys, StdMap.erase.
  induction m as [|[k0 v0] m IH]; intros Hs; [constructor|].
  cbn in Hs. apply StronglySorted_inv in Hs as (Hm & Hk0).
  rewrite filter_cons. destruct (decide _); [cbn|auto].
  constructor; [auto|]. rewrite Forall_forall in *. intros y Hy.
  apply (keys_erase k y m) in Hy as (Hy & _). auto.
Qed.

Lemma elem_erase k p m : p ∈ StdMap.erase k m -> p ∈ m.
Proof. unfold StdMap.erase. rewrite list_elem_of_filter. tauto. Qed.

Lemma begin_ok m : SelectInvariant.iterator_ok (StdMap.begin m) m.
Proof.
  destruct m as [|[k v] m]; cbn; [exact I|].
  unfold StdMap.keys. cbn. apply elem_of_cons. auto.
Qed.

(** The nodes from the one an iterator designates are a suffix of the
    map. *)
Lemma seek_suffix k m : exists front, m = front ++ StdMap.seek k m.
Proof.
  induction m as [|[k0 v0] m (front & IH)]; cbn.
  - exists []. reflexivity.
  - destruct (Z.eqb_spec k0 k) as [_|_].
    + exists []. reflexivity.
    + exists ((k0, v0) :: front). cbn. f_equal. exact IH.
Qed.

Lemma seek_at k v front rest :
  k ∉ StdMap.keys front ->
  StdMap.seek k (front ++ (k, v) :: rest) = (k, v) :: rest.
Proof.
  unfold StdMap.keys. induction front as [|[k0 v0] front IH]; cbn.
  - rewrite Z.eqb_refl. reflexivity.
  - rewrite not_elem_of_cons. intros (Hne & Hk).
    destruct (Z.eqb_spec k0 k) as [|_]; [congruence|]. auto.
Qed.

End Containers.

(** ** The blocks of one direction *)

Section Members.
Import EventSelect.

(** Reading a member after an assignment. *)

Lemma fds_set_fds_eq d v st : fds d (set_fds d v st) = v.
Proof. destruct d; reflexivity. Qed.

Lemma fds_set_fds_ne d d' v st :
  d <> d' -> fds d (set_fds d' v st) = fds d st.
Proof. destruct d, d'; congruence || reflexivity. Qed.

Lemma fds_set_x_set d d' v st : fds d (set_x_set d' v st) = fds d st.
Proof. destruct d, d'; reflexivity. Qed.

Lemma fds_set_nfds_x d d' v st : fds d (set_nfds_x d' v st) = fds d st.
Proof. destruct d, d'; reflexivity. Qed.

Lemma x_set_set_x_set_eq d v st : x_set d (set_x_set d v st) = v.
Proof. destruct d; reflexivity. Qed.

Lemma x_set_set_x_set_ne d d' v st :
  d <> d' -> x_set d (set_x_set d' v st) = x_set d st.
Proof. destruct d, d'; congruence || reflexivity. Qed.

Lemma x_set_set_fds d d' v st : x_set d (set_fds d' v st) = x_set d st.
Proof. destruct d, d'; reflexivity. Qed.

Lemma x_set_set_nfds_x d d' v st : x_set d (set_nfds_x d' v st) = x_set d st.
Proof. destruct d, d'; reflexivity. Qed.

Lemma nfds_x_set_nfds_x_eq d v st : nfds_x d (set_nfds_x d v st) = v.
Proof. destruct d; reflexivity. Qed.

Lemma nfds_x_set_nfds_x_ne d d' v st :
  d <> d' -> nfds_x d (set_nfds_x d' v st) = nfds_x d st.
Proof. destruct d, d'; congruence || reflexivity. Qed.

Lemma nfds_x_set_fds d d' v st : nfds_x d (set_fds d' v st) = nfds_x d st.
Proof. destruct d, d'; reflexivity. Qed.

Lemma nfds_x_set_x_set d d' v st : nfds_x d (set_x_set d' v st) = nfds_x d st.
Proof. destruct d, d'; reflexivity. Qed.

Lemma t_fds_set_fds d d' v st : t_fds d (set_fds d' v st) = t_fds d st.
Proof. destruct d, d'; reflexivity. Qed.

Lemma t_fds_set_x_set d d' v st : t_fds d (set_x_set d' v st) = t_fds d st.
Proof. destruct d, d'; reflexivity. Qed.

Lemma t_fds_set_nfds_x d d' v st : t_fds d (set_nfds_x d' v st) = t_fds d st.
Proof. destruct d, d'; reflexivity. Qed.

Lemma fd_list_set_fds d' v st : fd_list (set_fds d' v st) = fd_list st.
Proof. destruct d'; reflexivity. Qed.

Lemma fd_list_set_x_set d' v st : fd_list (set_x_set d' v st) = fd_list st.
Proof. destruct d'; reflexivity. Qed.

Lemma fd_list_set_nfds_x d' v st : fd_list (set_nfds_x d' v st) = fd_list st.
Proof. destruct d'; reflexivity. Qed.

Lemma fd_iter_set_fds d' v st : fd_iter (set_fds d' v st) = fd_iter st.
Proof. destruct d'; reflexivity. Qed.

Lemma fd_iter_set_x_set d' v st : fd_iter (set_x_set d' v st) = fd_iter st.
Proof. destruct d'; reflexivity. Qed.

Lemma fd_iter_set_nfds_x d' v st : fd_iter (set_nfds_x d' v st) = fd_iter st.
Proof. destruct d'; reflexivity. Qed.


End Members.

Create Rewrite HintDb members.
#[global] Hint Rewrite
  fds_set_fds_eq fds_set_x_set fds_set_nfds_x x_set_set_x_set_eq
  x_set_set_fds x_set_set_nfds_x nfds_x_set_nfds_x_eq nfds_x_set_fds
  nfds_x_set_x_set t_fds_set_fds t_fds_set_x_set t_fds_set_nfds_x
  fd_list_set_fds fd_list_set_x_set fd_list_set_nfds_x fd_iter_set_fds
  fd_iter_set_x_set fd_iter_set_nfds_x
  : members.

Ltac members :=
  repeat first
    [ progress autorewrite with members
    | rewrite x_set_set_x_set_ne by assumption
    | rewrite fds_set_fds_ne by assumption
    | rewrite nfds_x_set_nfds_x_ne by assumption ].

Section Blocks.
Context `{Platform}.
Import EventSelect SelectInvariant.

Lemma fd_in_range_spec fd :
  fd_in_range fd = true <-> 0 <= fd < FD_SETSIZE.
Proof. unfold fd_in_range. rewrite andb_true_iff. lia. Qed.

Lemma clearbit_unset s fd : Z.testbit s fd = false -> Z.clearbit s fd = s.
Proof.
  intros Hbit. apply Z.bits_inj'. intros i _. rewrite Z.clearbit_eqb.
  destruct (Z.eqb_spec fd i) as [->|_]; cbn.
  - rewrite Hbit. reflexivity.
  - apply andb_true_r.
Qed.

Lemma top_empty : top [] = event_invalid_fd.
Proof. reflexivity. Qed.

(** Either the set is empty and [top] is the sentinel, or [top] is its
    greatest element. *)
Lemma top_cases l :
  StronglySorted Z.lt l ->
  (l = [] /\ top l = event_invalid_fd)
  \/ (top l ∈ l /\ (forall y, y ∈ l -> y <= top l)
      /\ StdSet.back l = Some (top l)).
Proof.
  intros Hs. unfold top. destruct (StdSet.back l) as [m|] eqn:Hb.
  - right. cbn. apply back_greatest in Hb as Hm; [|exact Hs]. tauto.
  - left. apply back_empty in Hb. auto.
Qed.

Lemma top_greatest l m :
  StronglySorted Z.lt l -> m ∈ l -> (forall y, y ∈ l -> y <= m) ->
  top l = m.
Proof.
  intros Hs Hm Hmax. unfold top.
  assert (StdSet.back l = Some m) as -> by (apply back_greatest; auto).
  reflexivity.
Qed.

Lemma top_insert l fd :
  StronglySorted Z.lt l -> (forall y, y ∈ l -> 0 <= y) -> 0 <= fd ->
  top (StdSet.insert fd l) = if top l <? fd then fd else top l.
Proof.
  intros Hs Hpos Hfd. pose proof event_invalid_fd_negative as Hneg.
  pose proof (set_insert_ascending fd l Hs) as Hs'.
  destruct (top_cases l Hs) as [(-> & Ht)|(Hin & Hmax & _)].
  - rewrite Ht. destruct (Z.ltb_spec event_invalid_fd fd); [|lia].
    reflexivity.
  - destruct (Z.ltb_spec (top l) fd) as [Hlt|Hge];
      apply top_greatest; try exact Hs'.
    + apply set_insert_elem. auto.
    + intros y Hy. apply set_insert_elem in Hy as [->|Hy]; [lia|].
      specialize (Hmax y Hy). lia.
    + apply set_insert_elem. auto.
    + intros y Hy. apply set_insert_elem in Hy as [->|Hy]; [lia|auto].
Qed.

Lemma top_erase l fd :
  StronglySorted Z.lt l -> fd <> top l -> top (StdSet.erase fd l) = top l.
Proof.
  intros Hs Hne.
  destruct (top_cases l Hs) as [(-> & Ht)|(Hin & Hmax & _)].
  - reflexivity.
  - apply top_greatest.
    + apply set_erase_ascending, Hs.
    + apply set_erase_elem. auto.
    + intros y Hy. apply set_erase_elem in Hy as (Hy & _). auto.
Qed.

(** The recomputation of [nfds_x] in [modify] and [remove]. *)
Lemma recompute_top {A} (f : Z -> A) l :
  (if 0 <? StdSet.size l
   then (let* top := defined (StdSet.back l) in Ok (f top))%result
   else Ok (f event_invalid_fd)) = Ok (f (top l)).
Proof.
  unfold StdSet.size, top, StdSet.back.
  destruct l as [|z l]; [reflexivity|].
  destruct (Z.ltb_spec 0 (Z.of_nat (length (z :: l)))) as [_|Hle];
    [|cbn in Hle; lia].
  destruct (last (z :: l)) as [m|] eqn:Hlast; [reflexivity|].
  apply last_None in Hlast. discriminate.
Qed.

Lemma direction_ok_frame d d' st st' :
  frame d st st' -> d' <> d -> direction_ok d' st -> direction_ok d' st'.
Proof.
  intros [Hf Hx Hn _ _ _] Hne [Hs Hb Hr Ht].
  constructor; rewrite ?Hf, ?Hx, ?Hn by exact Hne; assumption.
Qed.

Lemma frame_refl d st : frame d st st.
Proof. constructor; reflexivity. Qed.

Lemma frame_trans d a b c : frame d a b -> frame d b c -> frame d a c.
Proof.
  intros [F1 X1 N1 T1 L1 I1] [F2 X2 N2 T2 L2 I2]. constructor; intros.
  - rewrite F2, F1 by assumption. reflexivity.
  - rewrite X2, X1 by assumption. reflexivity.
  - rewrite N2, N1 by assumption. reflexivity.
  - rewrite T2, T1. reflexivity.
  - congruence.
  - congruence.
Qed.

Lemma watch_spec d fd st st' :
  watch d fd st = Ok st' -> direction_ok d st ->
  0 <= fd < FD_SETSIZE
  /\ direction_ok d st'
  /\ (forall y, y ∈ x_set d st' <-> y = fd \/ y ∈ x_set d st)
  /\ frame d st st'.
Proof.
  unfold watch, FD_SET. destruct (fd_in_range fd) eqn:Hr; [|discriminate].
  apply fd_in_range_spec in Hr. cbn [bind]. intros [= <-] [Hs Hb Hrg Ht].
  split; [exact Hr|].
  set (st2 := set_x_set d _ _).
  assert (Hx2 : x_set d st2 = StdSet.insert fd (x_set d st))
    by (unfold st2; autorewrite with members; reflexivity).
  assert (Hf2 : fds d st2 = Z.setbit (fds d st) fd)
    by (unfold st2; autorewrite with members; reflexivity).
  assert (Hn2 : nfds_x d st2 = nfds_x d st)
    by (unfold st2; autorewrite with members; reflexivity).
  assert (Hfr2 : frame d st st2).
  { unfold st2. constructor; intros; members; reflexivity. }
  set (st3 := if nfds_x d st2 <? fd then _ else _).
  assert (Hx3 : x_set d st3 = x_set d st2)
    by (unfold st3; destruct (nfds_x d st2 <? fd);
        autorewrite with members; reflexivity).
  assert (Hf3 : fds d st3 = fds d st2)
    by (unfold st3; destruct (nfds_x d st2 <? fd);
        autorewrite with members; reflexivity).
  assert (Hn3 : nfds_x d st3 = if nfds_x d st <? fd then fd else nfds_x d st).
  { unfold st3. rewrite Hn2.
    destruct (nfds_x d st <? fd); autorewrite with members; auto. }
  assert (Hfr3 : frame d st2 st3).
  { unfold st3. destruct (nfds_x d st2 <? fd); [|apply frame_refl].
    constructor; intros; members; reflexivity. }
  split; [|split].
  - constructor; rewrite ?Hx3, ?Hx2, ?Hf3, ?Hf2, ?Hn3.
    + apply set_insert_ascending, Hs.
    + intros y. rewrite set_insert_elem. unfold FD_ISSET in *.
      rewrite Z.setbit_iff by lia. rewrite Hb. intuition congruence.
    + intros y Hy. apply set_insert_elem in Hy as [->|Hy]; auto.
    + rewrite Ht. symmetry. apply top_insert; [exact Hs| |lia].
      intros y Hy. apply Hrg in Hy. lia.
  - intros y. rewrite Hx3, Hx2. apply set_insert_elem.
  - exact (frame_trans _ _ _ _ Hfr2 Hfr3).
Qed.

Lemma unwatch_range d fd st st' :
  unwatch d fd st = Ok st' -> 0 <= fd < FD_SETSIZE.
Proof.
  unfold unwatch, FD_CLR. destruct (fd_in_range fd) eqn:Hr; [|discriminate].
  intros _. apply fd_in_range_spec, Hr.
Qed.

Lemma unwatch_spec d fd st :
  direction_ok d st -> 0 <= fd < FD_SETSIZE ->
  exists st',
    unwatch d fd st = Ok st'
    /\ direction_ok d st'
    /\ (forall y, y ∈ x_set d st' <-> y ∈ x_set d st /\ y <> fd)
    /\ frame d st st'.
Proof.
  intros [Hs Hb Hrg Ht] Hr. unfold unwatch, FD_CLR.
  apply fd_in_range_spec in Hr as Hr'. rewrite Hr'. cbn [bind].
  set (st2 := set_x_set d _ _).
  assert (Hx2 : x_set d st2 = StdSet.erase fd (x_set d st))
    by (unfold st2; autorewrite with members; reflexivity).
  assert (Hf2 : fds d st2 = Z.clearbit (fds d st) fd)
    by (unfold st2; autorewrite with members; reflexivity).
  assert (Hn2 : nfds_x d st2 = nfds_x d st)
    by (unfold st2; autorewrite with members; reflexivity).
  assert (Hfr2 : frame d st st2).
  { unfold st2. constructor; intros; members; reflexivity. }
  pose proof (set_erase_ascending fd _ Hs) as Hs2. rewrite <- Hx2 in Hs2.
  assert (Hnext : exists st3,
    (if fd =? nfds_x d st2
     then if 0 <? StdSet.size (x_set d st2)
          then (let* top := defined (StdSet.back (x_set d st2)) in
                Ok (set_nfds_x d top st2))%result
          else Ok (set_nfds_x d event_invalid_fd st2)
     else Ok st2) = Ok st3
    /\ x_set d st3 = x_set d st2 /\ fds d st3 = fds d st2
    /\ nfds_x d st3 = top (x_set d st2) /\ frame d st2 st3).
  { assert (Hset : forall v,
      x_set d (set_nfds_x d v st2) = x_set d st2
      /\ fds d (set_nfds_x d v st2) = fds d st2
      /\ nfds_x d (set_nfds_x d v st2) = v
      /\ frame d st2 (set_nfds_x d v st2)).
    { intros v. autorewrite with members.
      repeat split; intros; members; reflexivity. }
    destruct (Z.eqb_spec fd (nfds_x d st2)) as [Heq|Hne].
    - rewrite (recompute_top (fun top => set_nfds_x d top st2)).
      eexists. split; [reflexivity|]. apply Hset.
    - exists st2. split; [reflexivity|]. repeat split; try reflexivity.
      rewrite Hn2, Hx2, Ht. symmetry. apply top_erase; [exact Hs|].
      rewrite <- Ht, <- Hn2. exact Hne. }
  destruct Hnext as (st3 & -> & Hx3 & Hf3 & Hn3 & Hfr3).
  exists st3. split; [reflexivity|]. split; [|split].
  - constructor; rewrite ?Hx3, ?Hf3, ?Hn3, ?Hf2; try exact Hs2.
    + intros y. rewrite Hx2, set_erase_elem. unfold FD_ISSET in *.
      rewrite Z.clearbit_iff, Hb. intuition congruence.
    + intros y. rewrite Hx2, set_erase_elem. intros (Hy & _). auto.
    + reflexivity.
  - intros y. rewrite Hx3, Hx2. apply set_erase_elem.
  - exact (frame_trans _ _ _ _ Hfr2 Hfr3).
Qed.

End Blocks.

(** ** [add], [modify] and [remove] keep the object well formed *)

Section OperationSpecs.
Context `{Platform}.
Import EventSelect SelectInvariant.

(** Three blocks in a row, one per direction, each changing the members
    of its own direction only. *)
Lemma three_blocks (B : direction -> t -> result t)
    (Q : direction -> list Z -> list Z -> Prop) :
  (forall d st st',
      B d st = Ok st' -> direction_ok d st ->
      direction_ok d st' /\ Q d (x_set d st) (x_set d st')
      /\ frame d st st') ->
  forall st st1 st2 st3,
    B dir_r st = Ok st1 -> B dir_w st1 = Ok st2 -> B dir_e st2 = Ok st3 ->
    (forall d, direction_ok d st) ->
    (forall d, direction_ok d st3)
    /\ (forall d, Q d (x_set d st) (x_set d st3))
    /\ fd_list st3 = fd_list st
    /\ fd_iter st3 = fd_iter st
    /\ (forall d, t_fds d st3 = t_fds d st).
Proof.
  intros HB st st1 st2 st3 H1 H2 H3 Hok.
  destruct (HB _ _ _ H1 (Hok dir_r)) as (Hr1 & Qr & F1).
  pose proof (direction_ok_frame _ dir_w _ _ F1 ltac:(discriminate)
                (Hok dir_w)) as Hw1.
  pose proof (direction_ok_frame _ dir_e _ _ F1 ltac:(discriminate)
                (Hok dir_e)) as He1.
  destruct (HB _ _ _ H2 Hw1) as (Hw2 & Qw & F2).
  pose proof (direction_ok_frame _ dir_r _ _ F2 ltac:(discriminate) Hr1)
    as Hr2.
  pose proof (direction_ok_frame _ dir_e _ _ F2 ltac:(discriminate) He1)
    as He2.
  destruct (HB _ _ _ H3 He2) as (He3 & Qe & F3).
  pose proof (direction_ok_frame _ dir_r _ _ F3 ltac:(discriminate) Hr2)
    as Hr3.
  pose proof (direction_ok_frame _ dir_w _ _ F3 ltac:(discriminate) Hw2)
    as Hw3.
  destruct F1 as [Ff1 Fx1 Fn1 Ft1 Fl1 Fi1].
  destruct F2 as [Ff2 Fx2 Fn2 Ft2 Fl2 Fi2].
  destruct F3 as [Ff3 Fx3 Fn3 Ft3 Fl3 Fi3].
  split; [intros []; assumption|]. split; [|split; [|split]].
  - intros [].
    + rewrite (Fx3 dir_r), (Fx2 dir_r) by discriminate. exact Qr.
    + rewrite (Fx3 dir_w) by discriminate.
      rewrite <- (Fx1 dir_w) by discriminate. exact Qw.
    + rewrite <- (Fx1 dir_e), <- (Fx2 dir_e) by discriminate. exact Qe.
  - congruence.
  - congruence.
  - intros d. rewrite Ft3, Ft2, Ft1. reflexivity.
Qed.

(** The block of [add] for one direction, without the flag [rc]. *)
Lemma add_direction_block d fd events rc st :
  add_direction d fd events (rc, st) =
    (let* st' :=
       if fIsSet events (event_flag d) then watch d fd st else Ok st in
     Ok (rc || fIsSet events (event_flag d), st'))%result.
Proof.
  unfold add_direction. destruct (fIsSet events (event_flag d)).
  - rewrite orb_true_r. reflexivity.
  - rewrite orb_false_r. reflexivity.
Qed.

Lemma fIsSet_nonzero events d :
  fIsSet events (event_flag d) = true -> events <> 0.
Proof.
  unfold fIsSet. intros Hset ->. rewrite Z.land_0_l in Hset.
  destruct d; discriminate.
Qed.

(** Converting a mask to [uint] keeps its three flags. *)
Lemma uint_flag events d :
  fIsSet (uint events) (event_flag d) = fIsSet events (event_flag d).
Proof.
  unfold fIsSet, uint. rewrite <- Z.land_ones by lia.
  rewrite <- Z.land_assoc.
  replace (Z.land (Z.ones 32) (event_flag d)) with (event_flag d)
    by (destruct d; reflexivity).
  reflexivity.
Qed.

Lemma uint_nonzero events d :
  fIsSet events (event_flag d) = true -> uint events <> 0.
Proof. rewrite <- uint_flag. apply fIsSet_nonzero. Qed.

Lemma uint_range x : 0 <= uint x < 2 ^ 32.
Proof. unfold uint. apply Z.mod_pos_bound. reflexivity. Qed.

(** What a successful [add] has done. *)
Lemma add_spec st fd events rc st' :
  add st fd events = Ok (rc, st') -> (forall d, direction_ok d st) ->
  rc = 1
  /\ fd <> event_invalid_fd /\ 0 <= fd < FD_SETSIZE
  /\ (events <> 0 /\ uint events <> 0)
  /\ (forall d, direction_ok d st')
  /\ (forall d y,
        y ∈ x_set d st' <->
        (y = fd /\ fIsSet events (event_flag d) = true) \/ y ∈ x_set d st)
  /\ fd_list st' = StdMap.assign fd (uint events) (fd_list st)
  /\ fd_iter st' = fd_iter st
  /\ (forall d, t_fds d st' = t_fds d st).
Proof.
  unfold add. destruct (Z.eqb_spec fd event_invalid_fd) as [|Hfd];
    [discriminate|].
  cbn [negb assert bind]. rewrite add_direction_block.
  set (B := fun d st =>
              if fIsSet events (event_flag d) then watch d fd st else Ok st).
  fold (B dir_r st).
  destruct (B dir_r st) as [st1|] eqn:H1; [cbn [bind]|discriminate].
  rewrite add_direction_block. fold (B dir_w st1).
  destruct (B dir_w st1) as [st2|] eqn:H2; [cbn [bind]|discriminate].
  rewrite add_direction_block. fold (B dir_e st2).
  destruct (B dir_e st2) as [st3|] eqn:H3; [cbn [bind]|discriminate].
  cbn [orb].
  destruct (fIsSet events (event_flag dir_r) || fIsSet events (event_flag dir_w)
            || fIsSet events (event_flag dir_e)) eqn:Hrc;
    [cbn [assert bind]|discriminate].
  intros [= <- <-] Hok.
  assert (HB : forall d st st',
    B d st = Ok st' -> direction_ok d st ->
    direction_ok d st'
    /\ ((forall y, y ∈ x_set d st' <->
           (y = fd /\ fIsSet events (event_flag d) = true) \/ y ∈ x_set d st)
        /\ (fIsSet events (event_flag d) = true -> 0 <= fd < FD_SETSIZE))
    /\ frame d st st').
  { intros d s s' Hb Hd. unfold B in Hb.
    destruct (fIsSet events (event_flag d)) eqn:Hflag.
    - destruct (watch_spec _ _ _ _ Hb Hd) as (Hr & Hd' & Hx & Hf).
      split; [exact Hd'|]. split; [|exact Hf]. split; [|auto].
      intros y. rewrite Hx. tauto.
    - injection Hb as <-. split; [exact Hd|]. split; [|apply frame_refl].
      split; [|discriminate]. intros y. intuition discriminate. }
  destruct (three_blocks B
              (fun d l l' =>
                 (forall y, y ∈ l' <->
                    (y = fd /\ fIsSet events (event_flag d) = true) \/ y ∈ l)
                 /\ (fIsSet events (event_flag d) = true ->
                     0 <= fd < FD_SETSIZE))
              HB _ _ _ _ H1 H2 H3 Hok) as (Hok3 & HQ & Hl & Hi & Ht).
  assert (Hd : exists d, fIsSet events (event_flag d) = true).
  { apply orb_true_iff in Hrc as [Hrc|Hrc];
      [apply orb_true_iff in Hrc as [Hrc|Hrc]|]; eauto. }
  destruct Hd as (d0 & Hd0).
  split; [reflexivity|]. split; [exact Hfd|].
  split; [apply (HQ d0), Hd0|].
  split; [split; [eapply fIsSet_nonzero, Hd0|eapply uint_nonzero, Hd0]|].
  split; [|split; [|split; [|split]]].
  - intros d. destruct (Hok3 d) as [Hs Hb Hr Hn].
    constructor; members; assumption.
  - intros d y. members. apply HQ.
  - cbn. rewrite Hl. reflexivity.
  - cbn. exact Hi.
  - intros d. rewrite <- Ht. destruct d; reflexivity.
Qed.

(** The block of [modify] for one direction. *)
Lemma modify_direction_spec fd events d st st' :
  modify_direction d fd events st = Ok st' -> direction_ok d st ->
  direction_ok d st'
  /\ ((forall y, y ∈ x_set d st' <->
         y ∈ x_set d st
         /\ (y <> fd \/ fIsSet events (event_flag d) = true))
      /\ (fIsSet events (event_flag d) = false -> 0 <= fd < FD_SETSIZE))
  /\ frame d st st'.
Proof.
  unfold modify_direction. intros Hb Hd.
  destruct (fIsSet events (event_flag d)) eqn:Hflag; cbn [negb] in Hb.
  - injection Hb as <-. split; [exact Hd|]. split; [|apply frame_refl].
    split; [|discriminate]. intros y. tauto.
  - pose proof (unwatch_range _ _ _ _ Hb) as Hr.
    destruct (unwatch_spec d fd st Hd Hr) as (st2 & Hu & Hd' & Hx & Hf).
    rewrite Hu in Hb. injection Hb as <-.
    split; [exact Hd'|]. split; [|exact Hf]. split; [|auto].
    intros y. rewrite Hx. intuition discriminate.
Qed.

(** What a successful [modify] has done. *)
Lemma modify_spec st fd events rc st' :
  modify st fd events = Ok (rc, st') -> (forall d, direction_ok d st) ->
  rc = 0
  /\ (fd <> event_invalid_fd /\ (events <> 0 -> uint events <> 0))
  /\ 0 <= fd < FD_SETSIZE
  /\ (forall d, direction_ok d st')
  /\ (forall d y,
        y ∈ x_set d st' <->
        (y = fd /\ fIsSet events (event_flag d) = true)
        \/ (y ∈ x_set d st /\ y <> fd))
  /\ fd_list st' =
       (if events =? 0 then fd_list st
        else StdMap.assign fd (uint events) (fd_list st))
  /\ fd_iter st' = fd_iter st
  /\ (forall d, t_fds d st' = t_fds d st).
Proof.
  unfold modify. destruct (Z.eqb_spec fd event_invalid_fd) as [|Hfd];
    [discriminate|].
  cbn [negb assert bind]. intros Hrun Hok.
  assert (Hfirst : exists st0,
    (if negb (events =? 0)
     then (let* (_, st') := add st fd events in Ok st')%result
     else Ok st) = Ok st0
    /\ (forall d, direction_ok d st0)
    /\ (forall d y,
          y ∈ x_set d st0 <->
          (y = fd /\ fIsSet events (event_flag d) = true /\ events <> 0)
          \/ y ∈ x_set d st)
    /\ fd_list st0 =
         (if events =? 0 then fd_list st
          else StdMap.assign fd (uint events) (fd_list st))
    /\ fd_iter st0 = fd_iter st
    /\ (forall d, t_fds d st0 = t_fds d st)
    /\ (events <> 0 -> 0 <= fd < FD_SETSIZE)
    /\ (events <> 0 -> uint events <> 0)).
  { destruct (Z.eqb_spec events 0) as [Hz|Hnz]; cbn [negb] in *.
    - exists st. split; [reflexivity|]. split; [exact Hok|].
      split; [intros d y; tauto|]. do 3 (split; [reflexivity|]).
      split; intros Hne; contradiction.
    - destruct (add st fd events) as [[rc0 st0]|] eqn:Hadd;
        [cbn [bind] in *|discriminate].
      destruct (add_spec _ _ _ _ _ Hadd Hok)
        as (_ & _ & Hr & (_ & Hu) & Hok0 & Hx & Hl & Hi & Ht).
      exists st0. split; [reflexivity|]. split; [exact Hok0|].
      split; [intros d y; rewrite Hx; tauto|]. auto. }
  destruct Hfirst
    as (st0 & Hst0 & Hok0 & Hx0 & Hl0 & Hi0 & Ht0 & Hr0 & Hu0).
  rewrite Hst0 in Hrun. cbn [bind] in Hrun.
  destruct (modify_direction dir_r fd events st0) as [st1|] eqn:H1;
    [cbn [bind] in Hrun|discriminate].
  destruct (modify_direction dir_w fd events st1) as [st2|] eqn:H2;
    [cbn [bind] in Hrun|discriminate].
  destruct (modify_direction dir_e fd events st2) as [st3|] eqn:H3;
    [cbn [bind] in Hrun|discriminate].
  injection Hrun as <- <-.
  destruct (three_blocks (fun d => modify_direction d fd events)
              (fun d l l' =>
                 (forall y, y ∈ l' <->
                    y ∈ l /\ (y <> fd \/ fIsSet events (event_flag d) = true))
                 /\ (fIsSet events (event_flag d) = false ->
                     0 <= fd < FD_SETSIZE))
              (modify_direction_spec fd events) _ _ _ _ H1 H2 H3 Hok0)
    as (Hok3 & HQ & Hl & Hi & Ht).
  assert (Hr : 0 <= fd < FD_SETSIZE).
  { destruct (Z.eqb_spec events 0) as [->|Hnz]; [|auto].
    apply (HQ dir_r). reflexivity. }
  split; [reflexivity|]. split; [split; [exact Hfd|exact Hu0]|].
  split; [exact Hr|].
  split; [exact Hok3|]. split; [|split; [|split]].
  - intros d y. rewrite (proj1 (HQ d)), Hx0.
    pose proof (fIsSet_nonzero events d). 
    destruct (decide (y = fd)); intuition congruence.
  - congruence.
  - congruence.
  - intros d. rewrite Ht, Ht0. reflexivity.
Qed.

(** What a successful [remove] has done. *)
Lemma remove_spec st fd rc st' :
  remove st fd = Ok (rc, st') -> (forall d, direction_ok d st) ->
  rc = 1
  /\ fd ∈ StdMap.keys (fd_list st)
  /\ (forall d, direction_ok d st')
  /\ (forall d y, y ∈ x_set d st' <-> y ∈ x_set d st /\ y <> fd)
  /\ fd_list st' = StdMap.erase fd (fd_list st)
  /\ fd_iter st' = StdMap.begin (fd_list st')
  /\ (forall d, t_fds d st' = t_fds d st).
Proof.
  unfold remove. destruct (Z.eqb_spec fd event_invalid_fd) as [|Hfd];
    [discriminate|].
  cbn [negb assert bind]. unfold StdMap.find.
  destruct (bool_decide_reflect (fd ∈ StdMap.keys (fd_list st)))
    as [Hin|_]; [|discriminate].
  rewrite bool_decide_eq_false_2 by discriminate. cbn [negb assert bind].
  destruct (unwatch dir_r fd st) as [st1|] eqn:H1;
    [cbn [bind]|discriminate].
  destruct (unwatch dir_w fd st1) as [st2|] eqn:H2;
    [cbn [bind]|discriminate].
  destruct (unwatch dir_e fd st2) as [st3|] eqn:H3;
    [cbn [bind]|discriminate].
  intros [= <- <-] Hok.
  assert (HB : forall d st st',
    unwatch d fd st = Ok st' -> direction_ok d st ->
    direction_ok d st'
    /\ (forall y, y ∈ x_set d st' <-> y ∈ x_set d st /\ y <> fd)
    /\ frame d st st').
  { intros d s s' Hb Hd. pose proof (unwatch_range _ _ _ _ Hb) as Hr.
    destruct (unwatch_spec d fd s Hd Hr) as (s2 & Hu & Hd' & Hx & Hf).
    rewrite Hu in Hb. injection Hb as <-. auto. }
  destruct (three_blocks (fun d => unwatch d fd)
              (fun d l l' => forall y, y ∈ l' <-> y ∈ l /\ y <> fd)
              HB _ _ _ _ H1 H2 H3 Hok) as (Hok3 & HQ & Hl & Hi & Ht).
  split; [reflexivity|]. split; [exact Hin|].
  split; [|split; [|split; [|split]]].
  - intros d. destruct (Hok3 d) as [Hs Hb Hr Hn].
    constructor; members; assumption.
  - intros d y. apply HQ.
  - cbn. rewrite Hl. reflexivity.
  - reflexivity.
  - intros d. rewrite <- Ht. destruct d; reflexivity.
Qed.

End OperationSpecs.

(** ** Every reachable object is well formed *)

Section Reachable.
Context `{Platform}.
Import EventSelect SelectInvariant.

Lemma ok_new raw : ok (new raw).
Proof.
  constructor; cbn.
  - intros d.
    assert (Hx : x_set d (new raw) = []) by (destruct d; reflexivity).
    assert (Hf : fds d (new raw) = FD_ZERO) by (destruct d; reflexivity).
    assert (Hn : nfds_x d (new raw) = event_invalid_fd)
      by (destruct d; reflexivity).
    constructor; rewrite ?Hx, ?Hf, ?Hn.
    + constructor.
    + intros fd. rewrite elem_of_nil. unfold FD_ISSET, FD_ZERO.
      rewrite Z.bits_0. split; [intros []|discriminate].
    + intros fd Hfd. apply elem_of_nil in Hfd as [].
    + reflexivity.
  - intros d fd. destruct d; cbn; rewrite elem_of_nil; intros [].
  - constructor.
  - intros fd Hfd. apply elem_of_nil in Hfd as [].
  - intros fd events Hin. apply elem_of_nil in Hin as [].
  - exact I.
Qed.

Lemma iterator_ok_incl it (m m' : list (Z * Z)) :
  (forall k, k ∈ StdMap.keys m -> k ∈ StdMap.keys m') ->
  iterator_ok it m -> iterator_ok it m'.
Proof. destruct it; cbn; auto. Qed.

Lemma ok_add st fd events rc st' :
  add st fd events = Ok (rc, st') -> ok st -> ok st'.
Proof.
  intros Hadd [Hd Hreg Hasc Hrg Hev Hit].
  destruct (add_spec _ _ _ _ _ Hadd Hd)
    as (_ & _ & Hr & (_ & Hnz) & Hd' & Hx & Hl & Hi & _).
  constructor; rewrite ?Hl, ?Hi.
  - exact Hd'.
  - intros d y Hy. apply keys_assign. apply Hx in Hy as [(-> & _)|Hy]; eauto.
  - apply assign_ascending, Hasc.
  - intros y Hy. apply keys_assign in Hy as [->|Hy]; auto.
  - intros k e Hin. apply elem_assign in Hin as [[= -> ->]|Hin]; eauto.
  - eapply iterator_ok_incl; [|exact Hit].
    intros k Hk. apply keys_assign. auto.
Qed.

Lemma ok_modify st fd events rc st' :
  modify st fd events = Ok (rc, st') -> ok st -> ok st'.
Proof.
  intros Hmod [Hd Hreg Hasc Hrg Hev Hit].
  destruct (modify_spec _ _ _ _ _ Hmod Hd)
    as (_ & (_ & Hu) & Hr & Hd' & Hx & Hl & Hi & _).
  assert (Hkeys : forall k, k ∈ StdMap.keys (fd_list st) ->
                            k ∈ StdMap.keys (fd_list st')).
  { intros k Hk. rewrite Hl. destruct (events =? 0); [exact Hk|].
    apply keys_assign. auto. }
  constructor; rewrite ?Hi.
  - exact Hd'.
  - intros d y Hy. apply Hx in Hy as [(-> & Hflag)|(Hy & _)]; [|eauto].
    rewrite Hl. apply fIsSet_nonzero, Z.eqb_neq in Hflag as ->.
    apply keys_assign. auto.
  - rewrite Hl. destruct (events =? 0); [exact Hasc|].
    apply assign_ascending, Hasc.
  - intros y. rewrite Hl. destruct (events =? 0); [apply Hrg|].
    intros Hy. apply keys_assign in Hy as [->|Hy]; auto.
  - intros k e. rewrite Hl. destruct (Z.eqb_spec events 0); [apply Hev|].
    intros Hin. apply elem_assign in Hin as [[= -> ->]|Hin]; eauto.
  - eapply iterator_ok_incl; [exact Hkeys|exact Hit].
Qed.

Lemma ok_remove st fd rc st' :
  remove st fd = Ok (rc, st') -> ok st -> ok st'.
Proof.
  intros Hrem [Hd Hreg Hasc Hrg Hev Hit].
  destruct (remove_spec _ _ _ _ Hrem Hd)
    as (_ & _ & Hd' & Hx & Hl & Hi & _).
  constructor; rewrite ?Hi.
  - exact Hd'.
  - intros d y Hy. apply Hx in Hy as (Hy & Hne).
    rewrite Hl. apply keys_erase. eauto.
  - rewrite Hl. apply erase_ascending, Hasc.
  - intros y. rewrite Hl. intros Hy. apply keys_erase in Hy as (Hy & _).
    auto.
  - intros k e. rewrite Hl. intros Hin. apply elem_erase in Hin. eauto.
  - apply begin_ok.
Qed.

(** What [wait] does to the members. *)
Lemma wait_spec select st n st' :
  wait select st = Ok (n, st') ->
  let res := select_call select st in
  (forall d, fds d st' = fds d st /\ x_set d st' = x_set d st
             /\ nfds_x d st' = nfds_x d st)
  /\ fd_list st' = fd_list st
  /\ t_fds_r st' = sel_r res /\ t_fds_w st' = sel_w res
  /\ t_fds_e st' = sel_e res
  /\ (sel_ret res <> -1 -> n = sel_ret res)
  /\ (sel_ret res = -1 -> n = 0 \/ n = -1)
  /\ (n <> 0 -> n <> -1 -> fd_iter st' = StdMap.begin (fd_list st))
  /\ (n = 0 \/ n = -1 -> fd_iter st' = fd_iter st).
Proof.
  unfold wait, select_call. cbn zeta.
  set (res := select _ _ _ _ _). cbn [nfds set_nfds set_timeout set_t_fds_e
    set_t_fds_w set_t_fds_r set_error error].
  destruct (Z.eqb_spec (sel_ret res) (-1)) as [Hm|Hm].
  - destruct (sel_errno res =? EINTR).
    + intros [= <- <-]. cbn.
      repeat split; try (destruct d; reflexivity); try lia; auto.
    + destruct (negb (sel_errno res =? EBADF)); [|discriminate].
      destruct (negb (sel_errno res =? ENOTSOCK)); [|discriminate].
      destruct (negb (sel_errno res =? EINVAL)); [|discriminate].
      destruct (negb (sel_errno res =? EFAULT)); [|discriminate].
      cbn. intros [= <- <-]. cbn.
      repeat split; try (destruct d; reflexivity); try lia; auto.
  - destruct (Z.eqb_spec (sel_ret res) 0) as [Hz|Hz].
    + intros [= <- <-]. cbn.
      repeat split; try (destruct d; reflexivity); try lia; auto.
    + intros [= <- <-]. cbn.
      repeat split; try (destruct d; reflexivity); try lia; auto.
Qed.

Lemma ok_wait select st n st' :
  wait select st = Ok (n, st') -> ok st -> ok st'.
Proof.
  intros Hwait [Hd Hreg Hasc Hrg Hev Hit].
  destruct (wait_spec _ _ _ _ Hwait)
    as (Hdir & Hl & _ & _ & _ & _ & _ & Hpos & Hzero).
  constructor; rewrite ?Hl.
  - intros d. destruct (Hdir d) as (Hf & Hx & Hn), (Hd d) as [Hs Hb Hr Ht].
    constructor; rewrite ?Hf, ?Hx, ?Hn; assumption.
  - intros d y. rewrite (proj1 (proj2 (Hdir d))). apply Hreg.
  - exact Hasc.
  - exact Hrg.
  - exact Hev.
  - destruct (decide (n = 0 \/ n = -1)) as [Hn|Hn].
    + rewrite (Hzero Hn). exact Hit.
    + rewrite Hpos by lia. apply begin_ok.
Qed.

(** The loop of [getEvent] leaves the iterator on a node of the map or
    past its end. *)
Lemma getEvent_loop_iterator st rest :
  forall fd events front,
    iterator_ok (getEvent_loop st rest fd events).2 (front ++ rest).
Proof.
  induction rest as [|[k v] rest IH]; intros fd events front; cbn.
  - exact I.
  - destruct (negb (satisfied st k =? 0)); cbn.
    + pose proof (begin_ok rest) as Hb.
      eapply iterator_ok_incl; [|exact Hb].
      intros y Hy. unfold StdMap.keys in *. rewrite fmap_app, fmap_cons.
      apply elem_of_app. right. apply elem_of_cons. auto.
    + specialize (IH k (satisfied st k) (front ++ [(k, v)])).
      rewrite <- app_assoc in IH. exact IH.
Qed.

Lemma getEvent_frame st fd events found fd' events' st' :
  getEvent st fd events = Ok (found, fd', events', st') ->
  exists it, st' = set_fd_iter it st /\ iterator_ok it (fd_list st).
Proof.
  unfold getEvent.
  destruct (0 <? Z.of_nat (length (fd_list st))); [cbn|discriminate].
  destruct (StdMap.from (fd_iter st) (fd_list st)) as [rest|] eqn:Hfrom;
    [cbn|discriminate].
  assert (Hsuffix : exists front, fd_list st = front ++ rest).
  { unfold StdMap.from in Hfrom. destruct (fd_iter st) as [|k|].
    - discriminate.
    - destruct (bool_decide _); [|discriminate]. injection Hfrom as <-.
      apply seek_suffix.
    - injection Hfrom as <-. exists (fd_list st). symmetry. apply app_nil_r. }
  destruct Hsuffix as (front & Hfront).
  pose proof (getEvent_loop_iterator st rest fd events front) as Hit.
  destruct (getEvent_loop st rest fd events) as [[[b k] e] it].
  intros [= <- <- <- <-]. exists it. split; [reflexivity|].
  rewrite Hfront. exact Hit.
Qed.

Lemma ok_set_fd_iter it st :
  iterator_ok it (fd_list st) -> ok st -> ok (set_fd_iter it st).
Proof.
  intros Hit [Hd Hreg Hasc Hrg Hev _]. constructor; try assumption.
  intros d. destruct (Hd d) as [Hs Hb Hr Ht].
  constructor; destruct d; assumption.
Qed.

Lemma ok_getEvent st fd events found fd' events' st' :
  getEvent st fd events = Ok (found, fd', events', st') -> ok st -> ok st'.
Proof.
  intros Hget Hok.
  destruct (getEvent_frame _ _ _ _ _ _ _ Hget) as (it & -> & Hit).
  apply ok_set_fd_iter; assumption.
Qed.

Lemma ok_timeout st msecs : ok st -> ok (timeout st msecs).
Proof.
  intros [Hd Hreg Hasc Hrg Hev Hit]. unfold timeout.
  destruct (1000 <? msecs);
    (constructor; try assumption; intros d;
     destruct (Hd d) as [Hs Hb Hr Ht]; constructor; destruct d; assumption).
Qed.

Lemma ok_step st c st' : step st c = Ok st' -> ok st -> ok st'.
Proof.
  destruct c as [fd ev|fd ev|fd|select|fd ev|msecs]; cbn.
  - destruct (add st fd ev) as [[rc st1]|] eqn:Hop; [cbn|discriminate].
    intros [= <-]. eapply ok_add, Hop.
  - destruct (modify st fd ev) as [[rc st1]|] eqn:Hop; [cbn|discriminate].
    intros [= <-]. eapply ok_modify, Hop.
  - destruct (remove st fd) as [[rc st1]|] eqn:Hop; [cbn|discriminate].
    intros [= <-]. eapply ok_remove, Hop.
  - destruct (wait select st) as [[n st1]|] eqn:Hop; [cbn|discriminate].
    intros [= <-]. eapply ok_wait, Hop.
  - destruct (getEvent st fd ev) as [[[[b k] e] st1]|] eqn:Hop;
      [cbn|discriminate].
    intros [= <-]. eapply ok_getEvent, Hop.
  - intros [= <-]. apply ok_timeout.
Qed.

Lemma ok_run cs : forall st st', run cs st = Ok st' -> ok st -> ok st'.
Proof.
  induction cs as [|c cs IH]; intros st st'; cbn.
  - intros [= <-]. auto.
  - destruct (step st c) as [st1|] eqn:Hstep; [cbn|discriminate].
    intros Hrun Hok. eapply IH; [exact Hrun|]. eapply ok_step; eauto.
Qed.

(** Whatever calls have been made on an object since its construction,
    it is well formed. *)
Lemma reachable_ok raw cs st : run cs (new raw) = Ok st -> ok st.
Proof. intros Hrun. eapply ok_run; [exact Hrun|apply ok_new]. Qed.

End Reachable.

(** ** The registry and the highest descriptors *)

Section Registry.
Context `{Platform}.
Import EventSelect SelectInvariant.

Lemma direction_highest d st :
  direction_ok d st -> highest_of (fds d st) (nfds_x d st).
Proof.
  intros [Hs Hb Hr Ht]. pose proof event_invalid_fd_negative as Hneg.
  unfold highest_of. rewrite Ht.
  destruct (top_cases _ Hs) as [(Hnil & Htop)|(Hin & Hmax & _)].
  - rewrite Htop, bool_decide_eq_true_2 by reflexivity.
    assert (Hnone : forall fd, FD_ISSET fd (fds d st) = false).
    { intros fd. destruct (FD_ISSET fd (fds d st)) eqn:Hbit; [|reflexivity].
      apply Hb in Hbit. rewrite Hnil in Hbit. apply elem_of_nil in Hbit as []. }
    split; [|exact Hnone]. intros fd Hbit. rewrite Hnone in Hbit.
    discriminate.
  - split; [intros fd Hbit; apply Hmax, Hb, Hbit|].
    rewrite bool_decide_eq_false_2; [apply Hb, Hin|].
    apply Hr in Hin. lia.
Qed.

(** C6: whatever calls have been made on a multiplexer, each of
    [nfds_r], [nfds_w] and [nfds_e] is the highest descriptor of the
    interest set of its direction (the set [select] is handed for that
    direction), or the invalid-descriptor sentinel when that set is
    empty. *)
Theorem nfds_highest raw cs st :
  run cs (new raw) = Ok st ->
  highest_of (fds_r st) (nfds_r st)
  /\ highest_of (fds_w st) (nfds_w st)
  /\ highest_of (fds_e st) (nfds_e st).
Proof.
  intros Hrun. destruct (reachable_ok _ _ _ Hrun) as [Hd _ _ _ _ _].
  split; [|split].
  - apply (direction_highest dir_r), Hd.
  - apply (direction_highest dir_w), Hd.
  - apply (direction_highest dir_e), Hd.
Qed.

Lemma fIsSet_zero d : fIsSet 0 (event_flag d) = false.
Proof. destruct d; reflexivity. Qed.

(** C4, as amended: no entry of the registry ever stores the zero mask;
    a [modify] with the zero mask takes the descriptor out of the three
    interest sets and leaves the registry as it is, the entry of the
    descriptor included. *)
Theorem registry_events_nonzero raw cs st :
  run cs (new raw) = Ok st ->
  (forall fd events, (fd, events) ∈ fd_list st -> events <> 0)
  /\ (forall fd rc st',
        modify st fd 0 = Ok (rc, st') ->
        fd_list st' = fd_list st
        /\ FD_ISSET fd (fds_r st') = false
        /\ FD_ISSET fd (fds_w st') = false
        /\ FD_ISSET fd (fds_e st') = false).
Proof.
  intros Hrun. destruct (reachable_ok _ _ _ Hrun) as [Hd _ _ _ Hev _].
  split; [exact Hev|]. intros fd rc st' Hmod.
  destruct (modify_spec _ _ _ _ _ Hmod Hd)
    as (_ & _ & _ & Hd' & Hx & Hl & _).
  split; [exact Hl|].
  assert (Hout : forall d, FD_ISSET fd (fds d st') = false).
  { intros d. destruct (FD_ISSET fd (fds d st')) eqn:Hbit; [|reflexivity].
    apply (set_bits _ _ (Hd' d)), Hx in Hbit as [(_ & Hflag)|(_ & Hne)].
    - rewrite fIsSet_zero in Hflag. discriminate.
    - contradiction. }
  split; [apply (Hout dir_r)|]. split; [apply (Hout dir_w)|apply (Hout dir_e)].
Qed.

Lemma set_fds_same d st : set_fds d (fds d st) st = st.
Proof. destruct st, d; reflexivity. Qed.

Lemma set_x_set_same d st : set_x_set d (x_set d st) st = st.
Proof. destruct st, d; reflexivity. Qed.

(** On a descriptor that is not in the set of the direction, the block of
    [modify] and [remove] changes nothing. *)
Lemma unwatch_absent d fd st :
  direction_ok d st -> 0 <= fd < FD_SETSIZE -> fd ∉ x_set d st ->
  unwatch d fd st = Ok st.
Proof.
  intros [Hs Hb Hr Ht] Hrange Hout. unfold unwatch, FD_CLR.
  rewrite (proj2 (fd_in_range_spec fd) Hrange). cbn [bind].
  rewrite clearbit_unset, set_fds_same.
  2:{ destruct (Z.testbit (fds d st) fd) eqn:Hbit; [|reflexivity].
      apply Hb in Hbit. contradiction. }
  rewrite set_erase_absent, set_x_set_same by exact Hout.
  destruct (Z.eqb_spec fd (nfds_x d st)) as [Heq|_]; [|reflexivity].
  exfalso. rewrite Ht in Heq.
  destruct (top_cases _ Hs) as [(_ & Htop)|(Hin & _)].
  - pose proof event_invalid_fd_negative. lia.
  - rewrite <- Heq in Hin. contradiction.
Qed.

Lemma watch_total d fd st :
  0 <= fd < FD_SETSIZE -> exists st', watch d fd st = Ok st'.
Proof.
  intros Hr. unfold watch, FD_SET. apply fd_in_range_spec in Hr as ->.
  cbn [bind]. eauto.
Qed.

(** [add] succeeds on a descriptor in range with one of the three flags. *)
Lemma add_total st fd events :
  0 <= fd < FD_SETSIZE ->
  (exists d, fIsSet events (event_flag d) = true) ->
  exists st', add st fd events = Ok (1, st').
Proof.
  intros Hr (d0 & Hd0). pose proof event_invalid_fd_negative as Hneg.
  unfold add. destruct (Z.eqb_spec fd event_invalid_fd) as [|_]; [lia|].
  cbn [negb assert bind].
  assert (HB : forall d s, exists s',
    (if fIsSet events (event_flag d) then watch d fd s else Ok s) = Ok s').
  { intros d s. destruct (fIsSet events (event_flag d)); [|eauto].
    apply watch_total, Hr. }
  rewrite add_direction_block. destruct (HB dir_r st) as (st1 & ->).
  cbn [bind]. rewrite add_direction_block.
  destruct (HB dir_w st1) as (st2 & ->).
  cbn [bind]. rewrite add_direction_block.
  destruct (HB dir_e st2) as (st3 & ->).
  cbn [bind orb].
  assert (fIsSet events (event_flag dir_r) || fIsSet events (event_flag dir_w)
          || fIsSet events (event_flag dir_e) = true) as ->.
  { destruct d0; rewrite Hd0, ?orb_true_r; reflexivity. }
  cbn. eauto.
Qed.

(** [add] only returns on a mask with one of the three flags. *)
Lemma add_has_flag st fd events p :
  add st fd events = Ok p -> exists d, fIsSet events (event_flag d) = true.
Proof.
  unfold add. destruct (negb (fd =? event_invalid_fd)); [|discriminate].
  cbn [assert bind].
  destruct (fIsSet events (event_flag dir_r)) eqn:Hr; [eauto|].
  destruct (fIsSet events (event_flag dir_w)) eqn:Hw; [eauto|].
  destruct (fIsSet events (event_flag dir_e)) eqn:He; [eauto|].
  unfold add_direction. rewrite Hr. cbn [bind]. rewrite Hw. cbn [bind].
  rewrite He. cbn. discriminate.
Qed.

(** On a mask with none of the three flags [add] trips [assert(rc)]. *)
Lemma add_no_flag st fd events :
  fd <> event_invalid_fd ->
  (forall d, fIsSet events (event_flag d) = false) ->
  add st fd events = Fail assertion_failed.
Proof.
  intros Hfd Hno. unfold add. apply Z.eqb_neq in Hfd as ->.
  cbn [negb assert bind]. unfold add_direction.
  rewrite (Hno dir_r). cbn [bind]. rewrite (Hno dir_w). cbn [bind].
  rewrite (Hno dir_e). reflexivity.
Qed.

(** On a descriptor outside the range of an [fd_set], the first [FD_SET]
    that [add] comes to is undefined. *)
Lemma add_out_of_range st fd events :
  fd <> event_invalid_fd -> ~ 0 <= fd < FD_SETSIZE ->
  (exists d, fIsSet events (event_flag d) = true) ->
  add st fd events = Fail undefined_behaviour.
Proof.
  intros Hfd Hout (d0 & Hd0). unfold add. apply Z.eqb_neq in Hfd as ->.
  cbn [negb assert bind]. unfold add_direction, watch, FD_SET.
  assert (fd_in_range fd = false) as ->.
  { destruct (fd_in_range fd) eqn:Hr; [|reflexivity].
    apply fd_in_range_spec in Hr. contradiction. }
  destruct (fIsSet events (event_flag dir_r)) eqn:Hr; [reflexivity|].
  cbn [bind].
  destruct (fIsSet events (event_flag dir_w)) eqn:Hw; [reflexivity|].
  cbn [bind].
  destruct (fIsSet events (event_flag dir_e)) eqn:He; [reflexivity|].
  destruct d0; congruence.
Qed.

(** C10: on a descriptor that is not in the registry, [modify] with a
    non-zero mask does what [add] does and nothing more: it ends as [add]
    ends.  It returns exactly when the descriptor is within the range of
    an [fd_set] and the mask has one of the three flags, and then it has
    registered the descriptor as [add] does, with the mask as a [uint]
    and the interest of its flags.  On a mask without any of the flags,
    and on the sentinel, an assertion fails; on another descriptor outside
    the range the call is undefined. *)
Theorem modify_unregistered_is_add raw cs st fd events :
  run cs (new raw) = Ok st ->
  fd ∉ StdMap.keys (fd_list st) -> events <> 0 ->
  modify st fd events
  = (let* (_, st') := add st fd events in Ok (0, st'))%result
  /\ ((exists rc st', modify st fd events = Ok (rc, st'))
      <-> 0 <= fd < FD_SETSIZE
          /\ exists d, fIsSet events (event_flag d) = true)
  /\ (0 <= fd < FD_SETSIZE ->
      (exists d, fIsSet events (event_flag d) = true) ->
      exists st', add st fd events = Ok (1, st')
                  /\ modify st fd events = Ok (0, st')
                  /\ fd_list st'
                     = StdMap.assign fd (uint events) (fd_list st)
                  /\ forall d y,
                      FD_ISSET y (fds d st') = true
                      <-> (y = fd /\ fIsSet events (event_flag d) = true)
                          \/ FD_ISSET y (fds d st) = true)
  /\ ((forall d, fIsSet events (event_flag d) = false) ->
      modify st fd events = Fail assertion_failed)
  /\ (fd = event_invalid_fd -> modify st fd events = Fail assertion_failed)
  /\ (fd <> event_invalid_fd -> ~ 0 <= fd < FD_SETSIZE ->
      (exists d, fIsSet events (event_flag d) = true) ->
      modify st fd events = Fail undefined_behaviour).
Proof.
  intros Hrun Hnew Hnz.
  destruct (reachable_ok _ _ _ Hrun) as [Hd Hreg _ _ _ _].
  assert (Heq : modify st fd events
                = (let* (_, st') := add st fd events in Ok (0, st'))%result).
  { unfold modify.
    destruct (add st fd events) as [[rc st0]|f] eqn:Hadd.
    - destruct (add_spec _ _ _ _ _ Hadd Hd)
        as (_ & Hfd & Hr & _ & Hd0 & Hx & _).
      apply Z.eqb_neq in Hfd, Hnz. rewrite Hfd, Hnz. cbn [negb assert bind].
      assert (HB : forall d, modify_direction d fd events st0 = Ok st0).
      { intros d. unfold modify_direction.
        destruct (fIsSet events (event_flag d)) eqn:Hflag; [reflexivity|].
        cbn [negb]. apply unwatch_absent; [apply Hd0|exact Hr|].
        intros Hin. apply Hx in Hin as [(_ & Hset)|Hin]; [congruence|].
        apply Hnew, (Hreg d), Hin. }
      rewrite HB. cbn [bind]. rewrite HB. cbn [bind]. rewrite HB.
      reflexivity.
    - apply Z.eqb_neq in Hnz. rewrite Hnz. cbn [negb].
      destruct (negb (fd =? event_invalid_fd)) eqn:Hfd; cbn [assert bind].
      + reflexivity.
      + unfold add in Hadd. rewrite Hfd in Hadd. exact Hadd. }
  assert (Hret : 0 <= fd < FD_SETSIZE ->
    (exists d, fIsSet events (event_flag d) = true) ->
    exists st', add st fd events = Ok (1, st')
                /\ modify st fd events = Ok (0, st')
                /\ fd_list st' = StdMap.assign fd (uint events) (fd_list st)
                /\ forall d y,
                    FD_ISSET y (fds d st') = true
                    <-> (y = fd /\ fIsSet events (event_flag d) = true)
                        \/ FD_ISSET y (fds d st) = true).
  { intros Hr Hflag.
    destruct (add_total st fd events Hr Hflag) as (st' & Hadd).
    exists st'. split; [exact Hadd|]. rewrite Heq, Hadd.
    split; [reflexivity|].
    destruct (add_spec _ _ _ _ _ Hadd Hd)
      as (_ & _ & _ & _ & Hd' & Hx & Hl & _).
    split; [exact Hl|]. intros d y.
    rewrite <- (set_bits _ _ (Hd' d)), <- (set_bits _ _ (Hd d)). apply Hx. }
  split; [exact Heq|]. split; [|split; [exact Hret|split; [|split]]].
  - split.
    + intros (rc & st' & Hmod). rewrite Heq in Hmod.
      destruct (add st fd events) as [[rc0 st0]|] eqn:Hadd; [|discriminate].
      split; [apply (add_spec _ _ _ _ _ Hadd Hd)|].
      eapply add_has_flag, Hadd.
    + intros (Hr & Hflag).
      destruct (Hret Hr Hflag) as (st' & _ & Hmod & _). eauto.
  - intros Hno. destruct (Z.eqb_spec fd event_invalid_fd) as [Hfd|Hfd].
    + unfold modify. rewrite (proj2 (Z.eqb_eq _ _) Hfd). reflexivity.
    + rewrite Heq, (add_no_flag st fd events Hfd Hno). reflexivity.
  - intros Hfd. unfold modify. rewrite (proj2 (Z.eqb_eq _ _) Hfd).
    reflexivity.
  - intros Hfd Hout Hflag.
    rewrite Heq, (add_out_of_range st fd events Hfd Hout Hflag). reflexivity.
Qed.

End Registry.

(** ** The loop of [getEvent] after a [wait] *)

Section Iteration.
Context `{Platform}.
Import EventSelect SelectInvariant.

Lemma satisfied_set_fd_iter it st fd :
  satisfied (set_fd_iter it st) fd = satisfied st fd.
Proof. reflexivity. Qed.

Lemma getEvent_loop_set_fd_iter it st rest :
  forall fd events,
    getEvent_loop (set_fd_iter it st) rest fd events
    = getEvent_loop st rest fd events.
Proof.
  induction rest as [|[k v] rest IH]; intros fd events; cbn; [reflexivity|].
  rewrite IH. reflexivity.
Qed.

Lemma ready_in_set_fd_iter it st rest :
  ready_in (set_fd_iter it st) rest = ready_in st rest.
Proof. reflexivity. Qed.

Lemma ready_in_cons st k v rest :
  ready_in st ((k, v) :: rest) =
    if satisfied st k =? 0 then ready_in st rest
    else (k, satisfied st k) :: ready_in st rest.
Proof.
  unfold ready_in, StdMap.keys. rewrite !fmap_cons, filter_cons. cbn.
  destruct (Z.eqb_spec (satisfied st k) 0) as [Hz|Hnz];
    destruct (decide (satisfied st k <> 0)); try contradiction; reflexivity.
Qed.

(** One call of the loop: either no node of [rest] is ready and the loop
    runs off the end, or it stops behind the first ready node. *)
Lemma getEvent_loop_cases st rest :
  forall fd events,
    (ready_in st rest = []
     /\ exists fd' events',
         getEvent_loop st rest fd events
         = (false, fd', events', StdMap.past_end))
    \/ (exists skipped k v rest',
          rest = skipped ++ (k, v) :: rest'
          /\ ready_in st rest = (k, satisfied st k) :: ready_in st rest'
          /\ getEvent_loop st rest fd events
             = (true, k, satisfied st k, StdMap.begin rest')).
Proof.
  induction rest as [|[k v] rest IH]; intros fd events.
  - left. split; [reflexivity|]. cbn. eauto.
  - rewrite ready_in_cons. cbn [getEvent_loop].
    destruct (Z.eqb_spec (satisfied st k) 0) as [Hz|Hnz]; cbn [negb].
    + destruct (IH k (satisfied st k))
        as [(Hnone & Hloop)|(skipped & k' & v' & rest' & -> & Hr & Hloop)].
      * left. auto.
      * right. exists ((k, v) :: skipped), k', v', rest'. auto.
    + right. exists [], k, v, rest. auto.
Qed.

(** The iterator designates the first node of [rest], which is what is
    left of the registry to visit. *)
Lemma from_begin front rest :
  NoDup (StdMap.keys (front ++ rest)) ->
  StdMap.from (StdMap.begin rest) (front ++ rest) = Some rest.
Proof.
  intros Hnd. destruct rest as [|[k v] rest]; [reflexivity|]. cbn.
  unfold StdMap.keys in *. rewrite fmap_app, fmap_cons in Hnd. cbn in Hnd.
  rewrite bool_decide_eq_true_2.
  - f_equal. apply seek_at. apply NoDup_app in Hnd as (_ & Hdisj & _).
    intros Hin. apply (Hdisj k Hin). apply elem_of_cons. auto.
  - rewrite fmap_app, fmap_cons. apply elem_of_app. right.
    apply elem_of_cons. auto.
Qed.

Lemma getEvent_at st front rest fd events :
  fd_list st = front ++ rest -> fd_list st <> [] ->
  NoDup (StdMap.keys (fd_list st)) ->
  fd_iter st = StdMap.begin rest ->
  getEvent st fd events =
    (let '(found, fd', events', iter) := getEvent_loop st rest fd events in
     Ok (found, fd', events', set_fd_iter iter st)).
Proof.
  intros Hl Hne Hnd Hit. unfold getEvent.
  destruct (fd_list st) as [|p l] eqn:Hfl; [contradiction|].
  cbn [length]. destruct (Z.ltb_spec 0 (Z.of_nat (S (length l)))); [|lia].
  cbn [assert bind]. rewrite Hit, Hl, from_begin by (rewrite <- Hl; exact Hnd).
  reflexivity.
Qed.

(** Enough calls of [getEvent] hand out the ready descriptors of the
    rest of the registry, each once and in the order of the registry, and
    the call after the last of them returns false. *)
Lemma drain_from fuel :
  forall st front rest fd events,
    fd_list st = front ++ rest -> fd_list st <> [] ->
    NoDup (StdMap.keys (fd_list st)) ->
    fd_iter st = StdMap.begin rest ->
    (length rest < fuel)%nat ->
    drain fuel st fd events = Ok (ready_in st rest, exhausted st).
Proof.
  induction fuel as [|fuel IH]; intros st front rest fd events Hl Hne Hnd Hit
    Hfuel; [lia|].
  cbn [drain]. rewrite (getEvent_at st front rest) by assumption.
  destruct (getEvent_loop_cases st rest fd events)
    as [(Hnone & fd' & events' & ->)
       |(skipped & k & v & rest' & -> & Hr & ->)].
  - cbn. rewrite Hnone. reflexivity.
  - cbn [bind]. 
    rewrite (IH (set_fd_iter (StdMap.begin rest') st)
               (front ++ skipped ++ [(k, v)]) rest').
    + cbn. rewrite Hr. reflexivity.
    + cbn. rewrite Hl, <- !app_assoc. reflexivity.
    + exact Hne.
    + exact Hnd.
    + reflexivity.
    + rewrite length_app in Hfuel. cbn in Hfuel. lia.
Qed.

Lemma ascending_NoDup l : StronglySorted Z.lt l -> NoDup l.
Proof.
  induction 1 as [|z l Hl IH Hz]; constructor; [|exact IH].
  intros Hin. rewrite Forall_forall in Hz. specialize (Hz z Hin). lia.
Qed.

(** After a [wait] that returned neither 0 nor -1, on a multiplexer with
    a descriptor registered, the loop hands out the ready descriptors of
    the registry. *)
Lemma drain_after_wait select st n st1 fd events :
  ok st -> fd_list st <> [] ->
  wait select st = Ok (n, st1) -> n <> 0 -> n <> -1 ->
  drain (S (length (fd_list st1))) st1 fd events
  = Ok (ready st1, exhausted st1).
Proof.
  intros Hok Hne Hwait Hn0 Hn1.
  pose proof (ok_wait _ _ _ _ Hwait Hok) as [_ _ Hasc _ _ _].
  destruct (wait_spec _ _ _ _ Hwait) as (_ & Hl & _ & _ & _ & _ & _ & Hit & _).
  apply (drain_from _ st1 [] (fd_list st1)).
  - reflexivity.
  - rewrite Hl. exact Hne.
  - apply ascending_NoDup, Hasc.
  - rewrite Hit, Hl by assumption. reflexivity.
  - lia.
Qed.

(** Once the loop has run off the registry, [getEvent] keeps returning
    false and assigns nothing. *)
Lemma getEvent_exhausted st fd events :
  fd_list st <> [] ->
  getEvent (exhausted st) fd events = Ok (false, fd, events, exhausted st).
Proof.
  intros Hne. unfold getEvent, exhausted. cbn.
  destruct (fd_list st) as [|p l]; [contradiction|]. reflexivity.
Qed.

(** The descriptors handed out are those of the registry with a
    satisfied event, in ascending order. *)
Lemma ready_spec st :
  StronglySorted Z.lt (StdMap.keys (fd_list st)) ->
  StronglySorted Z.lt (ready st).*1
  /\ (forall fd events,
        (fd, events) ∈ ready st <->
        fd ∈ StdMap.keys (fd_list st) /\ events = satisfied st fd
        /\ events <> 0).
Proof.
  intros Hasc. unfold ready, ready_in. split.
  - induction Hasc as [|k l Hl IH Hk]; [constructor|].
    rewrite fmap_cons, filter_cons. cbn.
    destruct (decide (satisfied st k <> 0)); [|exact IH].
    cbn. constructor; [exact IH|]. rewrite Forall_forall in *.
    intros y Hy. apply list_elem_of_fmap in Hy as ([y' e] & -> & Hy).
    apply list_elem_of_filter in Hy as (_ & Hy).
    apply list_elem_of_fmap in Hy as (y'' & [= -> ->] & Hy). cbn. auto.
  - intros fd events. rewrite list_elem_of_filter, list_elem_of_fmap. cbn.
    split.
    + intros (Hnz & y & [= -> ->] & Hy). auto.
    + intros (Hin & -> & Hnz). eauto.
Qed.

End Iteration.

(** ** What [wait] returns against what [getEvent] hands out *)

Section Counting.
Context `{Platform}.
Import EventSelect SelectInvariant.

Lemma fd_range_elem fd : fd ∈ fd_range <-> 0 <= fd < FD_SETSIZE.
Proof.
  unfold fd_range. rewrite list_elem_of_fmap. split.
  - intros (i & -> & Hi). apply elem_of_seq in Hi. lia.
  - intros Hfd. exists (Z.to_nat fd). split; [lia|].
    apply elem_of_seq. lia.
Qed.

Lemma fd_range_NoDup : NoDup fd_range.
Proof.
  unfold fd_range. apply NoDup_fmap; [|apply NoDup_seq].
  intros i j Hij. lia.
Qed.

Lemma fd_subset_spec a b fd :
  fd_subset a b = true -> FD_ISSET fd a = true -> FD_ISSET fd b = true.
Proof.
  unfold fd_subset, FD_ISSET. intros Hsub Hbit. apply Z.eqb_eq in Hsub.
  rewrite <- Hsub, Z.land_spec in Hbit. apply andb_true_iff in Hbit. tauto.
Qed.

(** A set all of whose descriptors are among [keys] has as many
    descriptors as there are keys in it. *)
Lemma fd_count_keys s keys :
  NoDup keys ->
  (forall fd, fd ∈ keys -> 0 <= fd < FD_SETSIZE) ->
  (forall fd, FD_ISSET fd s = true -> fd ∈ keys) ->
  fd_count s = Z.of_nat (length (members_of s keys)).
Proof.
  intros Hnd Hrange Hin. unfold fd_count, members_of. f_equal.
  apply Permutation_length, NoDup_Permutation.
  - apply NoDup_filter, fd_range_NoDup.
  - apply NoDup_filter, Hnd.
  - intros fd. rewrite !list_elem_of_filter, fd_range_elem.
    split; intros (Hbit & _); auto.
Qed.

Lemma satisfied_cases st fd :
  let r := FD_ISSET fd (t_fds_r st) in
  let w := FD_ISSET fd (t_fds_w st) in
  let e := FD_ISSET fd (t_fds_e st) in
  events_in (satisfied st fd) = Z.b2z r + Z.b2z w + Z.b2z e
  /\ (satisfied st fd = 0 <-> r = false /\ w = false /\ e = false).
Proof.
  unfold satisfied.
  destruct (FD_ISSET fd (t_fds_r st)), (FD_ISSET fd (t_fds_w st)),
    (FD_ISSET fd (t_fds_e st)); vm_compute; intuition discriminate.
Qed.

Lemma members_of_cons s k keys :
  Z.of_nat (length (members_of s (k :: keys)))
  = Z.b2z (FD_ISSET k s) + Z.of_nat (length (members_of s keys)).
Proof.
  unfold members_of. rewrite filter_cons.
  destruct (FD_ISSET k s) eqn:Hbit.
  - rewrite decide_True by reflexivity. cbn [length Z.b2z]. lia.
  - rewrite decide_False by discriminate. cbn [Z.b2z]. lia.
Qed.

(** The events handed out along the registry are the bits [select] left
    set on its keys. *)
Lemma total_events_ready st rest :
  total_events (ready_in st rest)
  = Z.of_nat (length (members_of (t_fds_r st) (StdMap.keys rest)))
    + Z.of_nat (length (members_of (t_fds_w st) (StdMap.keys rest)))
    + Z.of_nat (length (members_of (t_fds_e st) (StdMap.keys rest))).
Proof.
  induction rest as [|[k v] rest IH]; [reflexivity|].
  rewrite ready_in_cons. unfold StdMap.keys in *. rewrite fmap_cons.
  rewrite !members_of_cons. cbn [fst].
  destruct (satisfied_cases st k) as (Hev & Hzero).
  destruct (Z.eqb_spec (satisfied st k) 0) as [Hz|Hnz].
  - apply Hzero in Hz as (-> & -> & ->). cbn [Z.b2z]. lia.
  - unfold total_events in *. rewrite fmap_cons. cbn [foldr snd].
    rewrite Hev, IH. lia.
Qed.

Lemma ready_length st rest :
  Z.of_nat (length (ready_in st rest)) <= total_events (ready_in st rest).
Proof.
  induction rest as [|[k v] rest IH]; [reflexivity|].
  rewrite ready_in_cons.
  destruct (Z.eqb_spec (satisfied st k) 0) as [Hz|Hnz]; [exact IH|].
  unfold total_events in *. rewrite fmap_cons. cbn [foldr snd length].
  destruct (satisfied_cases st k) as (Hev & Hzero). rewrite Hev.
  destruct (FD_ISSET k (t_fds_r st)), (FD_ISSET k (t_fds_w st)),
    (FD_ISSET k (t_fds_e st)); cbn [Z.b2z];
    first [lia | exfalso; apply Hnz, Hzero; auto].
Qed.

(** C2, as amended: after a [wait] that returned a positive [n] from a
    [select] that kept its contract, the loop of [getEvent] hands out
    each descriptor with a satisfied event exactly once, with its
    satisfied events, and returns false from then on; [n] is the number
    of events handed out, over all the descriptors, so the number of
    descriptors handed out is at most [n]. *)
Theorem getEvent_hands_out_ready raw cs st select n st1 fd events :
  run cs (new raw) = Ok st ->
  wait select st = Ok (n, st1) -> 0 < n ->
  select_succeeds (fds_r st) (fds_w st) (fds_e st) (select_call select st)
  = true ->
  drain (S (length (fd_list st1))) st1 fd events
  = Ok (ready st1, exhausted st1)
  /\ NoDup (ready st1).*1
  /\ (forall k, k ∈ (ready st1).*1 <-> satisfied st1 k <> 0)
  /\ (forall k e, (k, e) ∈ ready st1 -> e = satisfied st1 k)
  /\ n = total_events (ready st1)
  /\ Z.of_nat (length (ready st1)) <= n
  /\ (forall k e,
        getEvent (exhausted st1) k e = Ok (false, k, e, exhausted st1)).
Proof.
  intros Hrun Hwait Hn Hsel.
  pose proof (reachable_ok _ _ _ Hrun) as Hok.
  pose proof (ok_wait _ _ _ _ Hwait Hok) as [_ _ Hasc1 Hrg1 _ _].
  pose proof Hok as [Hd Hreg Hasc Hrg _ _].
  destruct (wait_spec _ _ _ _ Hwait)
    as (_ & Hl & Hr & Hw & He & Hret & Hfail & _).
  unfold select_succeeds in Hsel.
  apply andb_true_iff in Hsel as (Hsel & Hcount).
  apply andb_true_iff in Hsel as (Hsel & Hse).
  apply andb_true_iff in Hsel as (Hsr & Hsw).
  apply Z.eqb_eq in Hcount.
  assert (Hneg : sel_ret (select_call select st) <> -1).
  { intros Hm. apply Hfail in Hm. lia. }
  apply Hret in Hneg. rewrite <- Hneg, <- Hr, <- Hw, <- He in Hcount.
  assert (Hkeys : forall d k,
    FD_ISSET k (t_fds d st1) = true -> k ∈ StdMap.keys (fd_list st1)).
  { intros d k Hbit. rewrite Hl. apply (Hreg d), (set_bits _ _ (Hd d)).
    destruct d; cbn in *.
    - rewrite Hr in Hbit. eapply fd_subset_spec; eauto.
    - rewrite Hw in Hbit. eapply fd_subset_spec; eauto.
    - rewrite He in Hbit. eapply fd_subset_spec; eauto. }
  pose proof (ascending_NoDup _ Hasc1) as Hnd.
  rewrite (fd_count_keys (t_fds_r st1) _ Hnd Hrg1 (Hkeys dir_r)) in Hcount.
  rewrite (fd_count_keys (t_fds_w st1) _ Hnd Hrg1 (Hkeys dir_w)) in Hcount.
  rewrite (fd_count_keys (t_fds_e st1) _ Hnd Hrg1 (Hkeys dir_e)) in Hcount.
  rewrite <- (total_events_ready st1 (fd_list st1)) in Hcount.
  change (ready_in st1 (fd_list st1)) with (ready st1) in Hcount.
  assert (Hne : fd_list st <> []).
  { intros Hnil. rewrite <- Hl in Hnil. unfold ready in Hcount.
    rewrite Hnil in Hcount. cbn in Hcount. lia. }
  destruct (ready_spec st1 Hasc1) as (Hsorted & Hready).
  split; [apply (drain_after_wait select st n); auto; lia|].
  split; [apply ascending_NoDup, Hsorted|].
  split; [|split; [|split; [|split]]].
  - intros k. rewrite list_elem_of_fmap. split.
    + intros ([k' e] & -> & Hin). apply Hready in Hin as (_ & -> & Hnz).
      exact Hnz.
    + intros Hnz. exists (k, satisfied st1 k). split; [reflexivity|].
      apply Hready. split; [|auto].
      destruct (satisfied_cases st1 k) as (_ & Hzero).
      destruct (FD_ISSET k (t_fds_r st1)) eqn:Hbr;
        [apply (Hkeys dir_r), Hbr|].
      destruct (FD_ISSET k (t_fds_w st1)) eqn:Hbw;
        [apply (Hkeys dir_w), Hbw|].
      destruct (FD_ISSET k (t_fds_e st1)) eqn:Hbe;
        [apply (Hkeys dir_e), Hbe|].
      exfalso. apply Hnz, Hzero. auto.
  - intros k e Hin. apply Hready in Hin. tauto.
  - exact Hcount.
  - rewrite Hcount. apply (ready_length st1 (fd_list st1)).
  - intros k e. apply getEvent_exhausted. rewrite Hl. exact Hne.
Qed.

(** C3, as amended: after a [wait] that returned neither 0 nor -1, on a
    multiplexer with a descriptor registered, the loop of [getEvent]
    hands out the registered descriptors with a satisfied event in
    ascending order of descriptor, whatever the order of the calls that
    registered them. *)
Theorem getEvent_ascending raw cs st select n st1 fd events :
  run cs (new raw) = Ok st -> fd_list st <> [] ->
  wait select st = Ok (n, st1) -> n <> 0 -> n <> -1 ->
  drain (S (length (fd_list st1))) st1 fd events
  = Ok (ready st1, exhausted st1)
  /\ StronglySorted Z.lt (ready st1).*1
  /\ (forall k e,
        (k, e) ∈ ready st1 <->
        k ∈ StdMap.keys (fd_list st) /\ e = satisfied st1 k /\ e <> 0).
Proof.
  intros Hrun Hne Hwait Hn0 Hn1.
  pose proof (reachable_ok _ _ _ Hrun) as Hok.
  pose proof (ok_wait _ _ _ _ Hwait Hok) as [_ _ Hasc1 _ _ _].
  destruct (wait_spec _ _ _ _ Hwait) as (_ & Hl & _).
  destruct (ready_spec st1 Hasc1) as (Hsorted & Hready).
  split; [apply (drain_after_wait select st n); auto|].
  split; [exact Hsorted|]. intros k e. rewrite Hready, Hl. reflexivity.
Qed.

End Counting.

(** ** The properties on a Linux build, at concrete inputs *)

Section Instances.
Import EventSelect.
#[local] Existing Instance linux.

(** C2 as stated fails: descriptor 5 is watched for reading and writing
    and is ready for both; [wait] returns 2, and the loop of [getEvent]
    hands out one descriptor. *)
Lemma wait_counts_events_not_descriptors :
  exists st st1 st2,
    run [call_add 5 3] (new Inputs.raw) = Ok st
    /\ select_succeeds (fds_r st) (fds_w st) (fds_e st)
         (select_call Inputs.select_all_ready st) = true
    /\ wait Inputs.select_all_ready st = Ok (2, st1)
    /\ drain 2 st1 0 0 = Ok ([(5, 3)], st2)
    /\ getEvent st2 0 0 = Ok (false, 0, 0, st2)
    /\ Z.of_nat (length [(5, 3)]) <> 2.
Proof.
  eexists _, _, _. split; [vm_compute; reflexivity|].
  split; [vm_compute; reflexivity|]. split; [vm_compute; reflexivity|].
  split; [vm_compute; reflexivity|]. split; [vm_compute; reflexivity|].
  discriminate.
Qed.

(** Descriptors 5 (reading and writing) and 9 (reading), all ready:
    [wait] returns 3 and the loop hands out 5 with both events, then 9. *)
Lemma getEvent_hands_out_ready_witness :
  exists st st1,
    run [call_add 5 3; call_add 9 1] (new Inputs.raw) = Ok st
    /\ wait Inputs.select_all_ready st = Ok (3, st1)
    /\ ready st1 = [(5, 3); (9, 1)]
    /\ drain (S (length (fd_list st1))) st1 0 0
       = Ok (ready st1, exhausted st1)
    /\ NoDup (ready st1).*1
    /\ (forall k, k ∈ (ready st1).*1 <-> satisfied st1 k <> 0)
    /\ (forall k e, (k, e) ∈ ready st1 -> e = satisfied st1 k)
    /\ 3 = total_events (ready st1)
    /\ Z.of_nat (length (ready st1)) <= 3
    /\ (forall k e,
          getEvent (exhausted st1) k e = Ok (false, k, e, exhausted st1)).
Proof.
  eexists _, _. split; [vm_compute; reflexivity|].
  split; [vm_compute; reflexivity|]. split; [vm_compute; reflexivity|].
  eapply (getEvent_hands_out_ready Inputs.raw [call_add 5 3; call_add 9 1]
            _ Inputs.select_all_ready 3 _ 0 0).
  - vm_compute. reflexivity.
  - vm_compute. reflexivity.
  - reflexivity.
  - vm_compute. reflexivity.
Defined.

(** The scenario of the specification: descriptor 5 is registered for
    reading and writing, descriptor 9 for reading, and both are ready for
    reading; the loop hands out 5 then 9, each with the read event, and
    then returns false. *)
Lemma scenario_5_then_9 :
  exists st st1 st2,
    run [call_add 5 3; call_add 9 1] (new Inputs.raw) = Ok st
    /\ wait Inputs.select_read_ready st = Ok (2, st1)
    /\ drain 3 st1 0 0 = Ok ([(5, 1); (9, 1)], st2)
    /\ getEvent st2 9 1 = Ok (false, 9, 1, st2).
Proof.
  eexists _, _, _. split; [vm_compute; reflexivity|].
  split; [vm_compute; reflexivity|]. split; [vm_compute; reflexivity|].
  vm_compute. reflexivity.
Qed.

(** C3 as stated fails: descriptor 9 is registered before descriptor 5,
    both are ready, and the loop of [getEvent] hands out 5 before 9. *)
Lemma registration_order_not_followed :
  exists st st1 st2,
    run [call_add 9 1; call_add 5 1] (new Inputs.raw) = Ok st
    /\ registration_order [call_add 9 1; call_add 5 1] [] = [9; 5]
    /\ wait Inputs.select_all_ready st = Ok (2, st1)
    /\ drain 3 st1 0 0 = Ok ([(5, 1); (9, 1)], st2)
    /\ [(5, 1); (9, 1)].*1
       <> registration_order [call_add 9 1; call_add 5 1] [].
Proof.
  eexists _, _, _. split; [vm_compute; reflexivity|].
  split; [vm_compute; reflexivity|]. split; [vm_compute; reflexivity|].
  split; [vm_compute; reflexivity|]. vm_compute. discriminate.
Qed.

(** Descriptor 9, then descriptor 5, both ready: handed out ascending. *)
Lemma getEvent_ascending_witness :
  exists st st1,
    run [call_add 9 1; call_add 5 1] (new Inputs.raw) = Ok st
    /\ wait Inputs.select_all_ready st = Ok (2, st1)
    /\ ready st1 = [(5, 1); (9, 1)]
    /\ drain (S (length (fd_list st1))) st1 0 0
       = Ok (ready st1, exhausted st1)
    /\ StronglySorted Z.lt (ready st1).*1
    /\ (forall k e,
          (k, e) ∈ ready st1 <->
          k ∈ StdMap.keys (fd_list st) /\ e = satisfied st1 k /\ e <> 0).
Proof.
  eexists _, _. split; [vm_compute; reflexivity|].
  split; [vm_compute; reflexivity|]. split; [vm_compute; reflexivity|].
  eapply (getEvent_ascending Inputs.raw [call_add 9 1; call_add 5 1]
            _ Inputs.select_all_ready 2 _ 0 0).
  - vm_compute. reflexivity.
  - vm_compute. discriminate.
  - vm_compute. reflexivity.
  - discriminate.
  - discriminate.
Defined.

(** C4 as stated fails: after [modify(5, 0)] on the registered
    descriptor 5, the registry still holds its entry, with the mask it
    was registered with, and the descriptor is in no interest set. *)
Lemma modify_zero_keeps_entry :
  exists st,
    run [call_add 5 1; call_modify 5 0] (new Inputs.raw) = Ok st
    /\ fd_list st = [(5, 1)]
    /\ 5 ∈ StdMap.keys (fd_list st)
    /\ fds_r st = 0 /\ fds_w st = 0 /\ fds_e st = 0.
Proof.
  eexists. split; [vm_compute; reflexivity|].
  split; [vm_compute; reflexivity|].
  split; [refine (bool_decide_unpack _ _); vm_compute; exact I|].
  repeat split.
Qed.

(** The registry after two registrations, and a [modify] with the zero
    mask on it. *)
Lemma registry_events_nonzero_witness :
  exists st,
    run [call_add 5 1; call_add 9 6] (new Inputs.raw) = Ok st
    /\ (forall fd events, (fd, events) ∈ fd_list st -> events <> 0)
    /\ (forall fd rc st',
          modify st fd 0 = Ok (rc, st') ->
          fd_list st' = fd_list st
          /\ FD_ISSET fd (fds_r st') = false
          /\ FD_ISSET fd (fds_w st') = false
          /\ FD_ISSET fd (fds_e st') = false).
Proof.
  eexists. split; [vm_compute; reflexivity|].
  apply (registry_events_nonzero Inputs.raw [call_add 5 1; call_add 9 6]).
  vm_compute. reflexivity.
Defined.

(** The highest descriptors after registrations, a change of interest
    and a removal. *)
Lemma nfds_highest_witness :
  exists st,
    run [call_add 5 3; call_add 9 1; call_modify 9 2; call_remove 5]
      (new Inputs.raw) = Ok st
    /\ nfds_r st = -1 /\ nfds_w st = 9 /\ nfds_e st = -1
    /\ highest_of (fds_r st) (nfds_r st)
    /\ highest_of (fds_w st) (nfds_w st)
    /\ highest_of (fds_e st) (nfds_e st).
Proof.
  eexists. split; [vm_compute; reflexivity|].
  split; [vm_compute; reflexivity|]. split; [vm_compute; reflexivity|].
  split; [vm_compute; reflexivity|].
  apply (nfds_highest Inputs.raw
           [call_add 5 3; call_add 9 1; call_modify 9 2; call_remove 5]).
  vm_compute. reflexivity.
Defined.

(** C10 as stated fails: on a multiplexer that only knows descriptor 5,
    [modify(9, 8)] has a non-zero mask and a descriptor that was never
    registered, and trips [assert(rc)] of [add]; [modify(1024, read)] is
    undefined. *)
Lemma modify_unregistered_can_fail :
  exists st,
    run [call_add 5 1] (new Inputs.raw) = Ok st
    /\ (9 ∉ StdMap.keys (fd_list st)) /\ 8 <> 0
    /\ modify st 9 8 = Fail assertion_failed
    /\ (1024 ∉ StdMap.keys (fd_list st)) /\ 1 <> 0
    /\ modify st 1024 1 = Fail undefined_behaviour.
Proof.
  eexists. split; [vm_compute; reflexivity|].
  split.
  { intros Hin. apply (bool_decide_pack _) in Hin. vm_compute in Hin.
    exact Hin. }
  split; [discriminate|]. split; [vm_compute; reflexivity|].
  split.
  { intros Hin. apply (bool_decide_pack _) in Hin. vm_compute in Hin.
    exact Hin. }
  split; [discriminate|]. vm_compute. reflexivity.
Qed.

(** [modify(9, write)] on a multiplexer that only knows descriptor 5. *)
Lemma modify_unregistered_is_add_witness :
  exists st,
    run [call_add 5 1] (new Inputs.raw) = Ok st
    /\ modify st 9 2
       = (let* (_, st') := add st 9 2 in Ok (0, st'))%result
    /\ ((exists rc st', modify st 9 2 = Ok (rc, st'))
        <-> 0 <= 9 < FD_SETSIZE
            /\ exists d, fIsSet 2 (event_flag d) = true)
    /\ (0 <= 9 < FD_SETSIZE ->
        (exists d, fIsSet 2 (event_flag d) = true) ->
        exists st', add st 9 2 = Ok (1, st')
                    /\ modify st 9 2 = Ok (0, st')
                    /\ fd_list st' = StdMap.assign 9 (uint 2) (fd_list st)
                    /\ forall d y,
                        FD_ISSET y (fds d st') = true
                        <-> (y = 9 /\ fIsSet 2 (event_flag d) = true)
                            \/ FD_ISSET y (fds d st) = true)
    /\ ((forall d, fIsSet 2 (event_flag d) = false) ->
        modify st 9 2 = Fail assertion_failed)
    /\ (9 = event_invalid_fd -> modify st 9 2 = Fail assertion_failed)
    /\ (9 <> event_invalid_fd -> ~ 0 <= 9 < FD_SETSIZE ->
        (exists d, fIsSet 2 (event_flag d) = true) ->
        modify st 9 2 = Fail undefined_behaviour).
Proof.
  eexists. split; [vm_compute; reflexivity|].
  apply (modify_unregistered_is_add Inputs.raw [call_add 5 1]).
  - vm_compute. reflexivity.
  - intros Hin. apply (bool_decide_pack _) in Hin. vm_compute in Hin.
    exact Hin.
  - discriminate.
Defined.

End Instances.

(** * Further properties of the multiplexer *)

Section MoreContainers.

Lemma erase_absent k (m : list (Z * Z)) :
  k ∉ StdMap.keys m -> StdMap.erase k m = m.
Proof.
  unfold StdMap.keys, StdMap.erase. induction m as [|[k0 v0] m IH];
    [reflexivity|].
  rewrite fmap_cons, not_elem_of_cons. intros (Hne & Hk).
  rewrite filter_cons_True by (cbn in *; congruence). f_equal. auto.
Qed.

(** Erasing the key just assigned gives back a map that did not have it. *)
Lemma erase_assign k v m :
  k ∉ StdMap.keys m -> StdMap.erase k (StdMap.assign k v m) = m.
Proof.
  induction m as [|[k0 v0] m IH]; intros Hk.
  - unfold StdMap.erase. cbn [StdMap.assign].
    rewrite filter_cons_False by (cbn; tauto). reflexivity.
  - assert (Hne : k <> k0 /\ k ∉ StdMap.keys m).
    { unfold StdMap.keys in *. rewrite fmap_cons, not_elem_of_cons in Hk.
      exact Hk. }
    destruct Hne as (Hne & Hk'). cbn [StdMap.assign].
    destruct (Z.ltb_spec k k0) as [Hlt|Hge].
    + unfold StdMap.erase. rewrite filter_cons_False by (cbn; tauto).
      apply (erase_absent k ((k0, v0) :: m) Hk).
    + destruct (Z.eqb_spec k k0) as [|_]; [contradiction|].
      unfold StdMap.erase in *.
      rewrite filter_cons_True by (cbn; congruence). f_equal. auto.
Qed.

(** The entries after [m[k] = v]: the one assigned, and those of the
    other keys. *)
Lemma elem_of_assign k v p m :
  StronglySorted Z.lt (StdMap.keys m) ->
  p ∈ StdMap.assign k v m <-> p = (k, v) \/ (p.1 <> k /\ p ∈ m).
Proof.
  unfold StdMap.keys. induction m as [|[k0 v0] m IH]; intros Hs.
  - cbn. rewrite list_elem_of_singleton, elem_of_nil. tauto.
  - rewrite fmap_cons in Hs. apply StronglySorted_inv in Hs as (Hm & Hk0).
    rewrite Forall_forall in Hk0. cbn in Hk0.
    assert (Hgt : forall q, q ∈ m -> k0 < q.1).
    { intros q Hq. apply Hk0, list_elem_of_fmap. eauto. }
    cbn [StdMap.assign]. destruct (Z.ltb_spec k k0) as [Hlt|Hge].
    + rewrite !elem_of_cons. split; [|tauto].
      intros [->|[->|Hp]]; [tauto|right; cbn; split; [lia|tauto]|].
      right. specialize (Hgt p Hp). split; [lia|tauto].
    + destruct (Z.eqb_spec k k0) as [->|Hne].
      * rewrite !elem_of_cons. split.
        -- intros [->|Hp]; [tauto|]. right. specialize (Hgt p Hp).
           split; [lia|tauto].
        -- intros [->|(Hne & [->|Hp])]; [tauto|cbn in Hne; lia|tauto].
      * rewrite !elem_of_cons, (IH Hm). split.
        -- intros [->|[->|(Hk & Hp)]]; [|tauto|tauto].
           right. cbn. split; [congruence|tauto].
        -- intros [->|(Hk & [->|Hp])]; tauto.
Qed.

Lemma elem_of_erase k p (m : list (Z * Z)) :
  p ∈ StdMap.erase k m <-> p ∈ m /\ p.1 <> k.
Proof. unfold StdMap.erase. rewrite list_elem_of_filter. tauto. Qed.

(** Two ascending lists with the same elements are the same list. *)
Lemma ascending_ext (l1 l2 : list Z) :
  StronglySorted Z.lt l1 -> StronglySorted Z.lt l2 ->
  (forall y, y ∈ l1 <-> y ∈ l2) -> l1 = l2.
Proof.
  intros H1 H2 Hiff. apply (StronglySorted_unique_strong Z.lt); auto.
  - intros x1 x2 _ _ Hlt Hgt. lia.
  - apply NoDup_Permutation; auto using ascending_NoDup.
Qed.

End MoreContainers.

Section MoreOperations.
Context `{Platform}.
Import EventSelect SelectInvariant.

(** Two well-formed objects with the same descriptors in the ordered set
    of a direction agree on the three members of that direction. *)
Lemma direction_ext d a b :
  direction_ok d a -> direction_ok d b ->
  (forall y, y ∈ x_set d a <-> y ∈ x_set d b) ->
  x_set d a = x_set d b /\ fds d a = fds d b /\ nfds_x d a = nfds_x d b.
Proof.
  intros [Hsa Hba Hra Hta] [Hsb Hbb Hrb Htb] Hiff.
  assert (Hx : x_set d a = x_set d b) by (apply ascending_ext; auto).
  split; [exact Hx|]. split; [|rewrite Hta, Htb, Hx; reflexivity].
  apply Z.bits_inj. intros y. unfold FD_ISSET in *.
  destruct (Z.testbit (fds d a) y) eqn:Ea, (Z.testbit (fds d b) y) eqn:Eb;
    try reflexivity.
  - apply Hba, Hiff, Hbb in Ea. congruence.
  - apply Hbb, Hiff, Hba in Eb. congruence.
Qed.

(** Three blocks in a row return when each of them does on a well-formed
    direction. *)
Lemma three_blocks_total (B : direction -> t -> result t) :
  (forall d st,
      direction_ok d st ->
      exists st', B d st = Ok st' /\ direction_ok d st' /\ frame d st st') ->
  forall st,
    (forall d, direction_ok d st) ->
    exists st1 st2 st3,
      B dir_r st = Ok st1 /\ B dir_w st1 = Ok st2 /\ B dir_e st2 = Ok st3.
Proof.
  intros HB st Hok.
  destruct (HB dir_r st (Hok dir_r)) as (st1 & H1 & _ & F1).
  pose proof (direction_ok_frame _ dir_w _ _ F1 ltac:(discriminate)
                (Hok dir_w)) as Hw1.
  pose proof (direction_ok_frame _ dir_e _ _ F1 ltac:(discriminate)
                (Hok dir_e)) as He1.
  destruct (HB dir_w st1 Hw1) as (st2 & H2 & _ & F2).
  pose proof (direction_ok_frame _ dir_e _ _ F2 ltac:(discriminate) He1)
    as He2.
  destruct (HB dir_e st2 He2) as (st3 & H3 & _).
  eauto 10.
Qed.

Lemma modify_total st fd events :
  (forall d, direction_ok d st) -> 0 <= fd < FD_SETSIZE ->
  events = 0 \/ (exists d, fIsSet events (event_flag d) = true) ->
  exists st', modify st fd events = Ok (0, st').
Proof.
  intros Hok Hr Hev. pose proof event_invalid_fd_negative as Hneg.
  unfold modify. destruct (Z.eqb_spec fd event_invalid_fd) as [|_]; [lia|].
  cbn [negb assert bind].
  assert (Hfirst : exists st0,
    (if negb (events =? 0)
     then (let* (_, st') := add st fd events in Ok st')%result
     else Ok st) = Ok st0 /\ forall d, direction_ok d st0).
  { destruct (Z.eqb_spec events 0) as [Hz|Hnz]; cbn [negb]; [eauto|].
    destruct Hev as [|Hflag]; [contradiction|].
    destruct (add_total st fd events Hr Hflag) as (st0 & Hadd).
    rewrite Hadd. cbn [bind]. exists st0. split; [reflexivity|].
    apply (add_spec _ _ _ _ _ Hadd Hok). }
  destruct Hfirst as (st0 & -> & Hok0). cbn [bind].
  destruct (three_blocks_total (fun d => modify_direction d fd events))
    with (st := st0) as (st1 & st2 & st3 & H1 & H2 & H3); [|exact Hok0|].
  - intros d s Hd. unfold modify_direction.
    destruct (fIsSet events (event_flag d)); cbn [negb].
    + exists s. auto using frame_refl.
    + destruct (unwatch_spec d fd s Hd Hr) as (s' & Hu & Hd' & _ & Hf).
      eauto.
  - cbn beta in H1, H2, H3. rewrite H1. cbn [bind]. rewrite H2. cbn [bind].
    rewrite H3. cbn. eauto.
Qed.

Lemma remove_total st fd :
  (forall d, direction_ok d st) -> 0 <= fd < FD_SETSIZE ->
  fd ∈ StdMap.keys (fd_list st) ->
  exists st', remove st fd = Ok (1, st').
Proof.
  intros Hok Hr Hin. pose proof event_invalid_fd_negative as Hneg.
  unfold remove. destruct (Z.eqb_spec fd event_invalid_fd) as [|_]; [lia|].
  cbn [negb assert bind]. unfold StdMap.find.
  rewrite (bool_decide_eq_true_2 _ Hin).
  rewrite bool_decide_eq_false_2 by discriminate. cbn [negb assert bind].
  destruct (three_blocks_total (fun d => unwatch d fd))
    with (st := st) as (st1 & st2 & st3 & H1 & H2 & H3); [|exact Hok|].
  - intros d s Hd.
    destruct (unwatch_spec d fd s Hd Hr) as (s' & Hu & Hd' & _ & Hf). eauto.
  - cbn beta in H1, H2, H3. rewrite H1. cbn [bind]. rewrite H2. cbn [bind].
    rewrite H3. cbn. eauto.
Qed.

(** What is in an interest set, by what is in the ordered set. *)
Lemma watched_iff d st st' (P : Z -> Prop) :
  direction_ok d st -> direction_ok d st' ->
  (forall y, y ∈ x_set d st' <-> P y \/ y ∈ x_set d st) ->
  forall y, FD_ISSET y (fds d st') = true
            <-> P y \/ FD_ISSET y (fds d st) = true.
Proof.
  intros Hd Hd' Hx y.
  rewrite <- (set_bits _ _ Hd'), <- (set_bits _ _ Hd). apply Hx.
Qed.

End MoreOperations.

Section SelectExtras.
Context `{Platform}.
Import EventSelect SelectInvariant.

(** X3: [wait] works on copies: whatever [select] returns and writes back,
    the interest sets, the ordered sets, the highest descriptors and the
    registry are as before; the working sets are what [select] left; the
    iteration starts over when the return value is neither 0 nor -1 and
    stays where it was otherwise. *)
Theorem wait_works_on_copies select st n st1 :
  wait select st = Ok (n, st1) ->
  (forall d, fds d st1 = fds d st /\ x_set d st1 = x_set d st
             /\ nfds_x d st1 = nfds_x d st)
  /\ fd_list st1 = fd_list st
  /\ t_fds_r st1 = sel_r (select_call select st)
  /\ t_fds_w st1 = sel_w (select_call select st)
  /\ t_fds_e st1 = sel_e (select_call select st)
  /\ (n <> 0 -> n <> -1 -> fd_iter st1 = StdMap.begin (fd_list st))
  /\ (n = 0 \/ n = -1 -> fd_iter st1 = fd_iter st).
Proof.
  intros Hwait.
  destruct (wait_spec _ _ _ _ Hwait)
    as (Hd & Hl & Hr & Hw & He & _ & _ & Hpos & Hzero).
  auto 10.
Qed.

(** X4: The first argument of [select] is above every watched descriptor and
    never above [FD_SETSIZE]; it is the sentinel exactly when nothing is
    watched. *)
Theorem select_bound_covers raw cs st :
  run cs (new raw) = Ok st ->
  (forall d fd, FD_ISSET fd (fds d st) = true -> 0 <= fd < select_nfds st)
  /\ select_nfds st <= Z.max event_invalid_fd FD_SETSIZE
  /\ (select_nfds st = event_invalid_fd
      <-> forall d fd, FD_ISSET fd (fds d st) = false).
Proof.
  intros Hrun. destruct (reachable_ok _ _ _ Hrun) as [Hd _ _ _ _ _].
  pose proof event_invalid_fd_negative as Hneg.
  assert (Hcase : forall d,
    (nfds_x d st = event_invalid_fd
     /\ forall fd, FD_ISSET fd (fds d st) = false)
    \/ (0 <= nfds_x d st < FD_SETSIZE
        /\ FD_ISSET (nfds_x d st) (fds d st) = true
        /\ forall fd, FD_ISSET fd (fds d st) = true ->
                      0 <= fd <= nfds_x d st)).
  { intros d. destruct (Hd d) as [Hs Hb Hr Ht]. rewrite Ht.
    destruct (top_cases _ Hs) as [(Hnil & Htop)|(Hin & Hmax & _)].
    - left. split; [exact Htop|]. intros fd.
      destruct (FD_ISSET fd (fds d st)) eqn:Hbit; [|reflexivity].
      apply Hb in Hbit. rewrite Hnil in Hbit. apply elem_of_nil in Hbit as [].
    - right. split; [apply Hr, Hin|]. split; [apply Hb, Hin|].
      intros fd Hbit. apply Hb in Hbit. split; [apply Hr, Hbit|auto]. }
  unfold select_nfds.
  change (nfds_w st) with (nfds_x dir_w st).
  change (nfds_r st) with (nfds_x dir_r st).
  change (nfds_e st) with (nfds_x dir_e st).
  set (ub := Z.max (Z.max (nfds_x dir_w st) (nfds_x dir_r st))
               (nfds_x dir_e st)).
  assert (Hub : forall d, nfds_x d st <= ub) by (intros []; unfold ub; lia).
  split; [|split].
  - intros d fd Hbit. destruct (Hcase d) as [(_ & Hnone)|(_ & _ & Hmax)].
    + rewrite Hnone in Hbit. discriminate.
    + specialize (Hmax fd Hbit). specialize (Hub d).
      destruct (Z.eqb_spec ub event_invalid_fd); lia.
  - destruct (Z.eqb_spec ub event_invalid_fd) as [|Hne]; [lia|].
    destruct (Hcase dir_r) as [(Hr & _)|(Hr & _)],
      (Hcase dir_w) as [(Hw & _)|(Hw & _)],
      (Hcase dir_e) as [(He & _)|(He & _)]; unfold ub in *; lia.
  - split.
    + intros Hinv d fd.
      destruct (Hcase d) as [(_ & Hnone)|(Hr & _)]; [apply Hnone|].
      specialize (Hub d). destruct (Z.eqb_spec ub event_invalid_fd); lia.
    + intros Hnone.
      assert (Hall : forall d, nfds_x d st = event_invalid_fd).
      { intros d. destruct (Hcase d) as [(Hinv & _)|(_ & Hbit & _)];
          [exact Hinv|].
        rewrite Hnone in Hbit. discriminate. }
      assert (ub = event_invalid_fd) as ->
        by (unfold ub; rewrite !Hall; lia).
      rewrite Z.eqb_refl. reflexivity.
Qed.

(** X5: [add] returns, with 1, exactly on a descriptor within the range of
    an [fd_set] and a mask with one of the three flags. *)
Theorem add_succeeds_iff raw cs st fd events :
  run cs (new raw) = Ok st ->
  (exists st', add st fd events = Ok (1, st'))
  <-> 0 <= fd < FD_SETSIZE
      /\ exists d, fIsSet events (event_flag d) = true.
Proof.
  intros Hrun. destruct (reachable_ok _ _ _ Hrun) as [Hd _ _ _ _ _]. split.
  - intros (st' & Hadd). split; [apply (add_spec _ _ _ _ _ Hadd Hd)|].
    eapply add_has_flag, Hadd.
  - intros (Hr & Hflag). apply add_total; assumption.
Qed.

(** X6: [add] only ever extends the interest: the descriptor is watched for
    the flags of the mask on top of what it was watched for, the other
    descriptors are watched as before; the registry holds the new mask
    for the descriptor, converted to [uint], the other entries are as
    before, and the iteration is where it was. *)
Theorem add_accumulates_interest raw cs st fd events rc st' :
  run cs (new raw) = Ok st ->
  add st fd events = Ok (rc, st') ->
  (forall d y,
      FD_ISSET y (fds d st') = true
      <-> (y = fd /\ fIsSet events (event_flag d) = true)
          \/ FD_ISSET y (fds d st) = true)
  /\ (forall k v,
        (k, v) ∈ fd_list st'
        <-> (k = fd /\ v = uint events)
            \/ (k <> fd /\ (k, v) ∈ fd_list st))
  /\ fd_iter st' = fd_iter st.
Proof.
  intros Hrun Hadd. destruct (reachable_ok _ _ _ Hrun) as [Hd _ Hasc _ _ _].
  destruct (add_spec _ _ _ _ _ Hadd Hd)
    as (_ & _ & _ & _ & Hd' & Hx & Hl & Hi & _).
  split; [|split; [|exact Hi]].
  - intros d y.
    apply (watched_iff d st st'
             (fun y => y = fd /\ fIsSet events (event_flag d) = true));
      auto.
  - intros k v. rewrite Hl, (elem_of_assign _ _ _ _ Hasc). cbn.
    split; intros [Heq|Hne]; auto; left; [injection Heq|]; intuition congruence.
Qed.

(** X8: [modify] returns, with 0, exactly on a descriptor within the range
    of an [fd_set] and a mask that is zero or has one of the three
    flags; whether the descriptor is registered plays no part. *)
Theorem modify_succeeds_iff raw cs st fd events :
  run cs (new raw) = Ok st ->
  (exists st', modify st fd events = Ok (0, st'))
  <-> 0 <= fd < FD_SETSIZE
      /\ (events = 0 \/ exists d, fIsSet events (event_flag d) = true).
Proof.
  intros Hrun. destruct (reachable_ok _ _ _ Hrun) as [Hd _ _ _ _ _]. split.
  - intros (st' & Hmod).
    split; [apply (modify_spec _ _ _ _ _ Hmod Hd)|].
    destruct (Z.eqb_spec events 0) as [|Hnz]; [auto|right].
    unfold modify in Hmod.
    destruct (negb (fd =? event_invalid_fd)); [|discriminate].
    cbn [assert bind] in Hmod. apply Z.eqb_neq in Hnz. rewrite Hnz in Hmod.
    cbn [negb] in Hmod.
    destruct (add st fd events) as [p|] eqn:Hadd; [|discriminate].
    eapply add_has_flag, Hadd.
  - intros (Hr & Hev). apply modify_total; assumption.
Qed.

(** X9: [modify] replaces the interest: afterwards the descriptor is watched
    for exactly the flags of the mask, and the other descriptors are
    watched as before; a mask that is not zero is in the registry,
    converted to [uint]. *)
Theorem modify_replaces_interest raw cs st fd events rc st' :
  run cs (new raw) = Ok st ->
  modify st fd events = Ok (rc, st') ->
  (forall d, FD_ISSET fd (fds d st') = fIsSet events (event_flag d))
  /\ (forall d y, y <> fd -> FD_ISSET y (fds d st') = FD_ISSET y (fds d st))
  /\ (forall k v,
        k <> fd -> (k, v) ∈ fd_list st' <-> (k, v) ∈ fd_list st)
  /\ (events <> 0 -> forall v, (fd, v) ∈ fd_list st' <-> v = uint events).
Proof.
  intros Hrun Hmod. destruct (reachable_ok _ _ _ Hrun) as [Hd _ Hasc _ _ _].
  destruct (modify_spec _ _ _ _ _ Hmod Hd)
    as (_ & _ & _ & Hd' & Hx & Hl & _).
  assert (Hbits : forall d y,
    FD_ISSET y (fds d st') = true
    <-> (y = fd /\ fIsSet events (event_flag d) = true)
        \/ (FD_ISSET y (fds d st) = true /\ y <> fd)).
  { intros d y.
    rewrite <- (set_bits _ _ (Hd' d)), <- (set_bits _ _ (Hd d)). apply Hx. }
  split; [|split; [|split]].
  - intros d. apply eq_true_iff_eq. rewrite Hbits. intuition congruence.
  - intros d y Hne. apply eq_true_iff_eq. rewrite Hbits. intuition congruence.
  - intros k v Hne. rewrite Hl. destruct (events =? 0); [reflexivity|].
    rewrite (elem_of_assign _ _ _ _ Hasc). cbn. intuition congruence.
  - intros Hnz v. rewrite Hl. apply Z.eqb_neq in Hnz as ->.
    rewrite (elem_of_assign _ _ _ _ Hasc). cbn. intuition congruence.
Qed.

(** X10: [remove] returns, with 1, exactly on a descriptor that has an entry
    in the registry; on any other it trips an assertion or is
    undefined. *)
Theorem remove_succeeds_iff raw cs st fd :
  run cs (new raw) = Ok st ->
  (exists st', remove st fd = Ok (1, st'))
  <-> fd ∈ StdMap.keys (fd_list st).
Proof.
  intros Hrun. destruct (reachable_ok _ _ _ Hrun) as [Hd _ _ Hrg _ _]. split.
  - intros (st' & Hrem). apply (remove_spec _ _ _ _ Hrem Hd).
  - intros Hin. apply remove_total; auto.
Qed.

(** X11: After [remove] the descriptor has no entry and is watched for
    nothing; the other entries and what the other descriptors are watched
    for are as before; the iteration is back at the start of the
    registry. *)
Theorem remove_forgets_descriptor raw cs st fd rc st' :
  run cs (new raw) = Ok st ->
  remove st fd = Ok (rc, st') ->
  (fd ∉ StdMap.keys (fd_list st'))
  /\ (forall d, FD_ISSET fd (fds d st') = false)
  /\ (forall k v, (k, v) ∈ fd_list st' <-> ((k, v) ∈ fd_list st) /\ k <> fd)
  /\ (forall d y, y <> fd -> FD_ISSET y (fds d st') = FD_ISSET y (fds d st))
  /\ fd_iter st' = StdMap.begin (fd_list st').
Proof.
  intros Hrun Hrem. destruct (reachable_ok _ _ _ Hrun) as [Hd _ _ _ _ _].
  destruct (remove_spec _ _ _ _ Hrem Hd) as (_ & _ & Hd' & Hx & Hl & Hi & _).
  assert (Hbits : forall d y,
    FD_ISSET y (fds d st') = true
    <-> FD_ISSET y (fds d st) = true /\ y <> fd).
  { intros d y.
    rewrite <- (set_bits _ _ (Hd' d)), <- (set_bits _ _ (Hd d)). apply Hx. }
  split; [|split; [|split; [|split]]].
  - rewrite Hl, keys_erase. tauto.
  - intros d. destruct (FD_ISSET fd (fds d st')) eqn:Hbit; [|reflexivity].
    apply Hbits in Hbit. tauto.
  - intros k v. rewrite Hl. apply (elem_of_erase fd (k, v)).
  - intros d y Hne. apply eq_true_iff_eq. rewrite Hbits. tauto.
  - exact Hi.
Qed.

(** X12: Registering a descriptor the registry does not have and removing it
    again gives back the interest sets, the ordered sets, the highest
    descriptors and the registry. *)
Theorem add_remove_round_trip raw cs st fd events rc st1 :
  run cs (new raw) = Ok st ->
  fd ∉ StdMap.keys (fd_list st) ->
  add st fd events = Ok (rc, st1) ->
  exists st2,
    remove st1 fd = Ok (1, st2)
    /\ (forall d, fds d st2 = fds d st /\ x_set d st2 = x_set d st
                  /\ nfds_x d st2 = nfds_x d st)
    /\ fd_list st2 = fd_list st.
Proof.
  intros Hrun Hnew Hadd. pose proof (reachable_ok _ _ _ Hrun) as Hok.
  pose proof (ok_add _ _ _ _ _ Hadd Hok) as [Hd1 _ _ Hrg1 _ _].
  destruct Hok as [Hd Hreg _ _ _ _].
  destruct (add_spec _ _ _ _ _ Hadd Hd)
    as (_ & _ & Hr & _ & _ & Hx1 & Hl1 & _).
  assert (Hin : fd ∈ StdMap.keys (fd_list st1))
    by (rewrite Hl1; apply keys_assign; auto).
  destruct (remove_total st1 fd Hd1 Hr Hin) as (st2 & Hrem).
  destruct (remove_spec _ _ _ _ Hrem Hd1) as (_ & _ & Hd2 & Hx2 & Hl2 & _).
  exists st2. split; [exact Hrem|]. split.
  - intros d.
    destruct (direction_ext d st2 st (Hd2 d) (Hd d)) as (Hx & Hf & Hn);
      [|auto].
    intros y. rewrite Hx2, Hx1. split; [intros ([(-> & _)|Hy] & Hne); tauto|].
    intros Hy. split; [auto|]. intros ->. apply Hnew, (Hreg d), Hy.
  - rewrite Hl2, Hl1. apply erase_assign, Hnew.
Qed.

Lemma assign_twice k v m :
  StdMap.assign k v (StdMap.assign k v m) = StdMap.assign k v m.
Proof.
  induction m as [|[k0 v0] m IH]; cbn.
  - rewrite Z.ltb_irrefl, Z.eqb_refl. reflexivity.
  - destruct (Z.ltb_spec k k0) as [Hlt|Hge]; cbn.
    + rewrite Z.ltb_irrefl, Z.eqb_refl. reflexivity.
    + destruct (Z.eqb_spec k k0) as [->|Hne]; cbn.
      * rewrite Z.ltb_irrefl, Z.eqb_refl. reflexivity.
      * destruct (Z.ltb_spec k k0); [lia|].
        destruct (Z.eqb_spec k k0); [contradiction|]. rewrite IH.
        reflexivity.
Qed.

(** X7: Registering a descriptor a second time with the same mask returns
    and changes none of the interest sets, the ordered sets, the highest
    descriptors and the registry. *)
Theorem add_again_changes_nothing raw cs st fd events rc st1 :
  run cs (new raw) = Ok st ->
  add st fd events = Ok (rc, st1) ->
  exists st2,
    add st1 fd events = Ok (1, st2)
    /\ (forall d, fds d st2 = fds d st1 /\ x_set d st2 = x_set d st1
                  /\ nfds_x d st2 = nfds_x d st1)
    /\ fd_list st2 = fd_list st1.
Proof.
  intros Hrun Hadd. destruct (reachable_ok _ _ _ Hrun) as [Hd _ _ _ _ _].
  destruct (add_spec _ _ _ _ _ Hadd Hd)
    as (_ & _ & Hr & _ & Hd1 & Hx1 & Hl1 & _).
  destruct (add_total st1 fd events Hr (add_has_flag _ _ _ _ Hadd))
    as (st2 & Hadd2).
  destruct (add_spec _ _ _ _ _ Hadd2 Hd1)
    as (_ & _ & _ & _ & Hd2 & Hx2 & Hl2 & _).
  exists st2. split; [exact Hadd2|]. split.
  - intros d.
    destruct (direction_ext d st2 st1 (Hd2 d) (Hd1 d)) as (Hx & Hf & Hn);
      [|auto].
    intros y. rewrite Hx2, Hx1. tauto.
  - rewrite Hl2, Hl1. apply assign_twice.
Qed.

(** X13: In every reachable object the registry has its keys in ascending
    order, so one entry per descriptor, all within the range of an
    [fd_set]; the ordered set of each direction holds exactly the
    descriptors of the interest set, and each of them has an entry in
    the registry. *)
Theorem registry_well_formed raw cs st :
  run cs (new raw) = Ok st ->
  StronglySorted Z.lt (StdMap.keys (fd_list st))
  /\ NoDup (StdMap.keys (fd_list st))
  /\ (forall fd, fd ∈ StdMap.keys (fd_list st) ->
                 0 <= fd < FD_SETSIZE /\ fd <> event_invalid_fd)
  /\ (forall d fd, fd ∈ x_set d st <-> FD_ISSET fd (fds d st) = true)
  /\ (forall d fd, FD_ISSET fd (fds d st) = true ->
                   fd ∈ StdMap.keys (fd_list st)).
Proof.
  intros Hrun. destruct (reachable_ok _ _ _ Hrun) as [Hd Hreg Hasc Hrg _ _].
  pose proof event_invalid_fd_negative as Hneg.
  split; [exact Hasc|]. split; [apply ascending_NoDup, Hasc|].
  split; [|split].
  - intros fd Hin. apply Hrg in Hin. lia.
  - intros d fd. apply (set_bits _ _ (Hd d)).
  - intros d fd Hbit. apply (Hreg d), (set_bits _ _ (Hd d)), Hbit.
Qed.

(** X25: When [select] does not fail, [wait] returns, with the value
    [select] returned, and keeps that value in [nfds]; the error code is
    as it was, and the timeout is what [select] left in it. *)
Theorem wait_returns_select_value select st :
  sel_ret (select_call select st) <> -1 ->
  exists st1,
    wait select st = Ok (sel_ret (select_call select st), st1)
    /\ nfds st1 = sel_ret (select_call select st)
    /\ error st1 = error st
    /\ _timeout st1 = sel_timeout (select_call select st).
Proof.
  intros Hok. unfold wait.
  change (select (select_nfds _) _ _ _ _) with (select_call select st).
  cbn [set_nfds nfds].
  destruct (Z.eqb_spec (sel_ret (select_call select st)) (-1)) as [|_];
    [contradiction|].
  destruct (sel_ret (select_call select st) =? 0);
    eexists; (split; [reflexivity|]); auto.
Qed.

End SelectExtras.

Section IterationExtras.
Context `{Platform}.
Import EventSelect SelectInvariant SelectCalls.

Lemma satisfied_ext a b k :
  (forall d, t_fds d a = t_fds d b) -> satisfied a k = satisfied b k.
Proof.
  intros Ht. pose proof (Ht dir_r) as Hr. pose proof (Ht dir_w) as Hw.
  pose proof (Ht dir_e) as He. cbn in Hr, Hw, He.
  unfold satisfied. rewrite Hr, Hw, He. reflexivity.
Qed.

Lemma satisfied_flag st k d :
  fIsSet (satisfied st k) (event_flag d) = FD_ISSET k (t_fds d st).
Proof.
  unfold satisfied.
  destruct d; cbn [t_fds event_flag];
    destruct (FD_ISSET k (t_fds_r st)), (FD_ISSET k (t_fds_w st)),
      (FD_ISSET k (t_fds_e st)); reflexivity.
Qed.

Lemma satisfied_range st k : 0 <= satisfied st k <= 7.
Proof.
  unfold satisfied.
  destruct (FD_ISSET k (t_fds_r st)), (FD_ISSET k (t_fds_w st)),
    (FD_ISSET k (t_fds_e st)); vm_compute; split; discriminate.
Qed.

Lemma ready_in_erase a b fd rest :
  (forall k, satisfied a k = satisfied b k) ->
  ready_in a (StdMap.erase fd rest)
  = filter (fun p => p.1 <> fd) (ready_in b rest).
Proof.
  intros Hs. unfold StdMap.erase.
  induction rest as [|[k v] rest IH]; [reflexivity|].
  rewrite ready_in_cons, filter_cons. cbn [fst].
  destruct (decide (k <> fd)) as [Hne|Heq].
  - rewrite ready_in_cons, Hs, IH.
    destruct (satisfied b k =? 0); [reflexivity|].
    rewrite filter_cons. cbn [fst]. rewrite decide_True by exact Hne.
    reflexivity.
  - rewrite IH. destruct (satisfied b k =? 0); [reflexivity|].
    rewrite filter_cons. cbn [fst]. rewrite decide_False by exact Heq.
    reflexivity.
Qed.

Lemma setup_frame st c st' :
  is_setup c = true -> step st c = Ok st' -> ok st ->
  fd_iter st' = fd_iter st /\ (forall d, t_fds d st' = t_fds d st).
Proof.
  intros Hc Hstep [Hd _ _ _ _ _]. destruct c; try discriminate Hc;
    cbn [step] in Hstep.
  - destruct (add st fd events) as [[rc st1]|] eqn:Hadd; [|discriminate].
    cbn in Hstep. injection Hstep as <-.
    destruct (add_spec _ _ _ _ _ Hadd Hd) as (_ & _ & _ & _ & _ & _ & _ & Hi & Ht).
    auto.
  - destruct (modify st fd events) as [[rc st1]|] eqn:Hmod; [|discriminate].
    cbn in Hstep. injection Hstep as <-.
    destruct (modify_spec _ _ _ _ _ Hmod Hd) as (_ & _ & _ & _ & _ & _ & Hi & Ht).
    auto.
  - injection Hstep as <-. split; [|intros d]; unfold timeout;
      destruct (1000 <? msecs); destruct d || idtac; reflexivity.
Qed.

Lemma setup_run cs :
  forall st st',
    forallb is_setup cs = true -> run cs st = Ok st' -> ok st ->
    fd_iter st' = fd_iter st /\ (forall d, t_fds d st' = t_fds d st).
Proof.
  induction cs as [|c cs IH]; intros st st' Hcs Hrun Hok.
  - injection Hrun as <-. auto.
  - cbn [forallb] in Hcs. apply andb_prop in Hcs as (Hc & Hcs).
    cbn [run] in Hrun. destruct (step st c) as [st1|] eqn:Hstep;
      [|discriminate].
    cbn [bind] in Hrun.
    destruct (setup_frame _ _ _ Hc Hstep Hok) as (Hi1 & Ht1).
    destruct (IH _ _ Hcs Hrun (ok_step _ _ _ Hstep Hok)) as (Hi & Ht).
    split; [congruence|]. intros d. rewrite Ht. apply Ht1.
Qed.

(** X14: [remove] starts the iteration over: the calls of [getEvent] that
    follow it hand out, from the lowest descriptor on, every descriptor
    of the remaining registry with a satisfied event, that is, what the
    registry had ready before, less the removed descriptor. *)
Theorem remove_restarts_iteration raw cs st fd rc st' fd0 events0 :
  run cs (new raw) = Ok st ->
  remove st fd = Ok (rc, st') ->
  fd_list st' <> [] ->
  drain (S (length (fd_list st'))) st' fd0 events0
  = Ok (filter (fun p => p.1 <> fd) (ready st), exhausted st').
Proof.
  intros Hrun Hrem Hne. pose proof (reachable_ok _ _ _ Hrun) as Hok.
  pose proof (ok_remove _ _ _ _ Hrem Hok) as [_ _ Hasc' _ _ _].
  destruct Hok as [Hd _ _ _ _ _].
  destruct (remove_spec _ _ _ _ Hrem Hd) as (_ & _ & _ & _ & Hl & Hi & Ht).
  rewrite (drain_from _ st' [] (fd_list st') fd0 events0 eq_refl Hne
             (ascending_NoDup _ Hasc') Hi) by lia.
  f_equal. f_equal. rewrite Hl. unfold ready.
  apply ready_in_erase. intros k. apply satisfied_ext, Ht.
Qed.

(** X15: After a [wait] on a [select] that kept its contract, [getEvent]
    only hands out registered descriptors, with a mask between 1 and 7
    whose flags are among those the descriptor is watched for. *)
Theorem yields_are_watched raw cs st select n st1 fd0 events0 ys st2 :
  run cs (new raw) = Ok st -> fd_list st <> [] ->
  select_succeeds (fds_r st) (fds_w st) (fds_e st) (select_call select st)
  = true ->
  wait select st = Ok (n, st1) -> n <> 0 -> n <> -1 ->
  drain (S (length (fd_list st1))) st1 fd0 events0 = Ok (ys, st2) ->
  forall fd events,
    (fd, events) ∈ ys ->
    fd ∈ StdMap.keys (fd_list st)
    /\ 1 <= events <= 7
    /\ forall d, fIsSet events (event_flag d) = true ->
                 FD_ISSET fd (fds d st) = true.
Proof.
  intros Hrun Hne Hsel Hwait Hn0 Hn1 Hdrain fd events Hin.
  pose proof (reachable_ok _ _ _ Hrun) as Hok.
  rewrite (drain_after_wait _ _ _ _ fd0 events0 Hok Hne Hwait Hn0 Hn1)
    in Hdrain.
  injection Hdrain as <- _.
  destruct (wait_spec _ _ _ _ Hwait) as (_ & Hl & Hr & Hw & He & _).
  destruct Hok as [_ _ Hasc _ _ _].
  assert (Hasc1 : StronglySorted Z.lt (StdMap.keys (fd_list st1)))
    by (rewrite Hl; exact Hasc).
  apply (ready_spec _ Hasc1) in Hin as (Hkey & -> & Hnz).
  split; [rewrite <- Hl; exact Hkey|].
  split; [pose proof (satisfied_range st1 fd); lia|].
  intros d. rewrite satisfied_flag.
  unfold select_succeeds in Hsel.
  apply andb_prop in Hsel as (Hsel & _).
  apply andb_prop in Hsel as (Hsel & Hse).
  apply andb_prop in Hsel as (Hsr & Hsw).
  destruct d; cbn [t_fds fds]; [rewrite Hr|rewrite Hw|rewrite He];
    apply fd_subset_spec; assumption.
Qed.

(** X16: An object that was only set up (descriptors registered, interest
    changed, the timeout set) has no place to iterate from: [getEvent]
    trips its assertion on an empty registry, and is undefined
    otherwise. *)
Theorem getEvent_before_first_wait raw cs st fd events :
  forallb is_setup cs = true ->
  run cs (new raw) = Ok st ->
  getEvent st fd events
  = Fail (match fd_list st with
          | [] => assertion_failed
          | _ :: _ => undefined_behaviour
          end).
Proof.
  intros Hcs Hrun.
  destruct (setup_run _ _ _ Hcs Hrun (ok_new raw)) as (Hi & _).
  unfold getEvent. rewrite Hi.
  destruct (fd_list st) as [|p l]; [reflexivity|].
  cbn [length]. rewrite Nat2Z.inj_succ.
  destruct (Z.ltb_spec 0 (Z.succ (Z.of_nat (length l)))); [|lia].
  reflexivity.
Qed.

(** X17: What [getEvent] reports is fixed by the last [wait]: registering,
    changing the interest and setting the timeout leave the satisfied
    events of every descriptor and the place of the iteration as they
    were. *)
Theorem setup_keeps_readiness raw cs st cs' st' :
  run cs (new raw) = Ok st ->
  forallb is_setup cs' = true ->
  run cs' st = Ok st' ->
  fd_iter st' = fd_iter st
  /\ forall fd, satisfied st' fd = satisfied st fd.
Proof.
  intros Hrun Hcs Hrun'.
  destruct (setup_run _ _ _ Hcs Hrun' (reachable_ok _ _ _ Hrun)) as (Hi & Ht).
  split; [exact Hi|]. intros fd. apply satisfied_ext, Ht.
Qed.

End IterationExtras.

(** * Further properties of messages and their handles *)

Section MessageExtras.
Import Message MessageCalls.

Lemma run_setters cs :
  forall m,
    contextId (run cs m)
    = default (contextId m) (uint8 <$> last (context_requests cs))
    /\ isUndone (run cs m)
       = if isUndoable m then default (isUndone m) (last (undone_requests cs))
         else isUndone m.
Proof.
  induction cs as [|c cs IH]; intros m.
  - cbn. destruct (isUndoable m); auto.
  - rewrite run_cons. destruct (IH (step m c)) as (Hc & Hu).
    rewrite Hc, Hu. clear IH Hc Hu.
    destruct c as [userid|undone]; cbn [step context_requests undone_requests
                                         omap option_bind list_omap].
    + fold (context_requests cs). fold (undone_requests cs).
      rewrite last_cons. split.
      * destruct (last (context_requests cs)); reflexivity.
      * reflexivity.
    + fold (context_requests cs). fold (undone_requests cs).
      rewrite last_cons. unfold setUndone, isUndoable, contextId, isUndone.
      destruct (v_isUndoable (vptr m)) eqn:Hv; cbn; [|rewrite Hv; auto].
      rewrite Hv. split; [reflexivity|].
      destruct (last (undone_requests cs)); reflexivity.
Qed.

(** X18: The last call of each setter decides: after any calls on a freshly
    constructed message the context id is the argument of the last
    [setContextId], or that of the constructor, as a [uint8_t]; the
    undone flag is the argument of the last [setUndone] when the class is
    undoable, and false otherwise. *)
Theorem last_setter_wins cls ty ctx cs :
  let m := run cs (new cls ty ctx) in
  contextId m = uint8 (default ctx (last (context_requests cs)))
  /\ isUndone m
     = v_isUndoable cls && default false (last (undone_requests cs)).
Proof.
  cbn zeta. destruct (run_setters cs (new cls ty ctx)) as (Hc & Hu).
  rewrite Hc, Hu. unfold isUndoable, isUndone, contextId, new.
  cbn [vptr _undone _contextid]. split.
  - destruct (last (context_requests cs)); reflexivity.
  - destruct (v_isUndoable cls); reflexivity.
Qed.

(** X19: The enumerators have distinct values that fit in a byte, and
    [isCommand] holds of exactly the sixteen types from
    [MSG_CANVAS_RESIZE] to [MSG_UNDO], whose values are 128 to 143; the
    ten types before them have the values 0 to 9. *)
Theorem command_stream_types :
  (forall a b, value a = value b -> a = b)
  /\ (forall ty, 0 <= value ty <= 9 \/ 128 <= value ty <= 143)
  /\ (forall m, isCommand m = true <-> 128 <= value (type m) <= 143)
  /\ (forall m, isCommand m = false <-> 0 <= value (type m) <= 9).
Proof.
  assert (Hv : forall ty, 0 <= value ty <= 9 \/ 128 <= value ty <= 143)
    by (intros []; cbn; lia).
  split; [|split; [exact Hv|split]].
  - intros [] []; cbn; intros Heq; first [reflexivity | discriminate Heq].
  - intros m. unfold isCommand, type. change (value MSG_CANVAS_RESIZE) with 128.
    specialize (Hv (_type m)).
    destruct (Z.leb_spec 128 (value (_type m))); split; intros;
      first [lia | discriminate | reflexivity].
  - intros m. unfold isCommand, type. change (value MSG_CANVAS_RESIZE) with 128.
    specialize (Hv (_type m)).
    destruct (Z.leb_spec 128 (value (_type m))); split; intros;
      first [lia | discriminate | reflexivity].
Qed.

End MessageExtras.

Section HandleExtras.
Import MessagePtr.

Lemma store_eq (a b : store) :
  heap a = heap b -> deleted a = deleted b -> a = b.
Proof. destruct a, b. cbn. intros -> ->. reflexivity. Qed.

Lemma set_refcount_twice n k m :
  set_refcount n (set_refcount k m) = set_refcount n m.
Proof. reflexivity. Qed.

(** X20: Copy constructing a handle from one on a live envelope and
    destroying the copy gives back the free store as it was: the count
    goes up by one and down again, and nothing is deleted. *)
Theorem copy_destroy_round_trip h s m :
  heap s !! _ptr h = Some m ->
  0 < Message._refcount m < INT_MAX ->
  exists h' s1,
    copy h s = Ok (h', s1)
    /\ _ptr h' = _ptr h
    /\ heap s1 !! _ptr h
       = Some (set_refcount (Message._refcount m + 1) m)
    /\ destroy h' s1 = Ok s.
Proof.
  intros Hm (Hpos & Hmax).
  unfold copy, increment, deref. cbn [_ptr]. rewrite Hm. cbn [defined bind].
  destruct (Z.ltb_spec (Message._refcount m) INT_MAX) as [_|]; [|lia].
  cbn [bind]. eexists _, _. split; [reflexivity|]. split; [reflexivity|].
  split; [cbn; apply lookup_insert_eq|].
  unfold destroy, release, deref, write. cbn [_ptr heap deleted].
  rewrite lookup_insert_eq. cbn [defined bind].
  cbn [set_refcount Message._refcount].
  destruct (Z.ltb_spec 0 (Message._refcount m + 1)) as [_|]; [|lia].
  cbn [assert bind].
  replace (Message._refcount m + 1 - 1) with (Message._refcount m) by lia.
  destruct (Z.eqb_spec (Message._refcount m) 0) as [|_]; [lia|].
  f_equal. apply store_eq; cbn [heap deleted]; [|reflexivity].
  rewrite insert_insert_eq. apply insert_id. rewrite Hm. f_equal.
  destruct m. reflexivity.
Qed.

(** X21: Assignment from a handle on another envelope moves one reference:
    the count of the envelope the handle leaves goes down by one, and
    that envelope is deleted if the count was one; the count of the
    envelope it comes to goes up by one; no other envelope is touched. *)
Theorem assign_moves_reference this msg s mq mp :
  _ptr msg <> _ptr this ->
  heap s !! _ptr this = Some mq ->
  heap s !! _ptr msg = Some mp ->
  0 < Message._refcount mq ->
  Message._refcount mp < INT_MAX ->
  exists s',
    assign this msg s = Ok ({| _ptr := _ptr msg |}, s')
    /\ heap s' !! _ptr msg
       = Some (set_refcount (Message._refcount mp + 1) mp)
    /\ heap s' !! _ptr this
       = (if Message._refcount mq =? 1 then None
          else Some (set_refcount (Message._refcount mq - 1) mq))
    /\ deleted s'
       = (if Message._refcount mq =? 1 then _ptr this :: deleted s
          else deleted s)
    /\ forall r, r <> _ptr msg -> r <> _ptr this ->
                 heap s' !! r = heap s !! r.
Proof.
  intros Hne Hq Hp Hpos Hmax. unfold assign.
  destruct (N.eqb_spec (_ptr msg) (_ptr this)) as [|_]; [contradiction|].
  cbn [negb]. unfold release, deref. rewrite Hq. cbn [defined bind].
  destruct (Z.ltb_spec 0 (Message._refcount mq)) as [_|]; [|lia].
  cbn [assert bind]. cbn [set_refcount Message._refcount].
  destruct (Z.eqb_spec (Message._refcount mq - 1) 0) as [Hone|Hmore].
  - destruct (Z.eqb_spec (Message._refcount mq) 1) as [_|]; [|lia].
    cbn [bind]. unfold increment, deref, delete_, write.
    cbn [heap deleted _ptr].
    rewrite lookup_delete_ne, lookup_insert_ne, Hp by auto.
    cbn [defined bind].
    destruct (Z.ltb_spec (Message._refcount mp) INT_MAX) as [_|]; [|lia].
    cbn [bind]. eexists. split; [reflexivity|]. cbn [heap deleted].
    split; [apply lookup_insert_eq|].
    split; [rewrite lookup_insert_ne, lookup_delete_eq by auto; reflexivity|].
    split; [reflexivity|].
    intros r Hr1 Hr2.
    rewrite lookup_insert_ne, lookup_delete_ne, lookup_insert_ne by auto.
    reflexivity.
  - destruct (Z.eqb_spec (Message._refcount mq) 1) as [|_]; [lia|].
    cbn [bind]. unfold increment, deref, write.
    cbn [heap deleted _ptr].
    rewrite lookup_insert_ne, Hp by auto.
    cbn [defined bind].
    destruct (Z.ltb_spec (Message._refcount mp) INT_MAX) as [_|]; [|lia].
    cbn [bind]. eexists. split; [reflexivity|]. cbn [heap deleted].
    split; [apply lookup_insert_eq|].
    split; [rewrite lookup_insert_ne, lookup_insert_eq by auto; reflexivity|].
    split; [reflexivity|].
    intros r Hr1 Hr2. rewrite !lookup_insert_ne by auto. reflexivity.
Qed.

(** X22: An envelope that has handles cannot be adopted again: the
    constructor from a raw pointer trips its assertion. *)
Theorem adopted_twice msg srcs s hs s1 :
  handles msg srcs s = Ok (hs, s1) ->
  new msg s1 = Fail assertion_failed.
Proof.
  intros Hh.
  destruct (handles_shared _ _ _ _ _ Hh)
    as (m0 & _ & _ & Hnz & _ & Hlen & (Hlive & _) & _).
  unfold new, deref. cbn [_ptr].
  destruct (N.eqb_spec msg 0) as [|_]; [contradiction|].
  cbn [negb assert bind]. rewrite Hlive. cbn [defined bind].
  cbn [set_refcount Message._refcount].
  destruct (Z.eqb_spec (Z.of_nat (length hs)) 0) as [|_]; [lia|].
  reflexivity.
Qed.

(** X23: Once every handle on an envelope has been destroyed, in whatever
    order, the handles dangle: copying or destroying any of them again
    is undefined. *)
Theorem use_after_last_destroy msg srcs s hs s1 hs' s2 :
  handles msg srcs s = Ok (hs, s1) ->
  hs' ≡ₚ hs ->
  destroy_all hs' s1 = Ok s2 ->
  forall h, h ∈ hs ->
            copy h s2 = Fail undefined_behaviour
            /\ destroy h s2 = Fail undefined_behaviour.
Proof.
  intros Hh Hperm Hdestroy h Hin.
  destruct (handles_shared _ _ _ _ _ Hh)
    as (m0 & _ & _ & _ & Hon & Hlen & Hshared & _).
  assert (Hon' : all_on msg hs') by (unfold all_on; rewrite Hperm; exact Hon).
  assert (Hne : hs' <> []).
  { intros ->. apply Permutation_nil_l in Hperm. subst hs. cbn in Hlen. lia. }
  rewrite <- Hperm in Hshared.
  destruct (destroy_every _ _ _ _ _ Hon' Hne Hshared) as (s' & Hd & Hgone & _).
  rewrite Hd in Hdestroy. injection Hdestroy as ->.
  assert (Hp : _ptr h = msg).
  { unfold all_on in Hon. rewrite Forall_forall in Hon. apply Hon, Hin. }
  unfold copy, destroy, increment, release, deref. cbn [_ptr].
  rewrite Hp, Hgone. split; reflexivity.
Qed.

Lemma all_on_delete p i hs : all_on p hs -> all_on p (delete i hs).
Proof.
  unfold all_on. rewrite !Forall_forall. intros Hon h Hin.
  apply Hon. eapply elem_of_sublist; [exact Hin|apply sublist_delete].
Qed.

Lemma program_counts p m0 s0 os :
  forall hs s hs' s',
    HandleProgram.run os (hs, s) = Ok (hs', s') ->
    all_on p hs -> hs <> [] ->
    shared p m0 (Z.of_nat (length hs)) s0 s ->
    all_on p hs'
    /\ match hs' with
       | [] => freed p s0 s'
       | _ :: _ => shared p m0 (Z.of_nat (length hs')) s0 s'
       end.
Proof.
  induction os as [|o os IH]; intros hs s hs' s' Hrun Hon Hne Hsh.
  - injection Hrun as <- <-. split; [exact Hon|].
    destruct hs; [contradiction|exact Hsh].
  - cbn [HandleProgram.run] in Hrun.
    destruct (HandleProgram.step (hs, s) o) as [[hs1 s1]|] eqn:Hstep;
      [|discriminate].
    cbn [bind] in Hrun. cbn [HandleProgram.step] in Hstep.
    destruct o as [i|i].
    + destruct (hs !! i) as [h|] eqn:Hi; [|discriminate].
      cbn [defined bind] in Hstep.
      assert (Hp : _ptr h = p).
      { unfold all_on in Hon. rewrite Forall_forall in Hon.
        apply Hon. eapply list_elem_of_lookup_2, Hi. }
      unfold copy in Hstep. cbn [_ptr] in Hstep. rewrite Hp in Hstep.
      destruct (increment p s) as [s2|] eqn:Hinc; [|discriminate].
      cbn [bind] in Hstep. injection Hstep as <- <-.
      destruct (increment_shared _ _ _ _ _ _ Hsh Hinc) as (_ & Hsh2).
      apply (IH _ _ _ _ Hrun).
      * apply all_on_snoc; [exact Hon|reflexivity].
      * intros Hnil. apply app_eq_nil in Hnil as (_ & Hnil). discriminate.
      * apply shared_snoc, Hsh2.
    + destruct (hs !! i) as [h|] eqn:Hi; [|discriminate].
      cbn [defined bind] in Hstep.
      assert (Hp : _ptr h = p).
      { unfold all_on in Hon. rewrite Forall_forall in Hon.
        apply Hon. eapply list_elem_of_lookup_2, Hi. }
      unfold destroy in Hstep. rewrite Hp in Hstep.
      assert (Hlen : length (delete i hs) = (length hs - 1)%nat).
      { apply length_delete. rewrite Hi. eauto. }
      assert (Hpos : (0 < length hs)%nat)
        by (destruct hs; [contradiction|cbn; lia]).
      destruct (decide (length hs = 1%nat)) as [Hone|Hmore].
      * rewrite Hone in Hsh.
        destruct (release_last _ _ _ _ Hsh) as (s2 & Hrel & Hfreed).
        rewrite Hrel in Hstep. cbn [bind] in Hstep.
        injection Hstep as <- <-.
        assert (Hnil : delete i hs = [])
          by (apply nil_length_inv; rewrite Hlen, Hone; reflexivity).
        rewrite Hnil in Hrun. destruct os as [|o os].
        -- injection Hrun as <- <-. split; [constructor|exact Hfreed].
        -- cbn in Hrun. destruct o; discriminate Hrun.
      * destruct (release_shared _ _ _ _ _ Hsh ltac:(lia))
          as (s2 & Hrel & Hsh2).
        rewrite Hrel in Hstep. cbn [bind] in Hstep.
        injection Hstep as <- <-.
        apply (IH _ _ _ _ Hrun).
        -- apply all_on_delete, Hon.
        -- intros Hnil. rewrite Hnil in Hlen. cbn in Hlen. lia.
        -- rewrite Hlen.
           replace (Z.of_nat (length hs - 1))
             with (Z.of_nat (length hs) - 1) by lia.
           exact Hsh2.
Qed.

(** X24: Through any program of copy constructions and destructions on the
    handles of one envelope, the count of the envelope is the number of
    handles the program still holds and the envelope has not been
    deleted; when the program holds none, the envelope is gone and was
    deleted once. *)
Theorem handle_program_counts msg srcs s hs s1 os hs' s' :
  handles msg srcs s = Ok (hs, s1) ->
  HandleProgram.run os (hs, s1) = Ok (hs', s') ->
  all_on msg hs'
  /\ exists m0,
      heap s !! msg = Some m0
      /\ match hs' with
         | [] => heap s' !! msg = None
                 /\ deletions msg s' = S (deletions msg s)
         | _ :: _ =>
             heap s' !! msg
             = Some (set_refcount (Z.of_nat (length hs')) m0)
             /\ deletions msg s' = deletions msg s
         end.
Proof.
  intros Hh Hrun.
  destruct (handles_shared _ _ _ _ _ Hh)
    as (m0 & Hm0 & _ & _ & Hon & Hlen & Hshared & _).
  assert (Hne : hs <> []) by (intros ->; cbn in Hlen; lia).
  destruct (program_counts _ _ _ _ _ _ _ _ Hrun Hon Hne Hshared) as (Hon' & Hst).
  split; [exact Hon'|]. exists m0. split; [exact Hm0|].
  destruct hs'; exact Hst.
Qed.

End HandleExtras.

(** ** The further properties at concrete inputs *)

Section ExtraInstances.
Import EventSelect.
#[local] Existing Instance linux.

Lemma timeout_total_witness :
  tv_sec (_timeout (timeout (new Inputs.raw) 2500)) * 1000000
  + tv_usec (_timeout (timeout (new Inputs.raw) 2500)) = 2500 * 1000.
Proof. apply timeout_total. split; [lia|reflexivity]. Defined.

Lemma timeout_decomposes_witness :
  tv_sec (_timeout (timeout (new Inputs.raw) 2500)) = 2500 / 1000
  /\ tv_usec (_timeout (timeout (new Inputs.raw) 2500))
     = (2500 mod 1000) * 1000
  /\ 0 <= tv_usec (_timeout (timeout (new Inputs.raw) 2500)) < 1000000.
Proof.
  apply timeout_decomposes.
  - split; [lia|reflexivity].
  - discriminate.
Defined.

Lemma wait_works_on_copies_witness :
  exists st st1,
    run [call_add 5 3; call_add 9 1] (new Inputs.raw) = Ok st
    /\ wait Inputs.select_read_ready st = Ok (2, st1)
    /\ (forall d, fds d st1 = fds d st /\ x_set d st1 = x_set d st
                  /\ nfds_x d st1 = nfds_x d st)
    /\ fd_list st1 = fd_list st
    /\ t_fds_r st1 = sel_r (select_call Inputs.select_read_ready st)
    /\ t_fds_w st1 = sel_w (select_call Inputs.select_read_ready st)
    /\ t_fds_e st1 = sel_e (select_call Inputs.select_read_ready st)
    /\ (2 <> 0 -> 2 <> -1 -> fd_iter st1 = StdMap.begin (fd_list st))
    /\ (2 = 0 \/ 2 = -1 -> fd_iter st1 = fd_iter st).
Proof.
  eexists _, _. split; [vm_compute; reflexivity|].
  split; [vm_compute; reflexivity|].
  apply (wait_works_on_copies Inputs.select_read_ready _ 2 _).
  vm_compute. reflexivity.
Defined.

Lemma select_bound_covers_witness :
  exists st,
    run [call_add 5 3; call_add 9 1] (new Inputs.raw) = Ok st
    /\ select_nfds st = 10
    /\ (forall d fd, FD_ISSET fd (fds d st) = true -> 0 <= fd < select_nfds st)
    /\ select_nfds st <= Z.max event_invalid_fd FD_SETSIZE
    /\ (select_nfds st = event_invalid_fd
        <-> forall d fd, FD_ISSET fd (fds d st) = false).
Proof.
  eexists. split; [vm_compute; reflexivity|]. split; [reflexivity|].
  apply (select_bound_covers Inputs.raw [call_add 5 3; call_add 9 1]).
  vm_compute. reflexivity.
Defined.

Lemma add_succeeds_iff_witness :
  exists st,
    run [call_add 5 3] (new Inputs.raw) = Ok st
    /\ ((exists st', add st 9 1 = Ok (1, st'))
        <-> 0 <= 9 < FD_SETSIZE
            /\ exists d, fIsSet 1 (event_flag d) = true).
Proof.
  eexists. split; [vm_compute; reflexivity|].
  apply (add_succeeds_iff Inputs.raw [call_add 5 3]).
  vm_compute. reflexivity.
Defined.

Lemma add_accumulates_interest_witness :
  exists st st',
    run [call_add 5 1] (new Inputs.raw) = Ok st
    /\ add st 5 (-1) = Ok (1, st')
    /\ fd_list st' = [(5, 4294967295)]
    /\ (forall d y,
          FD_ISSET y (fds d st') = true
          <-> (y = 5 /\ fIsSet (-1) (event_flag d) = true)
              \/ FD_ISSET y (fds d st) = true)
    /\ (forall k v,
          (k, v) ∈ fd_list st'
          <-> (k = 5 /\ v = uint (-1)) \/ (k <> 5 /\ (k, v) ∈ fd_list st))
    /\ fd_iter st' = fd_iter st.
Proof.
  eexists _, _. split; [vm_compute; reflexivity|].
  split; [vm_compute; reflexivity|]. split; [reflexivity|].
  apply (add_accumulates_interest Inputs.raw [call_add 5 1] _ 5 (-1) 1 _).
  - vm_compute. reflexivity.
  - vm_compute. reflexivity.
Defined.

Lemma modify_succeeds_iff_witness :
  exists st,
    run [call_add 5 3] (new Inputs.raw) = Ok st
    /\ ((exists st', modify st 9 0 = Ok (0, st'))
        <-> 0 <= 9 < FD_SETSIZE
            /\ (0 = 0 \/ exists d, fIsSet 0 (event_flag d) = true)).
Proof.
  eexists. split; [vm_compute; reflexivity|].
  apply (modify_succeeds_iff Inputs.raw [call_add 5 3]).
  vm_compute. reflexivity.
Defined.

Lemma modify_replaces_interest_witness :
  exists st st',
    run [call_add 5 3; call_add 9 1] (new Inputs.raw) = Ok st
    /\ modify st 5 4 = Ok (0, st')
    /\ (forall d, FD_ISSET 5 (fds d st') = fIsSet 4 (event_flag d))
    /\ (forall d y, y <> 5 -> FD_ISSET y (fds d st') = FD_ISSET y (fds d st))
    /\ (forall k v,
          k <> 5 -> (k, v) ∈ fd_list st' <-> (k, v) ∈ fd_list st)
    /\ (4 <> 0 -> forall v, (5, v) ∈ fd_list st' <-> v = uint 4).
Proof.
  eexists _, _. split; [vm_compute; reflexivity|].
  split; [vm_compute; reflexivity|].
  apply (modify_replaces_interest Inputs.raw [call_add 5 3; call_add 9 1]
           _ 5 4 0 _).
  - vm_compute. reflexivity.
  - vm_compute. reflexivity.
Defined.

Lemma remove_succeeds_iff_witness :
  exists st,
    run [call_add 5 3; call_add 9 1] (new Inputs.raw) = Ok st
    /\ ((exists st', remove st 9 = Ok (1, st'))
        <-> 9 ∈ StdMap.keys (fd_list st)).
Proof.
  eexists. split; [vm_compute; reflexivity|].
  apply (remove_succeeds_iff Inputs.raw [call_add 5 3; call_add 9 1]).
  vm_compute. reflexivity.
Defined.

Lemma remove_forgets_descriptor_witness :
  exists st st',
    run [call_add 5 3; call_add 9 1] (new Inputs.raw) = Ok st
    /\ remove st 9 = Ok (1, st')
    /\ (9 ∉ StdMap.keys (fd_list st'))
    /\ (forall d, FD_ISSET 9 (fds d st') = false)
    /\ (forall k v,
          (k, v) ∈ fd_list st' <-> ((k, v) ∈ fd_list st) /\ k <> 9)
    /\ (forall d y, y <> 9 -> FD_ISSET y (fds d st') = FD_ISSET y (fds d st))
    /\ fd_iter st' = StdMap.begin (fd_list st').
Proof.
  eexists _, _. split; [vm_compute; reflexivity|].
  split; [vm_compute; reflexivity|].
  apply (remove_forgets_descriptor Inputs.raw [call_add 5 3; call_add 9 1]
           _ 9 1 _).
  - vm_compute. reflexivity.
  - vm_compute. reflexivity.
Defined.

Lemma add_remove_round_trip_witness :
  exists st st1,
    run [call_add 5 3] (new Inputs.raw) = Ok st
    /\ add st 9 6 = Ok (1, st1)
    /\ exists st2,
        remove st1 9 = Ok (1, st2)
        /\ (forall d, fds d st2 = fds d st /\ x_set d st2 = x_set d st
                      /\ nfds_x d st2 = nfds_x d st)
        /\ fd_list st2 = fd_list st.
Proof.
  eexists _, _. split; [vm_compute; reflexivity|].
  split; [vm_compute; reflexivity|].
  apply (add_remove_round_trip Inputs.raw [call_add 5 3] _ 9 6 1 _).
  - vm_compute. reflexivity.
  - intros Hin. apply (bool_decide_pack _) in Hin. vm_compute in Hin.
    exact Hin.
  - vm_compute. reflexivity.
Defined.

Lemma add_again_changes_nothing_witness :
  exists st st1,
    run [call_add 5 3] (new Inputs.raw) = Ok st
    /\ add st 9 6 = Ok (1, st1)
    /\ exists st2,
        add st1 9 6 = Ok (1, st2)
        /\ (forall d, fds d st2 = fds d st1 /\ x_set d st2 = x_set d st1
                      /\ nfds_x d st2 = nfds_x d st1)
        /\ fd_list st2 = fd_list st1.
Proof.
  eexists _, _. split; [vm_compute; reflexivity|].
  split; [vm_compute; reflexivity|].
  eapply (add_again_changes_nothing Inputs.raw [call_add 5 3] _ 9 6 1 _).
  - vm_compute. reflexivity.
  - vm_compute. reflexivity.
Defined.

Lemma registry_well_formed_witness :
  exists st,
    run [call_add 9 1; call_add 5 3; call_modify 9 0] (new Inputs.raw) = Ok st
    /\ StdMap.keys (fd_list st) = [5; 9]
    /\ StronglySorted Z.lt (StdMap.keys (fd_list st))
    /\ NoDup (StdMap.keys (fd_list st))
    /\ (forall fd, fd ∈ StdMap.keys (fd_list st) ->
                   0 <= fd < FD_SETSIZE /\ fd <> event_invalid_fd)
    /\ (forall d fd, fd ∈ x_set d st <-> FD_ISSET fd (fds d st) = true)
    /\ (forall d fd, FD_ISSET fd (fds d st) = true ->
                     fd ∈ StdMap.keys (fd_list st)).
Proof.
  eexists. split; [vm_compute; reflexivity|]. split; [reflexivity|].
  apply (registry_well_formed Inputs.raw
           [call_add 9 1; call_add 5 3; call_modify 9 0]).
  vm_compute. reflexivity.
Defined.

Lemma remove_restarts_iteration_witness :
  exists st st',
    run [call_add 5 3; call_add 9 1; call_add 7 2;
         call_wait Inputs.select_all_ready; call_getEvent 0 0]
      (new Inputs.raw) = Ok st
    /\ remove st 5 = Ok (1, st')
    /\ filter (fun p => p.1 <> 5) (ready st) = [(7, 2); (9, 1)]
    /\ drain (S (length (fd_list st'))) st' 0 0
       = Ok (filter (fun p => p.1 <> 5) (ready st), exhausted st').
Proof.
  eexists _, _. split; [vm_compute; reflexivity|].
  split; [vm_compute; reflexivity|]. split; [vm_compute; reflexivity|].
  apply (remove_restarts_iteration Inputs.raw
           [call_add 5 3; call_add 9 1; call_add 7 2;
            call_wait Inputs.select_all_ready; call_getEvent 0 0]
           _ 5 1 _ 0 0).
  - vm_compute. reflexivity.
  - vm_compute. reflexivity.
  - discriminate.
Defined.

Lemma yields_are_watched_witness :
  exists st st1 ys st2,
    run [call_add 5 3; call_add 9 1] (new Inputs.raw) = Ok st
    /\ wait Inputs.select_read_ready st = Ok (2, st1)
    /\ drain (S (length (fd_list st1))) st1 0 0 = Ok (ys, st2)
    /\ ys = [(5, 1); (9, 1)]
    /\ forall fd events,
        (fd, events) ∈ ys ->
        fd ∈ StdMap.keys (fd_list st)
        /\ 1 <= events <= 7
        /\ forall d, fIsSet events (event_flag d) = true ->
                     FD_ISSET fd (fds d st) = true.
Proof.
  eexists _, _, _, _. split; [vm_compute; reflexivity|].
  split; [vm_compute; reflexivity|]. split; [vm_compute; reflexivity|].
  split; [reflexivity|].
  eapply (yields_are_watched Inputs.raw [call_add 5 3; call_add 9 1]
           _ Inputs.select_read_ready 2 _ 0 0 _ _).
  - vm_compute. reflexivity.
  - discriminate.
  - vm_compute. reflexivity.
  - vm_compute. reflexivity.
  - discriminate.
  - discriminate.
  - vm_compute. reflexivity.
Defined.

Lemma getEvent_before_first_wait_witness :
  (exists st,
     run [call_add 5 3; call_timeout 2500] (new Inputs.raw) = Ok st
     /\ getEvent st 0 0 = Fail undefined_behaviour)
  /\ getEvent (new Inputs.raw) 0 0 = Fail assertion_failed.
Proof.
  split.
  - eexists. split; [vm_compute; reflexivity|].
    refine (getEvent_before_first_wait Inputs.raw
              [call_add 5 3; call_timeout 2500] _ 0 0 _ _).
    + reflexivity.
    + vm_compute. reflexivity.
  - refine (getEvent_before_first_wait Inputs.raw [] _ 0 0 _ _).
    + reflexivity.
    + reflexivity.
Defined.

Lemma setup_keeps_readiness_witness :
  exists st st',
    run [call_add 5 3; call_add 9 1; call_wait Inputs.select_read_ready]
      (new Inputs.raw) = Ok st
    /\ run [call_modify 5 0; call_add 7 2; call_timeout 10] st = Ok st'
    /\ satisfied st' 5 = 1
    /\ fd_iter st' = fd_iter st
    /\ forall fd, satisfied st' fd = satisfied st fd.
Proof.
  eexists _, _. split; [vm_compute; reflexivity|].
  split; [vm_compute; reflexivity|]. split; [vm_compute; reflexivity|].
  apply (setup_keeps_readiness Inputs.raw
           [call_add 5 3; call_add 9 1; call_wait Inputs.select_read_ready]
           _ [call_modify 5 0; call_add 7 2; call_timeout 10] _).
  - vm_compute. reflexivity.
  - reflexivity.
  - vm_compute. reflexivity.
Defined.

Lemma wait_returns_select_value_witness :
  exists st1,
    wait Inputs.select_all_ready (new Inputs.raw)
    = Ok (sel_ret (select_call Inputs.select_all_ready (new Inputs.raw)), st1)
    /\ nfds st1 = sel_ret (select_call Inputs.select_all_ready (new Inputs.raw))
    /\ error st1 = error (new Inputs.raw)
    /\ _timeout st1
       = sel_timeout (select_call Inputs.select_all_ready (new Inputs.raw)).
Proof.
  apply (wait_returns_select_value Inputs.select_all_ready (new Inputs.raw)).
  vm_compute. discriminate.
Defined.

End ExtraInstances.

Lemma command_stream_types_witness :
  Message.isCommand (Message.new Inputs.plain_class Message.MSG_CHAT 1)
  = false
  /\ Message.isCommand
       (Message.new Inputs.undoable_class Message.MSG_PEN_MOVE 2) = true.
Proof.
  split.
  - apply (proj2 (proj2 (proj2 command_stream_types))).
    vm_compute. split; discriminate.
  - apply (proj1 (proj2 (proj2 command_stream_types))).
    vm_compute. split; discriminate.
Defined.

Lemma copy_destroy_round_trip_witness :
  exists h' s1,
    MessagePtr.copy {| MessagePtr._ptr := 2 |} Inputs.two_envelopes
    = Ok (h', s1)
    /\ MessagePtr._ptr h' = 2%N
    /\ MessagePtr.heap s1 !! 2%N
       = Some (MessagePtr.set_refcount (1 + 1)
                 (MessagePtr.set_refcount 1
                    (Message.new Inputs.undoable_class
                       Message.MSG_PEN_MOVE 2)))
    /\ MessagePtr.destroy h' s1 = Ok Inputs.two_envelopes.
Proof.
  apply (copy_destroy_round_trip {| MessagePtr._ptr := 2 |}
           Inputs.two_envelopes
           (MessagePtr.set_refcount 1
              (Message.new Inputs.undoable_class Message.MSG_PEN_MOVE 2))).
  - vm_compute. reflexivity.
  - split; reflexivity.
Defined.

Lemma assign_moves_reference_witness :
  exists s',
    MessagePtr.assign {| MessagePtr._ptr := 2 |} {| MessagePtr._ptr := 1 |}
      Inputs.two_envelopes
    = Ok ({| MessagePtr._ptr := 1 |}, s')
    /\ MessagePtr.heap s' !! 1%N
       = Some (MessagePtr.set_refcount (0 + 1)
                 (Message.new Inputs.plain_class Message.MSG_CHAT 1))
    /\ MessagePtr.heap s' !! 2%N = None
    /\ MessagePtr.deleted s' = [2%N]
    /\ forall r, r <> 1%N -> r <> 2%N ->
                 MessagePtr.heap s' !! r
                 = MessagePtr.heap Inputs.two_envelopes !! r.
Proof.
  apply (assign_moves_reference
           {| MessagePtr._ptr := 2 |} {| MessagePtr._ptr := 1 |}
           Inputs.two_envelopes
           (MessagePtr.set_refcount 1
              (Message.new Inputs.undoable_class Message.MSG_PEN_MOVE 2))
           (Message.new Inputs.plain_class Message.MSG_CHAT 1)).
  - discriminate.
  - vm_compute. reflexivity.
  - vm_compute. reflexivity.
  - reflexivity.
  - reflexivity.
Defined.

Lemma adopted_twice_witness :
  exists hs s1,
    MessagePtr.handles 1 [MessagePtr.by_copy 0] Inputs.two_envelopes
    = Ok (hs, s1)
    /\ MessagePtr.new 1 s1 = Fail assertion_failed.
Proof.
  eexists _, _. split; [vm_compute; reflexivity|].
  eapply (adopted_twice 1 [MessagePtr.by_copy 0] Inputs.two_envelopes).
  vm_compute. reflexivity.
Defined.

Lemma use_after_last_destroy_witness :
  exists hs s1 s2,
    MessagePtr.handles 1 [MessagePtr.by_copy 0] Inputs.two_envelopes
    = Ok (hs, s1)
    /\ MessagePtr.destroy_all hs s1 = Ok s2
    /\ forall h, h ∈ hs ->
                 MessagePtr.copy h s2 = Fail undefined_behaviour
                 /\ MessagePtr.destroy h s2 = Fail undefined_behaviour.
Proof.
  eexists _, _, _. split; [vm_compute; reflexivity|].
  split; [vm_compute; reflexivity|].
  eapply (use_after_last_destroy 1 [MessagePtr.by_copy 0]
           Inputs.two_envelopes _ _ _ _).
  - vm_compute. reflexivity.
  - reflexivity.
  - vm_compute. reflexivity.
Defined.

Lemma handle_program_counts_witness :
  exists hs s1 hs' s',
    MessagePtr.handles 1 [MessagePtr.by_copy 0] Inputs.two_envelopes
    = Ok (hs, s1)
    /\ HandleProgram.run
         [HandleProgram.op_copy 1; HandleProgram.op_destroy 0;
          HandleProgram.op_destroy 0] (hs, s1) = Ok (hs', s')
    /\ length hs' = 1%nat
    /\ MessagePtr.all_on 1 hs'
    /\ exists m0,
        MessagePtr.heap Inputs.two_envelopes !! 1%N = Some m0
        /\ match hs' with
           | [] => MessagePtr.heap s' !! 1%N = None
                   /\ MessagePtr.deletions 1 s'
                      = S (MessagePtr.deletions 1 Inputs.two_envelopes)
           | _ :: _ =>
               MessagePtr.heap s' !! 1%N
               = Some (MessagePtr.set_refcount (Z.of_nat (length hs')) m0)
               /\ MessagePtr.deletions 1 s'
                  = MessagePtr.deletions 1 Inputs.two_envelopes
           end.
Proof.
  eexists _, _, _, _. split; [vm_compute; reflexivity|].
  split; [shelve|]. split; [shelve|].
  eapply (handle_program_counts 1 [MessagePtr.by_copy 0] Inputs.two_envelopes
           _ _
           [HandleProgram.op_copy 1; HandleProgram.op_destroy 0;
            HandleProgram.op_destroy 0] _ _).
  - vm_compute. reflexivity.
  - vm_compute. reflexivity.
  Unshelve.
  + vm_compute. reflexivity.
  + reflexivity.
Defined.
